(** * The agent coordination store of beads_viewer ([pkg/agent])

    A shallow embedding of [pkg/agent/types.go] (the domain model) and
    [pkg/agent/store.go] (the coordination store), followed by the
    properties of the store that the specification states.

    Conventions of the embedding.

    - A Go [string] is a sequence of bytes: Rocq's [string].
    - A [time.Time] is an instant on one time line, an integer number of
      nanoseconds counted from Go's zero [Time]; a [time.Duration] is a
      signed count of nanoseconds in the range of [int64].
    - [time.Now()] is an argument [now] of every operation that reads the
      clock: the store runs each operation under its lock, and the clock is
      read as one instant per operation.
    - A Go slice value is either [nil] or a sequence of elements; the first
      part of the development keeps that distinction ([slice]) and nothing
      else of the slice header.  The second part ([Module Ref]) models
      pointers, slice headers and backing arrays, for the properties that
      are about aliasing.
    - The iteration order of a Go map is unspecified: every [range] over a
      map goes through an order [range_of] of which only the fact that it
      enumerates the map is known ([RangeOrder]).
    - [sync.RWMutex] makes each operation atomic; operations are functions
      from a store to a store and a result. *)

From Stdlib Require Import ZArith List Lia.
From Stdlib.Strings Require Import Byte.
From stdpp Require Import base option list gmap fin_maps strings.

Local Open Scope Z_scope.

(** ** package [time] *)

Abbreviation Time := Z.
Abbreviation Duration := Z.

Module time.

Definition Nanosecond : Duration := 1.
Definition Second : Duration := 1000000000 * Nanosecond.
Definition Minute : Duration := 60 * Second.
Definition Hour : Duration := 60 * Minute.

Definition minDuration : Duration := - 2 ^ 63.
Definition maxDuration : Duration := 2 ^ 63 - 1.

  (** [t.After(u)] *)
Definition After (t u : Time) : bool := bool_decide (u < t).

  (** [t.IsZero()] *)
Definition IsZero (t : Time) : bool := bool_decide (t = 0).

  (** [t.Sub(u)]: the difference, or the largest (smallest) duration when
      the difference does not fit. *)
Definition Sub (t u : Time) : Duration :=
    if bool_decide (maxDuration < t - u) then maxDuration
    else if bool_decide (t - u < minDuration) then minDuration
    else t - u.

  (** [t.Add(d)] *)
Definition Add (t : Time) (d : Duration) : Time := t + d.

  (** [time.Since(t)], with the clock reading [now]. *)
Definition Since (now t : Time) : Duration := Sub now t.

End time.

(** ** Slice values *)

(** [None] is the [nil] slice, [Some l] a slice that is not [nil]. *)
Definition slice (A : Type) : Type := option (list A).

(** The elements a [range] over the slice visits, in order. *)
Definition elems {A} (s : slice A) : list A := default [] s.

(** [append(s, x)]: never [nil]. *)
Definition append {A} (s : slice A) (x : A) : slice A := Some (elems s ++ [x]).

(** [var out []T; for _, x := range s { if keep(x) { out = append(out, x) } }] *)
Definition collect {A} (keep : A → bool) (l : list A) : slice A :=
  fold_left (λ out x, if keep x then append out x else out) l None.

(** ** Errors

    The store reports errors with [fmt.Errorf]; one constructor stands for
    each format string of the package. *)

Inductive error : Type :=
  | ErrInvalid (msg : string)             (* the messages of the Validate methods *)
  | ErrAgentNotFound (name : string)      (* "agent %s not found" *)
  | ErrAlreadyClaimed (bead holder : string) (* "bead %s already claimed by %s" *)
  | ErrClaimNotFound (bead : string)      (* "claim for bead %s not found" *)
  | ErrParse (lineNum : nat)              (* "parsing agent at line %d: %w" *)
  | ErrRead                               (* "reading agents file: %w" *)
  | ErrEncode (name : string)             (* "encoding agent %s: %w" *)
  | ErrMkdir                              (* "creating beads directory: %w" *)
  | ErrCreate                             (* "creating temp file: %w" *)
  | ErrClose                              (* "closing temp file: %w" *)
  | ErrRename.                            (* "renaming temp file: %w" *)

(** The error classes of the specification. *)
Inductive error_kind : Type :=
  ValidationError | NotFoundError | ConflictError | ParseError | PersistenceError.

Definition kind_of (e : error) : error_kind :=
  match e with
  | ErrInvalid _ => ValidationError
  | ErrAgentNotFound _ | ErrClaimNotFound _ => NotFoundError
  | ErrAlreadyClaimed _ _ => ConflictError
  | ErrParse _ => ParseError
  | ErrRead | ErrEncode _ | ErrMkdir | ErrCreate | ErrClose | ErrRename =>
      PersistenceError
  end.

(** ** Enums and constants ([types.go]) *)

Module AgentStatus.
Definition t := string.
Definition Active : t := "active".
Definition Idle : t := "idle".
Definition Inactive : t := "inactive".
Definition Gone : t := "gone".

Definition IsValid (s : t) : bool :=
    bool_decide (s = Active) || bool_decide (s = Idle)
    || bool_decide (s = Inactive) || bool_decide (s = Gone).
End AgentStatus.

Module ClaimReason.
Definition t := string.
Definition Implementing : t := "implementing".
Definition Reviewing : t := "reviewing".
Definition Testing : t := "testing".
Definition Debugging : t := "debugging".
Definition Planning : t := "planning".

Definition IsValid (r : t) : bool :=
    bool_decide (r = Implementing) || bool_decide (r = Reviewing)
    || bool_decide (r = Testing) || bool_decide (r = Debugging)
    || bool_decide (r = Planning).
End ClaimReason.

Definition DefaultClaimExpiry : Duration := 30 * time.Minute.
Definition DefaultHeartbeatInterval : Duration := 5 * time.Minute.
Definition DefaultInactivityThreshold : Duration := 30 * time.Minute.
Definition DefaultStaleThreshold : Duration := 1 * time.Hour.
Definition DefaultFileHintExpiry : Duration := 30 * time.Minute.

(** ** Core types ([types.go]) *)

Module WorkClaim.

Record t : Type := Make {
    BeadID : string;
    Agent : string;
    ClaimedAt : Time;
    ExpiresAt : Time;
    Reason : ClaimReason.t;
    Notes : string
  }.

  (** [func (c *WorkClaim) IsExpired(now time.Time) bool] *)
Definition IsExpired (c : t) (now : Time) : bool :=
    time.After now (ExpiresAt c).

  (** [func (c *WorkClaim) Validate() error] *)
Definition Validate (c : t) : option error :=
    if bool_decide (BeadID c = "") then Some (ErrInvalid "bead ID cannot be empty")
    else if bool_decide (Agent c = "") then Some (ErrInvalid "agent name cannot be empty")
    else if time.IsZero (ClaimedAt c) then Some (ErrInvalid "claimed_at cannot be zero")
    else if time.IsZero (ExpiresAt c) then Some (ErrInvalid "expires_at cannot be zero")
    else if negb (ClaimReason.IsValid (Reason c)) then
      Some (ErrInvalid ("invalid claim reason: " +:+ Reason c))
    else None.

  (** [func (c *WorkClaim) TimeToExpiry(now time.Time) time.Duration] *)
Definition TimeToExpiry (c : t) (now : Time) : Duration :=
    time.Sub (ExpiresAt c) now.

End WorkClaim.

Module FileHint.

Record t : Type := Make {
    Pattern : string;
    Agent : string;
    BeadID : string;
    CreatedAt : Time;
    ExpiresAt : Time
  }.

  (** [func (f *FileHint) IsExpired(now time.Time) bool] *)
Definition IsExpired (f : t) (now : Time) : bool :=
    time.After now (ExpiresAt f).

End FileHint.

Module AgentMeta.
Record t : Type := Make {
    Version : string;
    SessionID : string;
    Tags : slice string
  }.
Definition zero : t := Make "" "" None.
End AgentMeta.

Module AgentRegistration.

Record t : Type := Make {
    Name : string;
    Model : string;
    Program : string;
    StartedAt : Time;
    LastSeen : Time;
    ClaimedWork : slice WorkClaim.t;
    FileHints : slice FileHint.t;
    Status : AgentStatus.t;
    Metadata : AgentMeta.t
  }.

  (** Assignments to one field. *)
Definition set_StartedAt (v : Time) (a : t) : t :=
    Make (Name a) (Model a) (Program a) v (LastSeen a)
         (ClaimedWork a) (FileHints a) (Status a) (Metadata a).
Definition set_LastSeen (v : Time) (a : t) : t :=
    Make (Name a) (Model a) (Program a) (StartedAt a) v
         (ClaimedWork a) (FileHints a) (Status a) (Metadata a).
Definition set_ClaimedWork (v : slice WorkClaim.t) (a : t) : t :=
    Make (Name a) (Model a) (Program a) (StartedAt a) (LastSeen a)
         v (FileHints a) (Status a) (Metadata a).
Definition set_FileHints (v : slice FileHint.t) (a : t) : t :=
    Make (Name a) (Model a) (Program a) (StartedAt a) (LastSeen a)
         (ClaimedWork a) v (Status a) (Metadata a).
Definition set_Status (v : AgentStatus.t) (a : t) : t :=
    Make (Name a) (Model a) (Program a) (StartedAt a) (LastSeen a)
         (ClaimedWork a) (FileHints a) v (Metadata a).

  (** [func (a *AgentRegistration) Validate() error] *)
Definition Validate (a : t) : option error :=
    if bool_decide (Name a = "") then Some (ErrInvalid "agent name cannot be empty")
    else if bool_decide (Program a = "") then Some (ErrInvalid "agent program cannot be empty")
    else if negb (AgentStatus.IsValid (Status a)) then
      Some (ErrInvalid ("invalid agent status: " +:+ Status a))
    else None.

  (** [func (a *AgentRegistration) IsActive(timeout time.Duration) bool] *)
Definition IsActive (now : Time) (a : t) (timeout : Duration) : bool :=
    bool_decide (time.Since now (LastSeen a) < timeout).

  (** [func (a *AgentRegistration) IsStale(threshold time.Duration) bool] *)
Definition IsStale (now : Time) (a : t) (threshold : Duration) : bool :=
    bool_decide (threshold < time.Since now (LastSeen a)).

  (** [func (a *AgentRegistration) HasClaim(beadID string) bool] *)
Definition HasClaim (a : t) (beadID : string) : bool :=
    existsb (λ claim, bool_decide (WorkClaim.BeadID claim = beadID))
            (elems (ClaimedWork a)).

  (** [func (a *AgentRegistration) ActiveClaims(now time.Time) []WorkClaim] *)
Definition ActiveClaims (a : t) (now : Time) : slice WorkClaim.t :=
    collect (λ claim, negb (WorkClaim.IsExpired claim now)) (elems (ClaimedWork a)).

End AgentRegistration.

(** ** Factory functions ([types.go]) *)

Definition NewAgentRegistration (now : Time) (name model program : string)
  : AgentRegistration.t :=
  AgentRegistration.Make name model program now now
    (Some []) (Some []) AgentStatus.Active AgentMeta.zero.

Definition NewWorkClaim (now : Time) (beadID agent : string) (reason : ClaimReason.t)
  : WorkClaim.t :=
  WorkClaim.Make beadID agent now (time.Add now DefaultClaimExpiry) reason "".

Definition NewFileHint (now : Time) (pattern agent beadID : string) : FileHint.t :=
  FileHint.Make pattern agent beadID now (time.Add now DefaultFileHintExpiry).

(** ** Helper types ([types.go]) *)

Module FileConflict.
Record t : Type := Make {
  File : string;
  Agents : slice string;
  BeadIDs : slice string;
  Resolution : string
}.
End FileConflict.

(** ** Iteration over a Go map

    [for k, v := range m] visits every entry of [m] once, in an order the
    language leaves open. *)

Class RangeOrder : Type := {
  range_of : ∀ {A : Type}, gmap string A → list (string * A);
  range_of_perm : ∀ (A : Type) (m : gmap string A), range_of m ≡ₚ map_to_list m
}.

(** One such order, used to evaluate the store on concrete inputs. *)
Definition canonical_order : RangeOrder :=
  {| range_of := λ A m, map_to_list m;
     range_of_perm := λ A m, reflexivity (map_to_list m) |}.

(** The reverse of that order is another one. *)
Definition reverse_order : RangeOrder :=
  {| range_of := λ A m, reverse (map_to_list m);
     range_of_perm := λ A m, reverse_Permutation (map_to_list m) |}.

(** ** The store ([store.go]) *)

Record Store : Type := MkStore {
  beadsDir : string;
  agents : gmap string AgentRegistration.t   (* keyed by agent name *)
}.

(** [func NewStore(beadsDir string) *Store] *)
Definition NewStore (dir : string) : Store := MkStore dir ∅.

(** Assignment to [s.agents], and to the registration [s.agents[name]]
    points to. *)
Definition set_agents (m : gmap string AgentRegistration.t) (s : Store) : Store :=
  MkStore (beadsDir s) m.

Definition store_agent (name : string) (a : AgentRegistration.t) (s : Store) : Store :=
  set_agents (<[name := a]> (agents s)) s.

(** [existingClaim.BeadID == claim.BeadID && !existingClaim.IsExpired(now)] *)
Definition live_on (now : Time) (beadID : string) (c : WorkClaim.t) : bool :=
  bool_decide (WorkClaim.BeadID c = beadID) && negb (WorkClaim.IsExpired c now).

(** The inner loop of [Claim] and of [GetClaimHolder]: does the agent hold
    a claim on [beadID] that has not expired? *)
Definition holds_live (now : Time) (beadID : string) (a : AgentRegistration.t) : bool :=
  existsb (live_on now beadID) (elems (AgentRegistration.ClaimedWork a)).

Section Operations.
Context `{RangeOrder}.

Import AgentRegistration.

(** [func (s *Store) Register(agent *AgentRegistration) error] *)
Definition Register (now : Time) (s : Store) (agent : AgentRegistration.t)
  : Store * option error :=
  match Validate agent with
  | Some err => (s, Some err)
  | None =>
      let agent :=
        match agents s !! Name agent with
        | Some existing =>
            let agent := set_StartedAt (StartedAt existing) agent in
            let agent :=
              match ClaimedWork agent with
              | None => set_ClaimedWork (ClaimedWork existing) agent
              | Some _ => agent
              end in
            match FileHints agent with
            | None => set_FileHints (FileHints existing) agent
            | Some _ => agent
            end
        | None => agent
        end in
      let agent := set_LastSeen now agent in
      (store_agent (Name agent) agent s, None)
  end.

(** [func (s *Store) Unregister(name string) error] *)
Definition Unregister (s : Store) (name : string) : Store * option error :=
  match agents s !! name with
  | None => (s, Some (ErrAgentNotFound name))
  | Some _ => (set_agents (delete name (agents s)) s, None)
  end.

(** [func (s *Store) Get(name string) *AgentRegistration]; [None] is the
    [nil] pointer. *)
Definition Get (s : Store) (name : string) : option AgentRegistration.t :=
  agents s !! name.

(** [func (s *Store) List() []*AgentRegistration] *)
Definition List (s : Store) : list AgentRegistration.t :=
  (range_of (agents s)).*2.

(** [func (s *Store) ActiveAgents(timeout time.Duration) []*AgentRegistration] *)
Definition ActiveAgents (now : Time) (s : Store) (timeout : Duration)
  : slice AgentRegistration.t :=
  collect (λ agent, IsActive now agent timeout) (range_of (agents s)).*2.

(** [func (s *Store) Heartbeat(name string) error] *)
Definition Heartbeat (now : Time) (s : Store) (name : string) : Store * option error :=
  match agents s !! name with
  | None => (s, Some (ErrAgentNotFound name))
  | Some agent =>
      let agent := set_LastSeen now agent in
      let agent := set_Status AgentStatus.Active agent in
      (store_agent name agent s, None)
  end.

(** The conflict check of [Claim]: the first agent in iteration order,
    other than [agentName], that holds an unexpired claim on the bead. *)
Definition find_conflict (now : Time) (s : Store) (agentName beadID : string)
  : option AgentRegistration.t :=
  snd <$> find (λ kv, negb (bool_decide (Name kv.2 = agentName))
                      && holds_live now beadID kv.2)
               (range_of (agents s)).

(** [func (s *Store) Claim(agentName string, claim *WorkClaim) error] *)
Definition Claim (now : Time) (s : Store) (agentName : string) (claim : WorkClaim.t)
  : Store * option error :=
  match WorkClaim.Validate claim with
  | Some err => (s, Some err)
  | None =>
      match agents s !! agentName with
      | None => (s, Some (ErrAgentNotFound agentName))
      | Some agent =>
          match find_conflict now s agentName (WorkClaim.BeadID claim) with
          | Some other =>
              (s, Some (ErrAlreadyClaimed (WorkClaim.BeadID claim) (Name other)))
          | None =>
              let newClaims :=
                collect (λ c, negb (bool_decide
                                (WorkClaim.BeadID c = WorkClaim.BeadID claim)))
                        (elems (ClaimedWork agent)) in
              let newClaims := append newClaims claim in
              let agent := set_ClaimedWork newClaims agent in
              let agent := set_LastSeen now agent in
              (store_agent agentName agent s, None)
          end
      end
  end.

(** [func (s *Store) Release(agentName, beadID string) error] *)
Definition Release (now : Time) (s : Store) (agentName beadID : string)
  : Store * option error :=
  match agents s !! agentName with
  | None => (s, Some (ErrAgentNotFound agentName))
  | Some agent =>
      let newClaims :=
        collect (λ c, negb (bool_decide (WorkClaim.BeadID c = beadID)))
                (elems (ClaimedWork agent)) in
      let found :=
        existsb (λ c, bool_decide (WorkClaim.BeadID c = beadID))
                (elems (ClaimedWork agent)) in
      if negb found then (s, Some (ErrClaimNotFound beadID))
      else
        let agent := set_ClaimedWork newClaims agent in
        let agent := set_LastSeen now agent in
        (store_agent agentName agent s, None)
  end.

(** [func (s *Store) GetClaimHolder(beadID string) *AgentRegistration] *)
Definition GetClaimHolder (now : Time) (s : Store) (beadID : string)
  : option AgentRegistration.t :=
  snd <$> find (λ kv, holds_live now beadID kv.2) (range_of (agents s)).

(** [func (s *Store) GetAllClaims() []WorkClaim] *)
Definition GetAllClaims (now : Time) (s : Store) : slice WorkClaim.t :=
  collect (λ claim, negb (WorkClaim.IsExpired claim now))
          (flat_map (λ kv, elems (ClaimedWork kv.2)) (range_of (agents s))).

(** [func (s *Store) AddFileHint(agentName string, hint *FileHint) error] *)
Definition AddFileHint (now : Time) (s : Store) (agentName : string) (hint : FileHint.t)
  : Store * option error :=
  match agents s !! agentName with
  | None => (s, Some (ErrAgentNotFound agentName))
  | Some agent =>
      let agent := set_FileHints (append (FileHints agent) hint) agent in
      let agent := set_LastSeen now agent in
      (store_agent agentName agent s, None)
  end.

(** [func (s *Store) RemoveFileHint(agentName, pattern string) error] *)
Definition RemoveFileHint (now : Time) (s : Store) (agentName pattern : string)
  : Store * option error :=
  match agents s !! agentName with
  | None => (s, Some (ErrAgentNotFound agentName))
  | Some agent =>
      let newHints :=
        collect (λ h, negb (bool_decide (FileHint.Pattern h = pattern)))
                (elems (FileHints agent)) in
      let agent := set_FileHints newHints agent in
      let agent := set_LastSeen now agent in
      (store_agent agentName agent s, None)
  end.

(** *** [GetFileConflicts] *)

(** [m[k] = append(m[k], x)] on a [map[string][]string]: a missing key
    reads as the [nil] slice. *)
Definition map_append (m : gmap string (list string)) (k x : string)
  : gmap string (list string) :=
  <[k := elems (append (m !! k) x)]> m.

(** The hints the first loop of [GetFileConflicts] gets to, each with the
    name of its agent: those of the active agents that have not expired. *)
Definition live_hints (now : Time) (s : Store) : list (string * FileHint.t) :=
  flat_map (λ kv : string * AgentRegistration.t,
              if negb (IsActive now kv.2 DefaultInactivityThreshold) then []
              else (λ hint, (Name kv.2, hint)) <$>
                     filter (λ hint, FileHint.IsExpired hint now = false)
                            (elems (FileHints kv.2)))
           (range_of (agents s)).

(** The body of the first loop, on the pair [(fileAgents, fileBeads)]. *)
Definition note_hint (acc : gmap string (list string) * gmap string (list string))
    (x : string * FileHint.t) : gmap string (list string) * gmap string (list string) :=
  let fileAgents := map_append acc.1 (FileHint.Pattern x.2) x.1 in
  let fileBeads :=
    if bool_decide (FileHint.BeadID x.2 ≠ "")
    then map_append acc.2 (FileHint.Pattern x.2) (FileHint.BeadID x.2)
    else acc.2 in
  (fileAgents, fileBeads).

(** [func (s *Store) GetFileConflicts() []FileConflict] *)
Definition GetFileConflicts (now : Time) (s : Store) : slice FileConflict.t :=
  let '(fileAgents, fileBeads) := fold_left note_hint (live_hints now s) (∅, ∅) in
  fold_left
    (λ conflicts fa,
       if bool_decide (1 < length fa.2)%nat
       then append conflicts
              (FileConflict.Make fa.1 (Some fa.2) (fileBeads !! fa.1) "")
       else conflicts)
    (range_of fileAgents) None.

(** *** [CleanupExpired] *)

(** The body of the loop of [CleanupExpired], on the registration the
    loop variable points to. *)
Definition cleanup_agent (now : Time) (agent : AgentRegistration.t)
  : AgentRegistration.t :=
  let activeClaims :=
    collect (λ claim, negb (WorkClaim.IsExpired claim now))
            (elems (ClaimedWork agent)) in
  let agent := set_ClaimedWork activeClaims agent in
  let activeHints :=
    collect (λ hint, negb (FileHint.IsExpired hint now))
            (elems (FileHints agent)) in
  let agent := set_FileHints activeHints agent in
  if IsStale now agent DefaultStaleThreshold
  then set_Status AgentStatus.Gone agent
  else if negb (IsActive now agent DefaultInactivityThreshold)
  then set_Status AgentStatus.Inactive agent
  else agent.

(** [func (s *Store) CleanupExpired()] *)
Definition CleanupExpired (now : Time) (s : Store) : Store :=
  set_agents (cleanup_agent now <$> agents s) s.

End Operations.

(** ** The snapshot file ([Load], [Save])

    What [Load] and [Save] use of the platform: [filepath.Join], and
    [encoding/json] on one [AgentRegistration] ([None] when [Marshal] or
    [Unmarshal] returns an error).  [Unmarshal] decodes into a zero
    [AgentRegistration], so its result is a function of the line. *)

Class Platform : Type := {
  filepath_Join : string → string → string;
  json_Marshal : AgentRegistration.t → option (list byte);
  json_Unmarshal : list byte → option AgentRegistration.t
}.

(** The file system, as far as the store sees it: the contents of the
    regular files, by path.  [Load] is modelled on a file system that it
    can read: [os.Open] fails only when there is no file, and the scanner
    meets no read error other than its own [bufio.ErrTooLong]. *)
Abbreviation FS := (gmap string (list byte)).

(** What the operating system does with the calls of one [Save]: whether
    [os.MkdirAll], [os.Create], [file.Close], [os.Rename] and [os.Remove]
    succeed, and what becomes of a [Write] of [data] to the temp file that
    holds [file]: [None] when all of [data] is written, [Some n] when the
    write fails after [n] bytes. *)
Record OS : Type := MkOS {
  MkdirAll_ok : bool;
  Create_ok : bool;
  Write_fails : list byte → list byte → option nat;
  Close_ok : bool;
  Rename_ok : bool;
  Remove_ok : bool
}.

(** Every call is served. *)
Definition reliable : OS := MkOS true true (λ _ _, None) true true true.

(** [os.Remove(path)], the result of which [Save] does not look at. *)
Definition os_Remove (os : OS) (path : string) (fs : FS) : FS :=
  if Remove_ok os then delete path fs else fs.

(** *** [bufio.Scanner] with [bufio.ScanLines] *)

#[global] Instance byte_eq_decision : EqDecision byte := byte_eq_dec.

(** [bufio.MaxScanTokenSize]: the largest buffer the scanner allocates.  A
    line and its terminator have to fit in it. *)
Definition MaxScanTokenSize : Z := 64 * 1024.

Definition is_newline (b : byte) : bool := Byte.eqb b x0a.

(** The token for a line whose bytes, last first, are [cur]: the line
    without one trailing carriage return ([dropCR]). *)
Definition token_of (cur : list byte) : list byte :=
  match cur with
  | x0d :: cur' => reverse cur'
  | _ => reverse cur
  end.

(** Does a line of [length cur] bytes fit, together with one more byte
    (its terminator, or the room the scanner needs to see the end of the
    file)? *)
Definition fits_buffer (cur : list byte) : bool :=
  bool_decide (Z.of_nat (length cur) < MaxScanTokenSize).

(** The tokens [scanner.Scan()] delivers on [data], and whether the scan
    then stopped with [bufio.ErrTooLong].  [cur] holds the bytes of the
    line being read, last first. *)
Fixpoint scan_from (data cur : list byte) : list (list byte) * bool :=
  match data with
  | [] =>
      match cur with
      | [] => ([], false)
      | _ => if fits_buffer cur then ([token_of cur], false) else ([], true)
      end
  | b :: rest =>
      if is_newline b then
        if fits_buffer cur
        then let r := scan_from rest [] in (token_of cur :: r.1, r.2)
        else ([], true)
      else scan_from rest (b :: cur)
  end.

Definition Scan (data : list byte) : list (list byte) * bool := scan_from data [].

Section Persistence.
Context `{RangeOrder} `{Platform}.

Import AgentRegistration.

(** [func (s *Store) AgentsFilePath() string] *)
Definition AgentsFilePath (s : Store) : string :=
  filepath_Join (beadsDir s) "agents.jsonl".

(** The loop of [Load] over the scanned lines. *)
Fixpoint load_lines (lines : list (list byte)) (lineNum : nat)
    (m : gmap string AgentRegistration.t)
  : gmap string AgentRegistration.t * option error :=
  match lines with
  | [] => (m, None)
  | line :: rest =>
      let lineNum := S lineNum in
      match line with
      | [] => load_lines rest lineNum m
      | _ =>
          match json_Unmarshal line with
          | None => (m, Some (ErrParse lineNum))
          | Some agent => load_lines rest lineNum (<[Name agent := agent]> m)
          end
      end
  end.

(** [func (s *Store) Load() error] *)
Definition Load (s : Store) (fs : FS) : Store * option error :=
  let s := set_agents ∅ s in
  match fs !! AgentsFilePath s with
  | None => (s, None)
  | Some data =>
      let scanned := Scan data in
      match load_lines scanned.1 0 (agents s) with
      | (m, Some err) => (set_agents m s, Some err)
      | (m, None) => (set_agents m s, if scanned.2 then Some ErrRead else None)
      end
  end.

(** The loop of [Save]: what [encoder.Encode] has written when the loop
    ends, or the name of the agent it failed on. *)
Fixpoint encode_all (l : list (string * AgentRegistration.t)) : list byte + string :=
  match l with
  | [] => inl []
  | kv :: rest =>
      match json_Marshal kv.2 with
      | None => inr (Name kv.2)
      | Some line =>
          match encode_all rest with
          | inl out => inl (line ++ x0a :: out)
          | inr name => inr name
          end
      end
  end.

(** The loop of [Save] on a temp file that holds [file]: each
    [encoder.Encode] marshals one registration and writes the line and a
    newline with one [Write].  The result is what the file holds when the
    loop ends, and the name of the agent it failed on if it did. *)
Fixpoint encode_each (os : OS) (l : list (string * AgentRegistration.t))
    (file : list byte) : list byte * option string :=
  match l with
  | [] => (file, None)
  | kv :: rest =>
      match json_Marshal kv.2 with
      | None => (file, Some (Name kv.2))
      | Some line =>
          let data := line ++ [x0a] in
          match Write_fails os file data with
          | Some n => (file ++ take n data, Some (Name kv.2))
          | None => encode_each os rest (file ++ data)
          end
      end
  end.

(** [func (s *Store) Save() error], with the outcomes [os] of its system
    calls. *)
Definition SaveWith (os : OS) (s : Store) (fs : FS) : FS * option error :=
  if negb (MkdirAll_ok os) then (fs, Some ErrMkdir)
  else
    let path := AgentsFilePath s in
    let tmpPath := (path +:+ ".tmp")%string in
    if negb (Create_ok os) then (fs, Some ErrCreate)
    else
      let fs := <[tmpPath := []]> fs in
      match encode_each os (range_of (agents s)) [] with
      | (out, Some name) =>
          (os_Remove os tmpPath (<[tmpPath := out]> fs), Some (ErrEncode name))
      | (out, None) =>
          let fs := <[tmpPath := out]> fs in
          if negb (Close_ok os) then (os_Remove os tmpPath fs, Some ErrClose)
          else if negb (Rename_ok os) then (os_Remove os tmpPath fs, Some ErrRename)
          else (<[path := out]> (delete tmpPath fs), None)
      end.

(** [Save] when the operating system serves every call. *)
Definition Save (s : Store) (fs : FS) : FS * option error := SaveWith reliable s fs.

End Persistence.

(** * Pointers, slice headers and backing arrays

    [Store.agents] maps a name to a _pointer_ to a registration, and a
    registration holds two slice _headers_.  This part models that for
    [Register] and the getters: a heap of registration structs and of
    backing arrays, the store as a map from names to addresses, and the
    writes a caller can do through a pointer it holds.  (The [Tags] slice
    of the metadata is kept as a value.) *)

Module Ref.

Abbreviation ptr := positive.

(** A slice header: the backing array, the length and the capacity.  The
    package never reslices, so a header always starts at index 0. *)
Record header : Type := Header {
  array : ptr;
  len : nat;
  cap : nat
}.

(** The struct [AgentRegistration] as it lies in memory: [None] is the
    [nil] slice. *)
Record Registration : Type := MkReg {
  Name : string;
  Model : string;
  Program : string;
  StartedAt : Time;
  LastSeen : Time;
  ClaimedWork : option header;
  FileHints : option header;
  Status : AgentStatus.t;
  Metadata : AgentMeta.t
}.

Record Heap : Type := MkHeap {
  regs : gmap ptr Registration;
  claimArrays : gmap ptr (list WorkClaim.t);
  hintArrays : gmap ptr (list FileHint.t)
}.

Definition empty_heap : Heap := MkHeap ∅ ∅ ∅.

Record Store : Type := MkStore {
  beadsDir : string;
  agents : gmap string ptr
}.

Definition NewStore (dir : string) : Store := MkStore dir ∅.

(** *** Reading the heap *)

(** The elements of a slice: the first [len] cells of its array. *)
Definition read_claims (σ : Heap) (h : option header) : slice WorkClaim.t :=
  (λ h, take (len h) (default [] (claimArrays σ !! array h))) <$> h.

Definition read_hints (σ : Heap) (h : option header) : slice FileHint.t :=
  (λ h, take (len h) (default [] (hintArrays σ !! array h))) <$> h.

(** The value of a registration struct: its fields, with the elements of
    its two slices. *)
Definition to_value (σ : Heap) (r : Registration) : AgentRegistration.t :=
  AgentRegistration.Make (Name r) (Model r) (Program r) (StartedAt r) (LastSeen r)
    (read_claims σ (ClaimedWork r)) (read_hints σ (FileHints r))
    (Status r) (Metadata r).

(** [*p], as a value. *)
Definition load (σ : Heap) (p : ptr) : option AgentRegistration.t :=
  to_value σ <$> regs σ !! p.

(** What the store holds: for each name the value of the registration its
    pointer leads to.  Every read of the store is a function of this. *)
Definition snapshot (σ : Heap) (s : Store) : gmap string AgentRegistration.t :=
  omap (load σ) (agents s).

(** *** Allocation and assignment *)

Definition set_regs (m : gmap ptr Registration) (σ : Heap) : Heap :=
  MkHeap m (claimArrays σ) (hintArrays σ).

Definition set_claimArrays (m : gmap ptr (list WorkClaim.t)) (σ : Heap) : Heap :=
  MkHeap (regs σ) m (hintArrays σ).

Definition set_hintArrays (m : gmap ptr (list FileHint.t)) (σ : Heap) : Heap :=
  MkHeap (regs σ) (claimArrays σ) m.

(** [&AgentRegistration{...}], and [copy := *agent; &copy]. *)
Definition alloc_reg (σ : Heap) (r : Registration) : Heap * ptr :=
  let p := fresh (dom (regs σ)) in (set_regs (<[p := r]> (regs σ)) σ, p).

(** [[]WorkClaim{c1, ..., cn}]: a new array that holds the elements. *)
Definition alloc_claims (σ : Heap) (l : list WorkClaim.t) : Heap * header :=
  let a := fresh (dom (claimArrays σ)) in
  (set_claimArrays (<[a := l]> (claimArrays σ)) σ, Header a (length l) (length l)).

Definition alloc_hints (σ : Heap) (l : list FileHint.t) : Heap * header :=
  let a := fresh (dom (hintArrays σ)) in
  (set_hintArrays (<[a := l]> (hintArrays σ)) σ, Header a (length l) (length l)).

(** [p.f = v], for the assignments to a field of [*p]: [None] when [p]
    points to no registration. *)
Definition assign (σ : Heap) (p : ptr) (f : Registration → Registration)
  : option Heap :=
  r ← regs σ !! p; Some (set_regs (<[p := f r]> (regs σ)) σ).

Definition with_StartedAt (v : Time) (r : Registration) : Registration :=
  MkReg (Name r) (Model r) (Program r) v (LastSeen r)
        (ClaimedWork r) (FileHints r) (Status r) (Metadata r).
Definition with_LastSeen (v : Time) (r : Registration) : Registration :=
  MkReg (Name r) (Model r) (Program r) (StartedAt r) v
        (ClaimedWork r) (FileHints r) (Status r) (Metadata r).
Definition with_ClaimedWork (v : option header) (r : Registration) : Registration :=
  MkReg (Name r) (Model r) (Program r) (StartedAt r) (LastSeen r)
        v (FileHints r) (Status r) (Metadata r).
Definition with_FileHints (v : option header) (r : Registration) : Registration :=
  MkReg (Name r) (Model r) (Program r) (StartedAt r) (LastSeen r)
        (ClaimedWork r) v (Status r) (Metadata r).
Definition with_Status (v : AgentStatus.t) (r : Registration) : Registration :=
  MkReg (Name r) (Model r) (Program r) (StartedAt r) (LastSeen r)
        (ClaimedWork r) (FileHints r) v (Metadata r).

(** [p.ClaimedWork[i] = c]: [None] when Go panics (a [nil] pointer, an
    index out of range). *)
Definition assign_claim (σ : Heap) (p : ptr) (i : nat) (c : WorkClaim.t)
  : option Heap :=
  r ← regs σ !! p;
  h ← ClaimedWork r;
  cells ← claimArrays σ !! array h;
  if bool_decide (i < len h)%nat
  then Some (set_claimArrays (<[array h := <[i := c]> cells]> (claimArrays σ)) σ)
  else None.

(** [p.FileHints[i] = f] *)
Definition assign_hint (σ : Heap) (p : ptr) (i : nat) (f : FileHint.t)
  : option Heap :=
  r ← regs σ !! p;
  h ← FileHints r;
  cells ← hintArrays σ !! array h;
  if bool_decide (i < len h)%nat
  then Some (set_hintArrays (<[array h := <[i := f]> cells]> (hintArrays σ)) σ)
  else None.

Section Operations.
Context `{RangeOrder}.

(** [func (s *Store) Register(agent *AgentRegistration) error].  The
    outer [None] stands for a pointer that leads nowhere. *)
Definition Register (now : Time) (σ : Heap) (s : Store) (agent : ptr)
  : option (Heap * Store * option error) :=
  r ← regs σ !! agent;
  match AgentRegistration.Validate (to_value σ r) with
  | Some err => Some (σ, s, Some err)
  | None =>
      r' ← match agents s !! Name r with
           | Some existing =>
               e ← regs σ !! existing;
               let r := with_StartedAt (StartedAt e) r in
               let r := match ClaimedWork r with
                        | None => with_ClaimedWork (ClaimedWork e) r
                        | Some _ => r
                        end in
               Some (match FileHints r with
                     | None => with_FileHints (FileHints e) r
                     | Some _ => r
                     end)
           | None => Some r
           end;
      let r' := with_LastSeen now r' in
      Some (set_regs (<[agent := r']> (regs σ)) σ,
            MkStore (beadsDir s) (<[Name r' := agent]> (agents s)),
            None)
  end.

(** [copy := *agent; return &copy] *)
Definition copy_of (σ : Heap) (agent : ptr) : option (Heap * ptr) :=
  alloc_reg σ <$> regs σ !! agent.

(** [func (s *Store) Get(name string) *AgentRegistration]: the heap after
    the call and the pointer returned ([None] for [nil]). *)
Definition Get (σ : Heap) (s : Store) (name : string) : Heap * option ptr :=
  match agents s !! name ≫= copy_of σ with
  | Some (σ', p) => (σ', Some p)
  | None => (σ, None)
  end.

(** The copies a loop appends, one for each pointer that passes [keep]. *)
Fixpoint copy_each (keep : AgentRegistration.t → bool) (σ : Heap) (l : list ptr)
  : Heap * list ptr :=
  match l with
  | [] => (σ, [])
  | agent :: rest =>
      match load σ agent with
      | Some v =>
          if keep v then
            match copy_of σ agent with
            | Some (σ', p) => let r := copy_each keep σ' rest in (r.1, p :: r.2)
            | None => copy_each keep σ rest
            end
          else copy_each keep σ rest
      | None => copy_each keep σ rest
      end
  end.

(** [func (s *Store) List() []*AgentRegistration] *)
Definition List (σ : Heap) (s : Store) : Heap * list ptr :=
  copy_each (λ _, true) σ (range_of (agents s)).*2.

(** [func (s *Store) ActiveAgents(timeout time.Duration) []*AgentRegistration] *)
Definition ActiveAgents (now : Time) (σ : Heap) (s : Store) (timeout : Duration)
  : Heap * list ptr :=
  copy_each (λ v, AgentRegistration.IsActive now v timeout) σ (range_of (agents s)).*2.

(** [func (s *Store) GetClaimHolder(beadID string) *AgentRegistration] *)
Definition GetClaimHolder (now : Time) (σ : Heap) (s : Store) (beadID : string)
  : Heap * option ptr :=
  match find (λ kv : string * ptr,
                from_option (holds_live now beadID) false (load σ kv.2))
             (range_of (agents s)) ≫= (λ kv, copy_of σ kv.2) with
  | Some (σ', p) => (σ', Some p)
  | None => (σ, None)
  end.

(** [func (s *Store) GetAllClaims() []WorkClaim]: the claims are appended
    to a slice that starts [nil], so they land in an array of their own. *)
Definition GetAllClaims (now : Time) (σ : Heap) (s : Store) : Heap * option header :=
  match collect (λ claim, negb (WorkClaim.IsExpired claim now))
          (flat_map (λ kv : string * ptr,
                       from_option (λ v, elems (AgentRegistration.ClaimedWork v)) []
                                   (load σ kv.2))
                    (range_of (agents s))) with
  | None => (σ, None)
  | Some l => let r := alloc_claims σ l in (r.1, Some r.2)
  end.

End Operations.

End Ref.

(** * A platform to run the snapshot functions on

    The theorems about [Load] and [Save] hold for every [Platform].  To
    evaluate the two functions on a concrete registry one platform is
    needed: [Demo.platform] joins paths with a slash and writes a
    registration as one line of binary digits behind an opening brace.  It
    stands in for [encoding/json] only in the sense that it is one injective
    line format. *)

Module Demo.

#[local] Instance WorkClaim_eq_dec : EqDecision WorkClaim.t.
Proof. solve_decision. Defined.

#[local] Instance FileHint_eq_dec : EqDecision FileHint.t.
Proof. solve_decision. Defined.

#[local] Instance AgentMeta_eq_dec : EqDecision AgentMeta.t.
Proof. solve_decision. Defined.

#[local] Instance AgentRegistration_eq_dec : EqDecision AgentRegistration.t.
Proof. solve_decision. Defined.

#[local] Instance WorkClaim_countable : Countable WorkClaim.t.
Proof.
  apply (inj_countable'
    (λ c, (WorkClaim.BeadID c, WorkClaim.Agent c, WorkClaim.ClaimedAt c,
           WorkClaim.ExpiresAt c, WorkClaim.Reason c, WorkClaim.Notes c))
    (λ x, let '(a, b, c, d, e, f) := x in WorkClaim.Make a b c d e f)).
  by intros [].
Defined.

#[local] Instance FileHint_countable : Countable FileHint.t.
Proof.
  apply (inj_countable'
    (λ h, (FileHint.Pattern h, FileHint.Agent h, FileHint.BeadID h,
           FileHint.CreatedAt h, FileHint.ExpiresAt h))
    (λ x, let '(a, b, c, d, e) := x in FileHint.Make a b c d e)).
  by intros [].
Defined.

#[local] Instance AgentMeta_countable : Countable AgentMeta.t.
Proof.
  apply (inj_countable'
    (λ m, (AgentMeta.Version m, AgentMeta.SessionID m, AgentMeta.Tags m))
    (λ x, let '(a, b, c) := x in AgentMeta.Make a b c)).
  by intros [].
Defined.

#[local] Instance AgentRegistration_countable : Countable AgentRegistration.t.
Proof.
  apply (inj_countable'
    (λ a, (AgentRegistration.Name a, AgentRegistration.Model a,
           AgentRegistration.Program a, AgentRegistration.StartedAt a,
           AgentRegistration.LastSeen a, AgentRegistration.ClaimedWork a,
           AgentRegistration.FileHints a, AgentRegistration.Status a,
           AgentRegistration.Metadata a))
    (λ x, let '(a, b, c, d, e, f, g, h, i) := x in
          AgentRegistration.Make a b c d e f g h i)).
  by intros [].
Defined.

Fixpoint digits (p : positive) : list byte :=
  match p with
  | xH => []
  | xO p => x30 :: digits p
  | xI p => x31 :: digits p
  end.

Fixpoint number (l : list byte) : option positive :=
  match l with
  | [] => Some xH
  | x30 :: l => xO <$> number l
  | x31 :: l => xI <$> number l
  | _ => None
  end.

(** The line for a registration. *)
Definition line_of (a : AgentRegistration.t) : list byte :=
  x7b :: digits (encode a).

Definition Marshal (a : AgentRegistration.t) : option (list byte) :=
  Some (line_of a).

Definition Unmarshal (line : list byte) : option AgentRegistration.t :=
  match line with
  | x7b :: l => number l ≫= decode
  | _ => None
  end.

Definition platform : Platform :=
  {| filepath_Join := λ dir file, (dir +:+ "/" +:+ file)%string;
     json_Marshal := Marshal;
     json_Unmarshal := Unmarshal |}.

(** The same format with every line padded with blanks to more than the
    size of the scanner's buffer, as a record with many claims or a long
    note would be; blanks are skipped when a line is read. *)
Definition padding : list byte := replicate (Z.to_nat MaxScanTokenSize) x20.

Definition padded : Platform :=
  {| filepath_Join := λ dir file, (dir +:+ "/" +:+ file)%string;
     json_Marshal := λ a, Some (line_of a ++ padding);
     json_Unmarshal := λ line, Unmarshal (filter (λ b, b ≠ x20) line) |}.

End Demo.

(** * Calls, traces and the predicates of the specification *)

(** A call of one of the mutating operations of the registry. *)
Inductive call : Type :=
  | CallRegister (agent : AgentRegistration.t)
  | CallUnregister (name : string)
  | CallClaim (agentName : string) (claim : WorkClaim.t)
  | CallRelease (agentName beadID : string)
  | CallAddFileHint (agentName : string) (hint : FileHint.t)
  | CallRemoveFileHint (agentName pattern : string)
  | CallHeartbeat (name : string)
  | CallCleanupExpired.

Section Traces.
Context `{RangeOrder}.

(** The store and the error a call returns with the clock at [now]. *)
Definition run (now : Time) (s : Store) (c : call) : Store * option error :=
  match c with
  | CallRegister agent => Register now s agent
  | CallUnregister name => Unregister s name
  | CallClaim agentName claim => Claim now s agentName claim
  | CallRelease agentName beadID => Release now s agentName beadID
  | CallAddFileHint agentName hint => AddFileHint now s agentName hint
  | CallRemoveFileHint agentName pattern => RemoveFileHint now s agentName pattern
  | CallHeartbeat name => Heartbeat now s name
  | CallCleanupExpired => (CleanupExpired now s, None)
  end.

(** A trace is a sequence of calls, each with the clock reading at which
    it runs. *)
Fixpoint exec (s : Store) (trace : list (Time * call)) : Store :=
  match trace with
  | [] => s
  | (now, c) :: rest => exec (run now s c).1 rest
  end.

End Traces.

(** The clock never runs backwards along a trace, and [now] is not before
    its last reading. *)
Fixpoint clock_ok (start : Time) (trace : list (Time * call)) (now : Time) : Prop :=
  match trace with
  | [] => start ≤ now
  | (t, _) :: rest => start ≤ t ∧ clock_ok t rest now
  end.

(** The keys of the registry are the names of the registrations. *)
Definition store_wf (s : Store) : Prop :=
  ∀ k a, agents s !! k = Some a → AgentRegistration.Name a = k.

(** The agent registered as [k] holds the claim [c], expired or not. *)
Definition holds (s : Store) (k : string) (c : WorkClaim.t) : Prop :=
  ∃ a, agents s !! k = Some a ∧ c ∈ elems (AgentRegistration.ClaimedWork a).

(** The registration [a] carries a claim on [beadID] that has not expired
    at [now]. *)
Definition has_live_claim (now : Time) (beadID : string) (a : AgentRegistration.t)
  : Prop :=
  ∃ c, c ∈ elems (AgentRegistration.ClaimedWork a)
       ∧ WorkClaim.BeadID c = beadID ∧ WorkClaim.IsExpired c now = false.

(** The central invariant: two unexpired claims on the same work item are
    the same entry of the same agent's list. *)
Definition exclusive (now : Time) (s : Store) : Prop :=
  ∀ k1 k2 a1 a2 i1 i2 c1 c2,
    agents s !! k1 = Some a1 → agents s !! k2 = Some a2 →
    elems (AgentRegistration.ClaimedWork a1) !! i1 = Some c1 →
    elems (AgentRegistration.ClaimedWork a2) !! i2 = Some c2 →
    WorkClaim.BeadID c1 = WorkClaim.BeadID c2 →
    WorkClaim.IsExpired c1 now = false → WorkClaim.IsExpired c2 now = false →
    k1 = k2 ∧ i1 = i2.

(** A call that registers an agent brings no claims along. *)
Definition brings_no_claims (c : call) : Prop :=
  match c with
  | CallRegister agent => elems (AgentRegistration.ClaimedWork agent) = []
  | _ => True
  end.

(** The calls that can take the claim [c] off the list of the agent
    registered as [k]: a release of its work item, the sweep, the
    unregistration of the agent, a claim of the agent on the same work item
    (which replaces it), and a registration under the agent's name of a
    record whose claim list is not [nil] (which replaces the list). *)
Definition may_remove (k : string) (c : WorkClaim.t) (cl : call) : Prop :=
  match cl with
  | CallRelease agentName beadID => agentName = k ∧ beadID = WorkClaim.BeadID c
  | CallCleanupExpired => True
  | CallUnregister name => name = k
  | CallClaim agentName claim =>
      agentName = k ∧ WorkClaim.BeadID claim = WorkClaim.BeadID c
  | CallRegister agent =>
      AgentRegistration.Name agent = k ∧ AgentRegistration.ClaimedWork agent ≠ None
  | _ => False
  end.

(** [c] is a claim on [beadID] that has not expired at [now]. *)
Definition live (now : Time) (beadID : string) (c : WorkClaim.t) : Prop :=
  WorkClaim.BeadID c = beadID ∧ WorkClaim.IsExpired c now = false.

#[global] Instance live_dec now beadID c : Decision (live now beadID c).
Proof. unfold live. apply _. Defined.

(** The number of unexpired claims on [beadID] in the claim list of [a]. *)
Definition live_count (now : Time) (beadID : string) (a : AgentRegistration.t) : nat :=
  length (filter (live now beadID) (elems (AgentRegistration.ClaimedWork a))).

(** The agent names the first loop of [GetFileConflicts] files under
    [pattern], and the work items it files under it, in the order in which
    it meets the hints [l]. *)
Definition names_on (pattern : string) (l : list (string * FileHint.t)) : list string :=
  fst <$> filter (λ x, FileHint.Pattern x.2 = pattern) l.

Definition beads_on (pattern : string) (l : list (string * FileHint.t)) : list string :=
  (λ x, FileHint.BeadID x.2)
    <$> filter (λ x, FileHint.Pattern x.2 = pattern ∧ FileHint.BeadID x.2 ≠ "") l.

(** The value of a map entry that is appended to and never otherwise
    written: missing, hence [nil], as long as nothing was appended. *)
Definition slice_of {A} (l : list A) : slice A :=
  match l with
  | [] => None
  | _ => Some l
  end.

(** The agent [a] is active under the default threshold and holds the
    hint [h], which has not expired. *)
Definition has_live_hint (now : Time) (a : AgentRegistration.t) (h : FileHint.t) : Prop :=
  AgentRegistration.IsActive now a DefaultInactivityThreshold = true
  ∧ h ∈ elems (AgentRegistration.FileHints a)
  ∧ FileHint.IsExpired h now = false.

(** The agent registered as [k] is active under the default threshold and
    holds, at place [i] of its hint list, a hint on [pattern] that has not
    expired. *)
Definition live_hint_at (now : Time) (s : Store) (pattern k : string) (i : nat) : Prop :=
  ∃ a h, agents s !! k = Some a
         ∧ AgentRegistration.IsActive now a DefaultInactivityThreshold = true
         ∧ elems (AgentRegistration.FileHints a) !! i = Some h
         ∧ FileHint.IsExpired h now = false
         ∧ FileHint.Pattern h = pattern.

(** The hints of one registry entry the first loop of [GetFileConflicts]
    gets to, each with the name of the agent. *)
Definition hints_seen (now : Time) (kv : string * AgentRegistration.t)
  : list (string * FileHint.t) :=
  if negb (AgentRegistration.IsActive now kv.2 DefaultInactivityThreshold) then []
  else (λ hint, (AgentRegistration.Name kv.2, hint)) <$>
         filter (λ hint, FileHint.IsExpired hint now = false)
                (elems (AgentRegistration.FileHints kv.2)).


(** *** Lines of the snapshot file *)

(** [dropCR]: the line without one trailing carriage return. *)
Definition dropCR (line : list byte) : list byte := token_of (reverse line).

(** A file of the given lines, each ended by a newline. *)
Definition unlines (lines : list (list byte)) : list byte :=
  concat ((λ line, line ++ [x0a]) <$> lines).

(** A line the scanner delivers whole: it holds no newline and is shorter
    than the scanner's buffer. *)
Definition scannable (line : list byte) : Prop :=
  (x0a ∉ line) ∧ Z.of_nat (length line) < MaxScanTokenSize.

(** The registration goes through the snapshot file unharmed: it is
    written as one non-empty scannable line that does not end in a carriage
    return and reads back as the same registration. *)
Definition round_trips `{Platform} (a : AgentRegistration.t) : Prop :=
  ∃ line, json_Marshal a = Some line
          ∧ line ≠ [] ∧ scannable line ∧ last line ≠ Some x0d
          ∧ json_Unmarshal line = Some a.

(** Every pointer the store holds leads to a registration. *)
Definition heap_valid (σ : Ref.Heap) (s : Ref.Store) : Prop :=
  ∀ k q, Ref.agents s !! k = Some q → is_Some (Ref.regs σ !! q).

(** * Sample registries

    Concrete agents, claims and stores on which the operations are run in the
    examples that follow.  The clock reads [t0] when the samples are
    created. *)

Module Sample.

Definition t0 : Time := 1000 * time.Hour.

Definition alice : AgentRegistration.t := NewAgentRegistration t0 "alice" "opus" "cli".
Definition bob : AgentRegistration.t := NewAgentRegistration t0 "bob" "sonnet" "cli".

(** A claim by [agent] on [beadID], made at [t0] with the default expiry. *)
Definition claim_of (agent beadID : string) : WorkClaim.t :=
  NewWorkClaim t0 beadID agent ClaimReason.Implementing.

(** A claim made two hours before [t0], expired since an hour and a half. *)
Definition old_claim (agent beadID : string) : WorkClaim.t :=
  NewWorkClaim (t0 - 2 * time.Hour) beadID agent ClaimReason.Implementing.

Definition hint_of (agent pattern beadID : string) : FileHint.t :=
  NewFileHint t0 pattern agent beadID.

Definition old_hint (agent pattern beadID : string) : FileHint.t :=
  NewFileHint (t0 - 2 * time.Hour) pattern agent beadID.

(** [alice] with a list of claims of her own. *)
Definition alice_with (claims : list WorkClaim.t) : AgentRegistration.t :=
  AgentRegistration.set_ClaimedWork (Some claims) alice.

Definition bob_with (claims : list WorkClaim.t) : AgentRegistration.t :=
  AgentRegistration.set_ClaimedWork (Some claims) bob.

(** [alice] as a client that builds the record by hand sends it: no
    claim list and no hint list. *)
Definition alice_bare : AgentRegistration.t :=
  AgentRegistration.Make "alice" "opus" "cli" t0 t0 None None
    AgentStatus.Active AgentMeta.zero.

#[local] Existing Instance canonical_order.

(** Nobody registered. *)
Definition empty : Store := NewStore ".beads".

(** [alice] and [bob] registered, no claims. *)
Definition both : Store :=
  (Register t0 (Register t0 empty alice).1 bob).1.

(** [alice] and [bob] registered, [alice] holds ["bv-42"]. *)
Definition alice_holds : Store :=
  (Claim t0 both "alice" (claim_of "alice" "bv-42")).1.

(** [alice] and [bob] with hints: both on ["main.go"], [bob] twice on
    ["go.mod"]. *)
Definition hinted : Store :=
  exec both
    [(t0, CallAddFileHint "alice" (hint_of "alice" "main.go" "bv-1"));
     (t0, CallAddFileHint "bob" (hint_of "bob" "main.go" "bv-2"));
     (t0, CallAddFileHint "bob" (hint_of "bob" "go.mod" ""));
     (t0 + 5, CallAddFileHint "bob" (hint_of "bob" "go.mod" ""))].

(** The two registrations in [hinted]. *)
Definition hinted_alice : AgentRegistration.t :=
  AgentRegistration.set_FileHints (Some [hint_of "alice" "main.go" "bv-1"]) alice.

Definition hinted_bob : AgentRegistration.t :=
  AgentRegistration.set_LastSeen (t0 + 5)
    (AgentRegistration.set_FileHints
       (Some [hint_of "bob" "main.go" "bv-2"; hint_of "bob" "go.mod" "";
              hint_of "bob" "go.mod" ""]) bob).

(** A heap with one registration, [alice] with her claim on ["bv-42"] in
    an array of her own, and a store that points to it. *)
Definition alice_struct : Ref.Registration :=
  Ref.MkReg "alice" "opus" "cli" t0 t0 (Some (Ref.Header 1 1 1)) None
    AgentStatus.Active AgentMeta.zero.

Definition heap : Ref.Heap :=
  Ref.MkHeap {[ 1%positive := alice_struct ]}
             {[ 1%positive := [claim_of "alice" "bv-42"] ]} ∅.

Definition pointers : Ref.Store := Ref.MkStore ".beads" {[ "alice" := 1%positive ]}.

End Sample.
(** * Properties *)

(** ** Slices and time *)

Section SliceFacts.
Context {A : Type}.
Implicit Types (keep : A → bool) (l : list A) (s : slice A).

Lemma elems_append s x : elems (append s x) = elems s ++ [x].
Proof. reflexivity. Qed.

Lemma elems_collect_from keep l s :
  elems (fold_left (λ out x, if keep x then append out x else out) l s)
  = elems s ++ filter (λ x, keep x = true) l.
Proof.
  revert s; induction l as [|x l IH]; intros s; simpl.
  - by rewrite app_nil_r.
  - rewrite IH, filter_cons. destruct (keep x) eqn:Hx.
    + rewrite decide_True by done. by rewrite elems_append, <- app_assoc.
    + by rewrite decide_False by done.
Qed.

Lemma elems_collect keep l : elems (collect keep l) = filter (λ x, keep x = true) l.
Proof. unfold collect. by rewrite elems_collect_from. Qed.

Lemma elem_of_collect keep l x :
  x ∈ elems (collect keep l) ↔ x ∈ l ∧ keep x = true.
Proof. rewrite elems_collect, list_elem_of_filter. tauto. Qed.

Lemma collect_from_Some keep l l0 :
  is_Some (fold_left (λ out x, if keep x then append out x else out) l (Some l0)).
Proof.
  revert l0; induction l as [|x l IH]; intros l0; simpl; [by eexists|].
  destruct (keep x); apply IH.
Qed.

(** The slice a collecting loop builds is [nil] exactly when nothing was
    appended. *)
Lemma collect_None keep l :
  collect keep l = None ↔ filter (λ x, keep x = true) l = [].
Proof.
  unfold collect. induction l as [|x l IH]; simpl; [done|].
  rewrite filter_cons. destruct (keep x) eqn:Hx.
  - rewrite decide_True by done. split; [|done].
    intros Hn. destruct (collect_from_Some keep l (elems None ++ [x])) as [? Hs].
    change (append None x) with (Some (elems (@None (list A)) ++ [x])) in Hn.
    rewrite Hs in Hn. done.
  - by rewrite decide_False by done.
Qed.

End SliceFacts.

Lemma After_true t u : time.After t u = true ↔ u < t.
Proof. unfold time.After. by rewrite bool_decide_eq_true. Qed.

Lemma claim_unexpired c now :
  WorkClaim.IsExpired c now = false ↔ now ≤ WorkClaim.ExpiresAt c.
Proof.
  unfold WorkClaim.IsExpired, time.After. rewrite bool_decide_eq_false. lia.
Qed.

Lemma hint_unexpired f now :
  FileHint.IsExpired f now = false ↔ now ≤ FileHint.ExpiresAt f.
Proof.
  unfold FileHint.IsExpired, time.After. rewrite bool_decide_eq_false. lia.
Qed.

(** A claim that has not expired had not expired earlier. *)
Lemma claim_unexpired_earlier c now now' :
  now ≤ now' → WorkClaim.IsExpired c now' = false → WorkClaim.IsExpired c now = false.
Proof. rewrite !claim_unexpired. lia. Qed.

(** Saturation of [Sub] does not show in a comparison with a duration
    that is not one of the two extremes. *)
Lemma Since_lt now t d :
  time.minDuration < d ≤ time.maxDuration →
  time.Since now t < d ↔ now - t < d.
Proof.
  unfold time.Since, time.Sub. intros Hd.
  repeat case_bool_decide; lia.
Qed.

Lemma Since_gt now t d :
  time.minDuration ≤ d < time.maxDuration →
  d < time.Since now t ↔ d < now - t.
Proof.
  unfold time.Since, time.Sub. intros Hd.
  repeat case_bool_decide; lia.
Qed.

Lemma IsActive_default now a :
  AgentRegistration.IsActive now a DefaultInactivityThreshold = true
  ↔ now - AgentRegistration.LastSeen a < 30 * time.Minute.
Proof.
  unfold AgentRegistration.IsActive. rewrite bool_decide_eq_true.
  apply Since_lt. by vm_compute.
Qed.

Lemma IsStale_default now a :
  AgentRegistration.IsStale now a DefaultStaleThreshold = true
  ↔ time.Hour < now - AgentRegistration.LastSeen a.
Proof.
  unfold AgentRegistration.IsStale. rewrite bool_decide_eq_true.
  replace DefaultStaleThreshold with time.Hour by reflexivity.
  apply Since_gt. by vm_compute.
Qed.

(** ** The inner loops *)

Lemma live_on_true now beadID c :
  live_on now beadID c = true
  ↔ WorkClaim.BeadID c = beadID ∧ WorkClaim.IsExpired c now = false.
Proof.
  unfold live_on. rewrite andb_true_iff, bool_decide_eq_true, negb_true_iff. tauto.
Qed.

Lemma holds_live_true now beadID a :
  holds_live now beadID a = true ↔ has_live_claim now beadID a.
Proof.
  unfold holds_live, has_live_claim. rewrite existsb_exists. split.
  - intros (c & Hin & Hc). apply live_on_true in Hc. exists c.
    rewrite list_elem_of_In. tauto.
  - intros (c & Hin & Hc). exists c. rewrite <- list_elem_of_In, live_on_true. tauto.
Qed.

Lemma holds_live_false now beadID a :
  holds_live now beadID a = false ↔ ¬ has_live_claim now beadID a.
Proof. rewrite <- holds_live_true. by destruct (holds_live now beadID a). Qed.

Section RangeFacts.
Context `{RangeOrder}.

Lemma elem_of_range {A} (m : gmap string A) k x :
  (k, x) ∈ range_of m ↔ m !! k = Some x.
Proof. rewrite (range_of_perm A m). apply elem_of_map_to_list. Qed.

Lemma NoDup_range_keys {A} (m : gmap string A) : NoDup (range_of m).*1.
Proof. rewrite (range_of_perm A m). apply NoDup_fst_map_to_list. Qed.

(** A search through the registry finds an entry when there is one to find. *)
Lemma find_range_Some {A} (P : string * A → bool) (m : gmap string A) kv :
  find P (range_of m) = Some kv → m !! kv.1 = Some kv.2 ∧ P kv = true.
Proof.
  intros Hf. apply find_some in Hf as [Hin HP]. split; [|done].
  apply elem_of_range. rewrite list_elem_of_In. by destruct kv.
Qed.

Lemma find_range_None {A} (P : string * A → bool) (m : gmap string A) :
  find P (range_of m) = None ↔ ∀ k x, m !! k = Some x → P (k, x) = false.
Proof.
  split.
  - intros Hf k x Hk. apply (find_none _ _ Hf).
    apply list_elem_of_In, elem_of_range, Hk.
  - intros Hall. destruct (find P (range_of m)) as [[k x]|] eqn:Hf; [|done].
    apply find_range_Some in Hf as [Hk HP]. simpl in Hk.
    specialize (Hall _ _ Hk). congruence.
Qed.

End RangeFacts.

(** ** [Claim] *)

Section ClaimFacts.
Context `{RangeOrder}.
Import AgentRegistration.

Lemma find_conflict_Some now s agentName beadID other :
  find_conflict now s agentName beadID = Some other →
  ∃ k, agents s !! k = Some other ∧ Name other ≠ agentName
       ∧ has_live_claim now beadID other.
Proof.
  unfold find_conflict. intros Hf.
  destruct (find _ _) as [[k a]|] eqn:Hfind; simplify_eq/=.
  apply find_range_Some in Hfind as [Hk HP]. simpl in *.
  apply andb_true_iff in HP as [Hne Hlive].
  apply negb_true_iff, bool_decide_eq_false in Hne.
  apply holds_live_true in Hlive. eauto.
Qed.

Lemma find_conflict_None now s agentName beadID :
  find_conflict now s agentName beadID = None ↔
  ∀ k other, agents s !! k = Some other → Name other ≠ agentName →
             ¬ has_live_claim now beadID other.
Proof.
  unfold find_conflict. rewrite fmap_None, find_range_None. simpl.
  split; intros Hall k other Hk.
  - intros Hne Hlive. specialize (Hall k other Hk).
    apply andb_false_iff in Hall as [Hn|Hn].
    + apply negb_false_iff, bool_decide_eq_true in Hn. done.
    + apply holds_live_false in Hn. done.
  - destruct (decide (Name other = agentName)) as [->|Hne].
    + by rewrite bool_decide_eq_true_2.
    + rewrite bool_decide_eq_false_2 by done. simpl.
      apply holds_live_false. eauto.
Qed.

(** The claim list [Claim] leaves the agent with. *)
Lemma renewed_claims (claim : WorkClaim.t) (l : list WorkClaim.t) :
  append (collect (λ c, negb (bool_decide (WorkClaim.BeadID c = WorkClaim.BeadID claim))) l)
         claim
  = Some (filter (λ c, WorkClaim.BeadID c ≠ WorkClaim.BeadID claim) l ++ [claim]).
Proof.
  unfold append. rewrite elems_collect. do 2 f_equal.
  apply list_filter_iff. intros c.
  by rewrite negb_true_iff, bool_decide_eq_false.
Qed.

End ClaimFacts.

(** C2.  [Claim(agentName, claim)] with a valid claim: it fails with the
    not-found error when [agentName] is not registered; when it is and an
    agent with another name holds an unexpired claim on the work item, it
    fails with the conflict error that names such a holder; and when no
    agent with another name does, it succeeds, and the agent is left with
    its earlier claims on other work items followed by the new claim, its
    last-seen time equal to [now], its other fields and all other agents as
    before. *)
Theorem Claim_outcomes `{RangeOrder} (now : Time) (s : Store) (agentName : string)
    (claim : WorkClaim.t) :
  WorkClaim.Validate claim = None →
  (agents s !! agentName = None →
     Claim now s agentName claim = (s, Some (ErrAgentNotFound agentName)))
  ∧ (∀ agent, agents s !! agentName = Some agent →
       ((∃ k other, agents s !! k = Some other
                    ∧ AgentRegistration.Name other ≠ agentName
                    ∧ has_live_claim now (WorkClaim.BeadID claim) other) →
        ∃ k holder, agents s !! k = Some holder
                    ∧ AgentRegistration.Name holder ≠ agentName
                    ∧ has_live_claim now (WorkClaim.BeadID claim) holder
                    ∧ Claim now s agentName claim
                      = (s, Some (ErrAlreadyClaimed (WorkClaim.BeadID claim)
                                                    (AgentRegistration.Name holder))))
       ∧ ((∀ k other, agents s !! k = Some other →
                      AgentRegistration.Name other ≠ agentName →
                      ¬ has_live_claim now (WorkClaim.BeadID claim) other) →
          Claim now s agentName claim
          = (store_agent agentName
               (AgentRegistration.Make
                  (AgentRegistration.Name agent) (AgentRegistration.Model agent)
                  (AgentRegistration.Program agent) (AgentRegistration.StartedAt agent)
                  now
                  (Some (filter (λ c, WorkClaim.BeadID c ≠ WorkClaim.BeadID claim)
                                (elems (AgentRegistration.ClaimedWork agent))
                         ++ [claim]))
                  (AgentRegistration.FileHints agent)
                  (AgentRegistration.Status agent) (AgentRegistration.Metadata agent))
               s,
             None))).
Proof.
  intros Hvalid. unfold Claim. rewrite Hvalid. split.
  - by intros ->.
  - intros agent ->. split.
    + intros (k & other & Hk & Hne & Hlive).
      destruct (find_conflict now s agentName (WorkClaim.BeadID claim))
        as [holder|] eqn:Hf.
      * apply find_conflict_Some in Hf as (k' & Hk' & Hne' & Hlive'). eauto 10.
      * exfalso. eapply find_conflict_None in Hf; eauto.
    + intros Hnone. apply find_conflict_None in Hnone. rewrite Hnone.
      by rewrite renewed_claims.
Qed.


(** Closes a goal about concrete data by evaluation. *)
Ltac by_evaluation := refine (bool_decide_unpack _ _); vm_compute; exact I.
Ltac by_vm := vm_compute; reflexivity.

Section Claim_witness.
#[local] Existing Instance canonical_order.

Lemma Claim_outcomes_witness :
  let renewal := Sample.claim_of "alice" "bv-42" in
  Claim Sample.t0 Sample.empty "alice" renewal
    = (Sample.empty, Some (ErrAgentNotFound "alice"))
  ∧ (∃ k holder, agents Sample.alice_holds !! k = Some holder
       ∧ AgentRegistration.Name holder ≠ "bob"
       ∧ has_live_claim Sample.t0 "bv-42" holder
       ∧ Claim Sample.t0 Sample.alice_holds "bob" (Sample.claim_of "bob" "bv-42")
         = (Sample.alice_holds,
            Some (ErrAlreadyClaimed "bv-42" (AgentRegistration.Name holder))))
  ∧ (Claim (Sample.t0 + 7) Sample.alice_holds "alice" renewal).2 = None
  ∧ AgentRegistration.LastSeen
      <$> agents (Claim (Sample.t0 + 7) Sample.alice_holds "alice" renewal).1 !! "alice"
    = Some (Sample.t0 + 7)
  ∧ (elems ∘ AgentRegistration.ClaimedWork)
      <$> agents (Claim (Sample.t0 + 7) Sample.alice_holds "alice" renewal).1 !! "alice"
    = Some [renewal]
  ∧ agents (Claim (Sample.t0 + 7) Sample.alice_holds "alice" renewal).1 !! "bob"
    = Some Sample.bob.
Proof.
  intros renewal. split; [|split].
  - apply (Claim_outcomes Sample.t0 Sample.empty "alice" renewal); by_vm.
  - assert (WorkClaim.Validate (Sample.claim_of "bob" "bv-42") = None) as Hv by by_vm.
    destruct (Claim_outcomes Sample.t0 Sample.alice_holds "bob" _ Hv) as [_ Hreg].
    assert (agents Sample.alice_holds !! "bob" = Some Sample.bob) as Hbob by by_vm.
    destruct (Hreg _ Hbob) as [Hconflict _].
    apply Hconflict.
    exists "alice", (Sample.alice_with [renewal]).
    split; [by_vm|]. split; [discriminate|].
    exists renewal. split; [apply list_elem_of_here|]. split; by_vm.
  - assert (WorkClaim.Validate renewal = None) as Hv by by_vm.
    destruct (Claim_outcomes (Sample.t0 + 7) Sample.alice_holds "alice" renewal Hv)
      as [_ Hreg].
    assert (agents Sample.alice_holds !! "alice" = Some (Sample.alice_with [renewal]))
      as Halice by by_vm.
    destruct (Hreg _ Halice) as [_ Hfree].
    rewrite Hfree.
    + unfold store_agent. cbn [fst snd agents set_agents].
      rewrite lookup_insert_eq, lookup_insert_ne by discriminate.
      split_and!; [reflexivity|reflexivity|by_vm|by_vm].
    + intros k other Hk Hne.
      assert (map_Forall (λ _ a, AgentRegistration.Name a = "alice"
                                 ∨ holds_live (Sample.t0 + 7) "bv-42" a = false)
                         (agents Sample.alice_holds)) as Hall by by_evaluation.
      destruct (Hall k other Hk) as [Heq|Hno]; [exact (False_ind _ (Hne Heq))|].
      apply holds_live_false, Hno.
Defined.

End Claim_witness.

(** ** Calls that fail *)

(** C10.  A call of a mutating operation that returns an error returns the
    store it was given: a failing [Claim] (invalid claim, unknown agent,
    conflict), [Release] (unknown agent, no such claim), [Heartbeat],
    [AddFileHint] or [RemoveFileHint] (unknown agent), and also a failing
    [Register] or [Unregister], changes no agent's claims, hints, status or
    last-seen time. *)
Theorem failed_call_changes_nothing `{RangeOrder} (now : Time) (s : Store)
    (c : call) (e : error) :
  (run now s c).2 = Some e → (run now s c).1 = s.
Proof.
  destruct c as [agent|name|name claim|name bead|name hint|name pat|name|]; simpl.
  - unfold Register. by destruct (AgentRegistration.Validate agent).
  - unfold Unregister. by destruct (agents s !! name).
  - unfold Claim. destruct (WorkClaim.Validate claim); [done|].
    destruct (agents s !! name); [|done].
    by destruct (find_conflict now s name (WorkClaim.BeadID claim)).
  - unfold Release. destruct (agents s !! name); [|done].
    by destruct (existsb _ _).
  - unfold AddFileHint. by destruct (agents s !! name).
  - unfold RemoveFileHint. by destruct (agents s !! name).
  - unfold Heartbeat. by destruct (agents s !! name).
  - done.
Qed.

Section Failed_call_witness.
#[local] Existing Instance canonical_order.

Lemma failed_call_changes_nothing_witness :
  let s := Sample.alice_holds in
  (run Sample.t0 s (CallClaim "bob" (Sample.claim_of "bob" "bv-42"))).1 = s
  ∧ (run Sample.t0 s (CallClaim "carol" (Sample.claim_of "carol" "bv-7"))).1 = s
  ∧ (run Sample.t0 s (CallClaim "bob" (Sample.claim_of "bob" ""))).1 = s
  ∧ (run Sample.t0 s (CallRelease "bob" "bv-42")).1 = s
  ∧ (run Sample.t0 s (CallRelease "carol" "bv-42")).1 = s
  ∧ (run Sample.t0 s (CallHeartbeat "carol")).1 = s
  ∧ (run Sample.t0 s (CallAddFileHint "carol" (Sample.hint_of "carol" "main.go" ""))).1 = s
  ∧ (run Sample.t0 s (CallRemoveFileHint "carol" "main.go")).1 = s.
Proof.
  intros s. split_and!.
  - apply (failed_call_changes_nothing _ _ _ (ErrAlreadyClaimed "bv-42" "alice")); by_vm.
  - apply (failed_call_changes_nothing _ _ _ (ErrAgentNotFound "carol")); by_vm.
  - apply (failed_call_changes_nothing _ _ _ (ErrInvalid "bead ID cannot be empty")); by_vm.
  - apply (failed_call_changes_nothing _ _ _ (ErrClaimNotFound "bv-42")); by_vm.
  - apply (failed_call_changes_nothing _ _ _ (ErrAgentNotFound "carol")); by_vm.
  - apply (failed_call_changes_nothing _ _ _ (ErrAgentNotFound "carol")); by_vm.
  - apply (failed_call_changes_nothing _ _ _ (ErrAgentNotFound "carol")); by_vm.
  - apply (failed_call_changes_nothing _ _ _ (ErrAgentNotFound "carol")); by_vm.
Defined.

End Failed_call_witness.

(** ** [Register] *)

(** Registering a valid record under a name that is taken stores, under
    that name, the incoming record with the start time of the existing one
    and the last-seen time [now]; its claim list is the existing one when
    the incoming list is [nil] and the incoming one otherwise, and likewise
    for the hints. *)
Theorem Register_existing `{RangeOrder} (now : Time) (s : Store)
    (agent existing : AgentRegistration.t) :
  AgentRegistration.Validate agent = None →
  agents s !! AgentRegistration.Name agent = Some existing →
  Register now s agent
  = (store_agent (AgentRegistration.Name agent)
       (AgentRegistration.Make
          (AgentRegistration.Name agent) (AgentRegistration.Model agent)
          (AgentRegistration.Program agent)
          (AgentRegistration.StartedAt existing)
          now
          (match AgentRegistration.ClaimedWork agent with
           | None => AgentRegistration.ClaimedWork existing
           | Some claims => Some claims
           end)
          (match AgentRegistration.FileHints agent with
           | None => AgentRegistration.FileHints existing
           | Some hints => Some hints
           end)
          (AgentRegistration.Status agent) (AgentRegistration.Metadata agent))
       s,
     None).
Proof.
  intros Hvalid Hex. unfold Register. rewrite Hvalid, Hex.
  destruct agent as [n m p st ls [cw|] [fh|] status meta]; reflexivity.
Qed.

Section Register_witness.
#[local] Existing Instance canonical_order.

(** A record that comes without claim and hint lists takes over those of
    the registered agent. *)
Lemma Register_existing_witness :
  let bare := AgentRegistration.Make "alice" "opus" "cli" 0 0 None None
                AgentStatus.Idle AgentMeta.zero in
  (Register (Sample.t0 + 5) Sample.alice_holds bare).2 = None
  ∧ AgentRegistration.ClaimedWork
      <$> agents (Register (Sample.t0 + 5) Sample.alice_holds bare).1 !! "alice"
    = Some (Some [Sample.claim_of "alice" "bv-42"]).
Proof.
  intros bare.
  assert (AgentRegistration.Validate bare = None) as Hv by by_vm.
  assert (agents Sample.alice_holds !! AgentRegistration.Name bare
          = Some (Sample.alice_with [Sample.claim_of "alice" "bv-42"])) as Hex by by_vm.
  rewrite (Register_existing (Sample.t0 + 5) Sample.alice_holds bare _ Hv Hex).
  split; [reflexivity|]. simpl. unfold store_agent. simpl.
  rewrite lookup_insert_eq. reflexivity.
Defined.

(** C3.  Where the claim says that the claims of the registered agent
    are carried forward when the incoming record carries none, the code
    carries them forward only when the incoming list is [nil]: the record
    [NewAgentRegistration] makes is valid and carries no claims, its list
    being empty but not [nil], and registering it under the name of an
    agent that holds a claim leaves that agent with no claim. *)
Lemma Register_drops_claims :
  let s := Sample.alice_holds in
  let s' := (Register (Sample.t0 + 5) s Sample.alice).1 in
  elems (AgentRegistration.ClaimedWork Sample.alice) = []
  ∧ AgentRegistration.Validate Sample.alice = None
  ∧ (elems ∘ AgentRegistration.ClaimedWork) <$> agents s !! "alice"
    = Some [Sample.claim_of "alice" "bv-42"]
  ∧ (elems ∘ AgentRegistration.ClaimedWork) <$> agents s' !! "alice" = Some [].
Proof. split_and!; by_vm. Qed.

End Register_witness.

(** ** [CleanupExpired] *)

(** C7, as the code has it.  The sweep maps every registration through
    [cleanup_agent], so it deletes no agent; and [cleanup_agent] keeps
    exactly the claims and the hints that have not expired, sets the status
    to gone when more than an hour has passed since the agent was last seen,
    otherwise to inactive when thirty minutes or more have passed, otherwise
    leaves it, and changes nothing else. *)
Theorem CleanupExpired_effect `{RangeOrder} (now : Time) (s : Store) :
  beadsDir (CleanupExpired now s) = beadsDir s
  ∧ dom (agents (CleanupExpired now s)) = dom (agents s)
  ∧ (∀ k, agents (CleanupExpired now s) !! k = cleanup_agent now <$> agents s !! k)
  ∧ (∀ a,
       elems (AgentRegistration.ClaimedWork (cleanup_agent now a))
       = filter (λ c, now ≤ WorkClaim.ExpiresAt c)
                (elems (AgentRegistration.ClaimedWork a))
       ∧ elems (AgentRegistration.FileHints (cleanup_agent now a))
         = filter (λ h, now ≤ FileHint.ExpiresAt h)
                  (elems (AgentRegistration.FileHints a))
       ∧ AgentRegistration.Status (cleanup_agent now a)
         = (if decide (time.Hour < now - AgentRegistration.LastSeen a)
            then AgentStatus.Gone
            else if decide (30 * time.Minute ≤ now - AgentRegistration.LastSeen a)
            then AgentStatus.Inactive
            else AgentRegistration.Status a)
       ∧ AgentRegistration.Name (cleanup_agent now a) = AgentRegistration.Name a
       ∧ AgentRegistration.Model (cleanup_agent now a) = AgentRegistration.Model a
       ∧ AgentRegistration.Program (cleanup_agent now a) = AgentRegistration.Program a
       ∧ AgentRegistration.StartedAt (cleanup_agent now a)
         = AgentRegistration.StartedAt a
       ∧ AgentRegistration.LastSeen (cleanup_agent now a) = AgentRegistration.LastSeen a
       ∧ AgentRegistration.Metadata (cleanup_agent now a)
         = AgentRegistration.Metadata a).
Proof.
  split; [done|]. split; [apply dom_fmap_L|]. split; [intros k; apply lookup_fmap|].
  intros a. unfold cleanup_agent.
  set (a1 := AgentRegistration.set_FileHints _ _).
  assert (AgentRegistration.LastSeen a1 = AgentRegistration.LastSeen a) as Hls by done.
  assert (elems (AgentRegistration.ClaimedWork a1)
          = filter (λ c, now ≤ WorkClaim.ExpiresAt c)
                   (elems (AgentRegistration.ClaimedWork a))) as Hcw.
  { simpl. rewrite elems_collect. apply list_filter_iff. intros c.
    by rewrite negb_true_iff, claim_unexpired. }
  assert (elems (AgentRegistration.FileHints a1)
          = filter (λ h, now ≤ FileHint.ExpiresAt h)
                   (elems (AgentRegistration.FileHints a))) as Hfh.
  { simpl. rewrite elems_collect. apply list_filter_iff. intros h.
    by rewrite negb_true_iff, hint_unexpired. }
  destruct (AgentRegistration.IsStale now a1 DefaultStaleThreshold) eqn:Hstale.
  - apply IsStale_default in Hstale. rewrite Hls in Hstale.
    rewrite decide_True by done. done.
  - assert (¬ time.Hour < now - AgentRegistration.LastSeen a) as Hn.
    { rewrite <- Hls, <- IsStale_default, Hstale. done. }
    rewrite (decide_False _ _ Hn).
    destruct (AgentRegistration.IsActive now a1 DefaultInactivityThreshold) eqn:Hact; simpl.
    + apply IsActive_default in Hact. rewrite Hls in Hact.
      rewrite decide_False by lia. done.
    + assert (¬ now - AgentRegistration.LastSeen a < 30 * time.Minute) as Hi.
      { rewrite <- Hls, <- IsActive_default, Hact. done. }
      rewrite decide_True by lia. done.
Qed.

Section Cleanup_witness.
#[local] Existing Instance canonical_order.

(** C7 as stated fails at the threshold: an agent last seen exactly thirty
    minutes ago has not been silent for more than the inactivity threshold,
    and the sweep sets it inactive all the same. *)
Lemma CleanupExpired_at_threshold :
  let a := AgentRegistration.set_LastSeen
             (Sample.t0 - DefaultInactivityThreshold) Sample.alice in
  let s := store_agent "alice" a Sample.empty in
  ¬ (DefaultInactivityThreshold < time.Since Sample.t0 (AgentRegistration.LastSeen a))
  ∧ AgentRegistration.Status a = AgentStatus.Active
  ∧ AgentRegistration.Status <$> agents (CleanupExpired Sample.t0 s) !! "alice"
    = Some AgentStatus.Inactive.
Proof. split; [|split]; [by vm_compute|by_vm|by_vm]. Qed.

End Cleanup_witness.

(** ** The exclusion invariant *)

Section ListFacts.
Context {A : Type} (P : A → Prop) `{!∀ x, Decision (P x)}.

Lemma filter_nil_iff (l : list A) : filter P l = [] ↔ ∀ x, x ∈ l → ¬ P x.
Proof.
  induction l as [|a l IH]; [by split; [inversion 2|]|].
  rewrite filter_cons. destruct (decide (P a)) as [Ha|Ha].
  - split; [done|]. intros Hall. destruct (Hall a); [left|done].
  - rewrite IH. split; intros Hall x.
    + intros [->|Hx]%elem_of_cons; auto.
    + intros Hx. apply Hall. by right.
Qed.

Lemma filter_inhabited_iff (l : list A) :
  (0 < length (filter P l))%nat ↔ ∃ x, x ∈ l ∧ P x.
Proof.
  split.
  - destruct (filter P l) as [|x l'] eqn:Hf; simpl; [lia|]. intros _.
    assert (x ∈ filter P l) as [HP Hx]%list_elem_of_filter by (rewrite Hf; left).
    by exists x.
  - intros (x & Hx & HP). assert (x ∈ filter P l) as Hin.
    { by apply list_elem_of_filter. }
    destruct (filter P l); [by apply elem_of_nil in Hin|]. simpl. lia.
Qed.

(** At most one element of the list satisfies [P] exactly when any two
    positions that hold such an element are the same position. *)
Lemma filter_at_most_one (l : list A) :
  (length (filter P l) ≤ 1)%nat ↔
  ∀ i j x y, l !! i = Some x → l !! j = Some y → P x → P y → i = j.
Proof.
  induction l as [|a l IH].
  - split; [|simpl; lia]. by intros _ i j x y Hi.
  - rewrite filter_cons. destruct (decide (P a)) as [Ha|Ha].
    + simpl. split.
      * intros Hlen. assert (filter P l = []) as Hnil.
        { destruct (filter P l); [done|simpl in Hlen; lia]. }
        rewrite filter_nil_iff in Hnil.
        intros [|i] [|j] x y Hi Hj Hx Hy; simpl in *; [done| | |].
        -- destruct (Hnil y); [by eapply list_elem_of_lookup_2|done].
        -- destruct (Hnil x); [by eapply list_elem_of_lookup_2|done].
        -- destruct (Hnil y); [by eapply list_elem_of_lookup_2|done].
      * intros Hall. assert (filter P l = []) as ->; [|simpl; lia].
        apply filter_nil_iff. intros y [j Hj]%list_elem_of_lookup_1 Hy.
        specialize (Hall 0%nat (S j) a y eq_refl Hj Ha Hy). lia.
    + rewrite IH. split.
      * intros Hall [|i] [|j] x y Hi Hj Hx Hy; simpl in *; simplify_eq; try done.
        f_equal. eauto.
      * intros Hall i j x y Hi Hj Hx Hy.
        specialize (Hall (S i) (S j) x y Hi Hj Hx Hy). lia.
Qed.

Lemma length_filter_filter (Q : A → Prop) `{!∀ x, Decision (Q x)} (l : list A) :
  (length (filter P (filter Q l)) ≤ length (filter P l))%nat.
Proof.
  induction l as [|a l IH]; [done|]. rewrite !filter_cons.
  destruct (decide (Q a)), (decide (P a)); rewrite ?filter_cons;
    repeat case_decide; simpl; try done; lia.
Qed.

End ListFacts.

Section Exclusion.
Context `{RangeOrder}.
Import AgentRegistration.

Lemma live_count_pos now bead a :
  (0 < live_count now bead a)%nat ↔ has_live_claim now bead a.
Proof.
  unfold live_count, has_live_claim. rewrite filter_inhabited_iff.
  unfold live. naive_solver.
Qed.

(** The invariant, agent by agent: no agent holds two unexpired claims on
    a work item, and no two agents hold one each. *)
Lemma exclusive_alt now s :
  exclusive now s ↔
  (∀ bead k a, agents s !! k = Some a → (live_count now bead a ≤ 1)%nat)
  ∧ (∀ bead k1 k2 a1 a2,
       agents s !! k1 = Some a1 → agents s !! k2 = Some a2 →
       (0 < live_count now bead a1)%nat → (0 < live_count now bead a2)%nat →
       k1 = k2).
Proof.
  split.
  - intros Hex. split.
    + intros bead k a Hk. apply filter_at_most_one.
      intros i j x y Hi Hj [Hx1 Hx2] [Hy1 Hy2].
      by destruct (Hex k k a a i j x y Hk Hk Hi Hj) as [_ ?]; [congruence|..].
    + intros bead k1 k2 a1 a2 Hk1 Hk2.
      rewrite !live_count_pos.
      intros (c1 & [i1 Hi1]%list_elem_of_lookup_1 & Hb1 & He1)
             (c2 & [i2 Hi2]%list_elem_of_lookup_1 & Hb2 & He2).
      by destruct (Hex k1 k2 a1 a2 i1 i2 c1 c2 Hk1 Hk2 Hi1 Hi2) as [? _];
        [congruence|..].
  - intros [Hone Htwo] k1 k2 a1 a2 i1 i2 c1 c2 Hk1 Hk2 Hi1 Hi2 Hb He1 He2.
    assert (k1 = k2) as <-.
    { apply (Htwo (WorkClaim.BeadID c1) k1 k2 a1 a2 Hk1 Hk2);
        apply live_count_pos.
      - exists c1. split; [by eapply list_elem_of_lookup_2|done].
      - exists c2. split; [by eapply list_elem_of_lookup_2|done]. }
    split; [done|]. simplify_eq.
    specialize (Hone (WorkClaim.BeadID c1) k1 a1 Hk1).
    unfold live_count in Hone. rewrite filter_at_most_one in Hone.
    by apply (Hone i1 i2 c1 c2).
Qed.

(** An unexpired claim was unexpired before, so the invariant survives the
    passing of time. *)
Lemma exclusive_later now now' s :
  now ≤ now' → exclusive now s → exclusive now' s.
Proof.
  intros Hle Hex k1 k2 a1 a2 i1 i2 c1 c2 Hk1 Hk2 Hi1 Hi2 Hb He1 He2.
  eapply Hex; eauto using claim_unexpired_earlier.
Qed.

(** The invariant survives any change that gives no agent more unexpired
    claims on any work item than the agent of that name had. *)
Lemma exclusive_shrink now s s' :
  (∀ k a', agents s' !! k = Some a' →
     (∀ bead, live_count now bead a' = 0%nat)
     ∨ ∃ a, agents s !! k = Some a
            ∧ ∀ bead, (live_count now bead a' ≤ live_count now bead a)%nat) →
  exclusive now s → exclusive now s'.
Proof.
  rewrite !exclusive_alt. intros Hle [Hone Htwo]. split.
  - intros bead k a' Hk. destruct (Hle k a' Hk) as [H0|(a & Ha & Hc)].
    + rewrite H0. lia.
    + specialize (Hone bead k a Ha). specialize (Hc bead). lia.
  - intros bead k1 k2 a1 a2 Hk1 Hk2 H1 H2.
    destruct (Hle k1 a1 Hk1) as [H0|(b1 & Hb1 & Hc1)]; [rewrite H0 in H1; lia|].
    destruct (Hle k2 a2 Hk2) as [H0|(b2 & Hb2 & Hc2)]; [rewrite H0 in H2; lia|].
    apply (Htwo bead k1 k2 b1 b2 Hb1 Hb2).
    + specialize (Hc1 bead). lia.
    + specialize (Hc2 bead). lia.
Qed.

Lemma exclusive_store_agent now s name a a' :
  agents s !! name = Some a →
  (∀ bead, (live_count now bead a' ≤ live_count now bead a)%nat) →
  exclusive now s → exclusive now (store_agent name a' s).
Proof.
  intros Ha Hle. apply exclusive_shrink. intros k b. simpl.
  rewrite lookup_insert. case_decide as Hk.
  - intros [= <-]. subst k. right. eauto.
  - intros Hb. right. exists b. split; [done|]. intros; lia.
Qed.

Lemma live_count_collect now bead keep (a : AgentRegistration.t) :
  (length (filter (live now bead) (elems (collect keep (elems (ClaimedWork a)))))
   ≤ live_count now bead a)%nat.
Proof. rewrite elems_collect. apply length_filter_filter. Qed.

Lemma store_wf_store_agent s name a :
  Name a = name → store_wf s → store_wf (store_agent name a s).
Proof.
  intros Hn Hwf k b. simpl. rewrite lookup_insert. case_decide.
  - intros [= <-]. congruence.
  - apply Hwf.
Qed.

Lemma run_store_wf now s c : store_wf s → store_wf (run now s c).1.
Proof.
  intros Hwf.
  destruct c as [agent|name|name claim|name bead|name hint|name pat|name|]; simpl.
  - unfold Register. destruct (Validate agent); [done|]. simpl.
    apply store_wf_store_agent; [done|done].
  - unfold Unregister. destruct (agents s !! name); [|done]. simpl.
    intros k b. simpl. intros [_ Hk]%lookup_delete_Some. by apply Hwf.
  - unfold Claim. destruct (WorkClaim.Validate claim); [done|].
    destruct (agents s !! name) as [a|] eqn:Ha; [|done].
    destruct (find_conflict _ _ _ _); [done|]. simpl.
    apply store_wf_store_agent; [|done]. simpl. by apply Hwf.
  - unfold Release. destruct (agents s !! name) as [a|] eqn:Ha; [|done].
    destruct (existsb _ _); [|done]. simpl.
    apply store_wf_store_agent; [|done]. simpl. by apply Hwf.
  - unfold AddFileHint. destruct (agents s !! name) as [a|] eqn:Ha; [|done].
    simpl. apply store_wf_store_agent; [|done]. simpl. by apply Hwf.
  - unfold RemoveFileHint. destruct (agents s !! name) as [a|] eqn:Ha; [|done].
    simpl. apply store_wf_store_agent; [|done]. simpl. by apply Hwf.
  - unfold Heartbeat. destruct (agents s !! name) as [a|] eqn:Ha; [|done].
    simpl. apply store_wf_store_agent; [|done]. simpl. by apply Hwf.
  - intros k b. simpl. rewrite lookup_fmap.
    destruct (agents s !! k) as [a|] eqn:Ha; [|done]. intros [= <-].
    rewrite <- (Hwf k a Ha). unfold cleanup_agent.
    by repeat (case_match; simpl).
Qed.

End Exclusion.

Section ExclusionSteps.
Context `{RangeOrder}.
Import AgentRegistration.

(** The claim list [Claim] builds: on the claimed work item it holds the
    new claim only; on any other, what the agent had. *)
Lemma renewed_count now bead (claim : WorkClaim.t) (l : list WorkClaim.t) :
  let l' := filter (λ c, WorkClaim.BeadID c ≠ WorkClaim.BeadID claim) l ++ [claim] in
  (bead ≠ WorkClaim.BeadID claim →
     (length (filter (live now bead) l') ≤ length (filter (live now bead) l))%nat)
  ∧ (length (filter (live now (WorkClaim.BeadID claim)) l') ≤ 1)%nat.
Proof.
  intros l'. unfold l'. rewrite !filter_app, !length_app. split.
  - intros Hne. rewrite filter_cons, filter_nil.
    rewrite decide_False by (intros [Hb _]; congruence). simpl.
    pose proof (length_filter_filter (live now bead)
                  (λ c, WorkClaim.BeadID c ≠ WorkClaim.BeadID claim) l). lia.
  - assert (filter (live now (WorkClaim.BeadID claim))
              (filter (λ c, WorkClaim.BeadID c ≠ WorkClaim.BeadID claim) l) = []) as ->.
    { apply filter_nil_iff. intros c [Hc _]%list_elem_of_filter [Hb _]. done. }
    rewrite filter_cons, filter_nil. case_decide; simpl; lia.
Qed.

Lemma Claim_exclusive now s name claim :
  store_wf s → exclusive now s → exclusive now (Claim now s name claim).1.
Proof.
  intros Hwf Hex. unfold Claim. destruct (WorkClaim.Validate claim); [done|].
  destruct (agents s !! name) as [a|] eqn:Ha; [|done].
  destruct (find_conflict now s name (WorkClaim.BeadID claim)) eqn:Hf; [done|].
  rewrite find_conflict_None in Hf. rewrite renewed_claims. simpl.
  set (a' := set_LastSeen now (set_ClaimedWork _ a)).
  destruct (renewed_count now (WorkClaim.BeadID claim) claim (elems (ClaimedWork a)))
    as [_ Hown].
  assert (∀ bead, bead ≠ WorkClaim.BeadID claim →
            (live_count now bead a' ≤ live_count now bead a)%nat) as Hrest.
  { intros bead Hne.
    by destruct (renewed_count now bead claim (elems (ClaimedWork a))) as [Hle _];
      apply Hle. }
  assert (∀ k b, agents s !! k = Some b → k ≠ name →
            live_count now (WorkClaim.BeadID claim) b = 0%nat) as Hfree.
  { intros k b Hk Hne.
    destruct (decide (0 < live_count now (WorkClaim.BeadID claim) b)%nat) as [Hp|]; [|lia].
    apply live_count_pos in Hp. destruct (Hf k b Hk); [|done].
    by rewrite (Hwf k b Hk). }
  apply exclusive_alt in Hex as [Hone Htwo]. apply exclusive_alt. split.
  - intros bead k b. simpl. rewrite lookup_insert. case_decide as Hk.
    + intros [= <-]. destruct (decide (bead = WorkClaim.BeadID claim)) as [->|Hne].
      * exact Hown.
      * specialize (Hrest bead Hne). specialize (Hone bead name a Ha). lia.
    + apply Hone.
  - assert (∀ bead k b, agents s !! k = Some b → k ≠ name →
              (0 < live_count now bead a')%nat → (0 < live_count now bead b)%nat →
              False) as Hclash.
    { intros bead k b Hk Hne Hp1 Hp2.
      destruct (decide (bead = WorkClaim.BeadID claim)) as [->|Hb].
      - rewrite (Hfree k b Hk Hne) in Hp2. lia.
      - specialize (Hrest bead Hb).
        apply Hne. apply (Htwo bead k name b a Hk Ha); [done|lia]. }
    intros bead k1 k2 b1 b2. simpl. rewrite !lookup_insert.
    repeat case_decide; subst; try done.
    + intros [= <-] Hk2 Hp1 Hp2. exfalso. eapply (Hclash bead k2 b2); eauto.
    + intros Hk1 [= <-] Hp1 Hp2. exfalso. eapply (Hclash bead k1 b1); eauto.
    + apply Htwo.
Qed.

Lemma cleanup_agent_claims now a :
  ClaimedWork (cleanup_agent now a)
  = collect (λ claim, negb (WorkClaim.IsExpired claim now)) (elems (ClaimedWork a)).
Proof. unfold cleanup_agent. by repeat case_match. Qed.

(** Every call that brings no claims of its own into the registry keeps
    the invariant. *)
Lemma run_exclusive now s c :
  store_wf s → brings_no_claims c → exclusive now s → exclusive now (run now s c).1.
Proof.
  intros Hwf Hno Hex.
  destruct c as [agent|name|name claim|name bead|name hint|name pat|name|]; simpl.
  - unfold Register. destruct (Validate agent); [done|]. simpl in *.
    revert Hex. apply exclusive_shrink. intros k b. simpl.
    rewrite lookup_insert. case_decide as Hk; [|intros Hb; right; eauto].
    intros [= <-].
    destruct (agents s !! Name agent) as [e|] eqn:He.
    + destruct agent as [n m p st ls [cw|] [fh|] status meta]; simpl in *; subst.
      * by left.
      * by left.
      * right. exists e. split; [done|]. intros bead. unfold live_count. simpl. lia.
      * right. exists e. split; [done|]. intros bead. unfold live_count. simpl. lia.
    + left. intros bead. unfold live_count. simpl. by rewrite Hno.
  - unfold Unregister. destruct (agents s !! name); [|done]. simpl.
    revert Hex. apply exclusive_shrink. intros k b. simpl.
    intros [_ Hk]%lookup_delete_Some. right; eauto.
  - by apply Claim_exclusive.
  - unfold Release. destruct (agents s !! name) as [a|] eqn:Ha; [|done].
    destruct (existsb _ _); [|done]. simpl.
    apply (exclusive_store_agent now s name a); [done| |done].
    intros b. apply live_count_collect.
  - unfold AddFileHint. destruct (agents s !! name) as [a|] eqn:Ha; [|done].
    simpl. by apply (exclusive_store_agent now s name a).
  - unfold RemoveFileHint. destruct (agents s !! name) as [a|] eqn:Ha; [|done].
    simpl. by apply (exclusive_store_agent now s name a).
  - unfold Heartbeat. destruct (agents s !! name) as [a|] eqn:Ha; [|done].
    simpl. by apply (exclusive_store_agent now s name a).
  - revert Hex. apply exclusive_shrink. intros k b. simpl.
    rewrite lookup_fmap. destruct (agents s !! k) as [a|] eqn:Ha; [|done].
    intros [= <-]. right. exists a. split; [done|]. intros bead.
    unfold live_count at 1. rewrite cleanup_agent_claims.
    apply live_count_collect.
Qed.

End ExclusionSteps.

(** C1, as the code has it.  Take a registry whose keys are the names of
    its registrations and in which no work item has two unexpired claims,
    and run any sequence of [Register], [Unregister], [Claim], [Release],
    [AddFileHint], [RemoveFileHint], [Heartbeat] and [CleanupExpired] calls
    on it, the clock never running backwards, every registration passed to
    [Register] carrying no claims.  Then the registry is again such a
    registry: at most one unexpired claim per work item exists across all
    agents' lists.  (A single call is the trace of length one; the empty
    store is such a registry.) *)
Theorem exclusive_preserved `{RangeOrder} (s : Store) (trace : list (Time * call))
    (start now : Time) :
  store_wf s → exclusive start s →
  Forall (λ tc, brings_no_claims tc.2) trace →
  clock_ok start trace now →
  store_wf (exec s trace) ∧ exclusive now (exec s trace).
Proof.
  revert s start. induction trace as [|[t c] trace IH]; intros s start Hwf Hex Hno Hclk.
  - simpl in *. eauto using exclusive_later.
  - simpl in *. destruct Hclk as [Hle Hclk]. apply Forall_cons in Hno as [Hc Hno].
    apply (IH _ t); [by apply run_store_wf| |done|done].
    apply run_exclusive; [done|done|]. by apply (exclusive_later start).
Qed.

Lemma store_wf_NewStore dir : store_wf (NewStore dir).
Proof. intros k a Hk. simpl in Hk. by rewrite lookup_empty in Hk. Qed.

Lemma exclusive_NewStore now dir : exclusive now (NewStore dir).
Proof. intros k1 k2 a1 a2 i1 i2 c1 c2 Hk. simpl in Hk. by rewrite lookup_empty in Hk. Qed.

Section Exclusive_witness.
#[local] Existing Instance canonical_order.

(** Two agents compete for a work item; the loser claims it again after
    the sweep, once the winner's claim has expired. *)
Lemma exclusive_preserved_witness :
  let t := Sample.t0 in
  let trace :=
    [(t, CallRegister Sample.alice); (t, CallRegister Sample.bob);
     (t + 1, CallClaim "alice" (Sample.claim_of "alice" "bv-42"));
     (t + 2, CallClaim "bob" (Sample.claim_of "bob" "bv-42"));
     (t + 3, CallClaim "alice" (Sample.claim_of "alice" "bv-42"));
     (t + 3, CallRegister Sample.alice);
     (t + time.Hour, CallCleanupExpired);
     (t + time.Hour, CallClaim "bob" (NewWorkClaim (t + time.Hour) "bv-42" "bob"
                                        ClaimReason.Testing));
     (t + time.Hour, CallUnregister "alice")] in
  store_wf (exec Sample.empty trace)
  ∧ exclusive (t + 2 * time.Hour) (exec Sample.empty trace).
Proof.
  intros t trace.
  apply (exclusive_preserved Sample.empty trace t (t + 2 * time.Hour)).
  - apply store_wf_NewStore.
  - apply exclusive_NewStore.
  - repeat constructor.
  - repeat split; by vm_compute.
Defined.

End Exclusive_witness.

(** The keys of the registry are the names of the registrations, whatever
    calls are made: [Register] and [Load] file a registration under its own
    name, and no operation changes a name. *)
Theorem registry_keys_are_names `{RangeOrder} (s : Store) (trace : list (Time * call)) :
  store_wf s → store_wf (exec s trace).
Proof.
  revert s. induction trace as [|[t c] trace IH]; intros s Hwf; [done|].
  simpl. by apply IH, run_store_wf.
Qed.

Section Keys_witness.
#[local] Existing Instance canonical_order.

Lemma registry_keys_are_names_witness :
  store_wf (exec Sample.empty
              [(Sample.t0, CallRegister (Sample.alice_with [Sample.claim_of "bob" "x"]));
               (Sample.t0, CallHeartbeat "alice");
               (Sample.t0, CallRegister Sample.bob)]).
Proof. apply registry_keys_are_names, store_wf_NewStore. Defined.

End Keys_witness.

(** ** The getters *)

(** The slice a collecting loop builds, in full. *)
Lemma collect_char {A} (keep : A → bool) (l : list A) :
  collect keep l
  = match filter (λ x, keep x = true) l with
    | [] => None
    | kept => Some kept
    end.
Proof.
  destruct (collect keep l) as [kept|] eqn:Hc.
  - pose proof (elems_collect keep l) as He. rewrite Hc in He. simpl in He.
    destruct (filter _ l) eqn:Hf; [|congruence].
    apply collect_None in Hf. congruence.
  - apply collect_None in Hc. by rewrite Hc.
Qed.

Section Getters.
Context `{RangeOrder}.
Import AgentRegistration.

Lemma elem_of_range_values {A} (m : gmap string A) (x : A) :
  x ∈ (range_of m).*2 ↔ ∃ k, m !! k = Some x.
Proof.
  rewrite list_elem_of_fmap. split.
  - intros ([k y] & -> & Hin). exists k. by apply elem_of_range.
  - intros [k Hk]. exists (k, x). split; [done|]. by apply elem_of_range.
Qed.

Lemma elem_of_all_claims (s : Store) (c : WorkClaim.t) :
  c ∈ flat_map (λ kv : string * AgentRegistration.t, elems (ClaimedWork kv.2))
               (range_of (agents s))
  ↔ ∃ k, holds s k c.
Proof.
  rewrite list_elem_of_In, in_flat_map. unfold holds. split.
  - intros ([k a] & Hin%list_elem_of_In%elem_of_range & Hc%list_elem_of_In). eauto.
  - intros (k & a & Hk & Hc). exists (k, a).
    rewrite <- !list_elem_of_In, elem_of_range. done.
Qed.

End Getters.

(** [GetAllClaims] returns exactly the claims some agent holds that have
    not expired: an expired claim is never in the result, an unexpired one
    always is. *)
Theorem GetAllClaims_spec `{RangeOrder} (now : Time) (s : Store) (c : WorkClaim.t) :
  c ∈ elems (GetAllClaims now s)
  ↔ (∃ k, holds s k c) ∧ now ≤ WorkClaim.ExpiresAt c.
Proof.
  unfold GetAllClaims. rewrite elem_of_collect, elem_of_all_claims.
  by rewrite negb_true_iff, claim_unexpired.
Qed.

(** What [GetClaimHolder] returns is a registered agent with an unexpired
    claim on the work item, and it returns [nil] exactly when no registered
    agent has one: claims that have expired do not make their agent a
    holder. *)
Theorem GetClaimHolder_spec `{RangeOrder} (now : Time) (s : Store) (beadID : string) :
  (∀ a, GetClaimHolder now s beadID = Some a →
        (∃ k, agents s !! k = Some a) ∧ has_live_claim now beadID a)
  ∧ (GetClaimHolder now s beadID = None
     ↔ ∀ k a, agents s !! k = Some a → ¬ has_live_claim now beadID a).
Proof.
  unfold GetClaimHolder. split.
  - intros a Hg. destruct (find _ _) as [[k b]|] eqn:Hf; simplify_eq/=.
    apply find_range_Some in Hf as [Hk Hl]. simpl in *.
    apply holds_live_true in Hl. eauto.
  - rewrite fmap_None, find_range_None. simpl.
    split; intros Hall k a Hk; apply holds_live_false; eauto.
Qed.

Section Holder_witness.
#[local] Existing Instance canonical_order.

Lemma GetClaimHolder_spec_witness :
  has_live_claim Sample.t0 "bv-42" (Sample.alice_with [Sample.claim_of "alice" "bv-42"])
  ∧ GetClaimHolder Sample.t0 Sample.both "bv-42" = None.
Proof.
  destruct (GetClaimHolder_spec Sample.t0 Sample.alice_holds "bv-42") as [Hsome _].
  destruct (GetClaimHolder_spec Sample.t0 Sample.both "bv-42") as [_ Hnone].
  split.
  - apply Hsome. by_vm.
  - apply Hnone. intros k a Hk.
    assert (map_Forall (λ _ a, holds_live Sample.t0 "bv-42" a = false)
                       (agents Sample.both)) as Hall by by_evaluation.
    apply holds_live_false, (Hall k a Hk).
Defined.

End Holder_witness.

(** With the invariant in force the holder of a work item is unique, and
    [GetClaimHolder] returns it whatever the iteration order. *)
Theorem GetClaimHolder_unique `{RangeOrder} (now : Time) (s : Store) (beadID k : string)
    (a : AgentRegistration.t) :
  exclusive now s → agents s !! k = Some a → has_live_claim now beadID a →
  GetClaimHolder now s beadID = Some a.
Proof.
  intros Hex Hk Hlive. unfold GetClaimHolder.
  destruct (find _ _) as [[k' b]|] eqn:Hf; simpl.
  - apply find_range_Some in Hf as [Hk' Hlive']. simpl in *.
    apply holds_live_true in Hlive'. f_equal.
    apply exclusive_alt in Hex as [_ Htwo].
    assert (k' = k) as ->; [|congruence].
    apply (Htwo beadID k' k b a); try done; by apply live_count_pos.
  - rewrite find_range_None in Hf. specialize (Hf k a Hk). simpl in Hf.
    apply holds_live_false in Hf. done.
Qed.

Section Unique_witness.
#[local] Existing Instance reverse_order.

Lemma GetClaimHolder_unique_witness :
  let s := store_agent "alice" (Sample.alice_with [Sample.claim_of "alice" "bv-42"])
             (store_agent "bob" Sample.bob (NewStore ".beads")) in
  GetClaimHolder Sample.t0 s "bv-42"
  = Some (Sample.alice_with [Sample.claim_of "alice" "bv-42"]).
Proof.
  intros s. apply (GetClaimHolder_unique Sample.t0 s "bv-42" "alice").
  - assert (s = (run Sample.t0
                    (run Sample.t0
                       (run Sample.t0 (NewStore ".beads") (CallRegister Sample.bob)).1
                       (CallRegister Sample.alice)).1
                    (CallClaim "alice" (Sample.claim_of "alice" "bv-42"))).1)
      as -> by by_vm.
    repeat first [ apply run_exclusive | apply run_store_wf
                 | apply store_wf_NewStore | apply exclusive_NewStore
                 | exact I | reflexivity ].
  - by_vm.
  - exists (Sample.claim_of "alice" "bv-42"). split; [apply list_elem_of_here|].
    split; by_vm.
Defined.

End Unique_witness.

(** ** How the operations compose *)

Arguments collect {A} keep l : simpl never.

Section Compose.
Context `{RangeOrder}.
Import AgentRegistration.

(** What a successful [Claim] has checked and done. *)
Lemma Claim_success_inv now s name claim :
  (Claim now s name claim).2 = None →
  ∃ a, WorkClaim.Validate claim = None
       ∧ agents s !! name = Some a
       ∧ find_conflict now s name (WorkClaim.BeadID claim) = None
       ∧ (Claim now s name claim).1
         = store_agent name
             (set_LastSeen now
                (set_ClaimedWork
                   (Some (filter (λ c, WorkClaim.BeadID c ≠ WorkClaim.BeadID claim)
                                 (elems (ClaimedWork a)) ++ [claim])) a)) s.
Proof.
  unfold Claim. destruct (WorkClaim.Validate claim); [done|].
  destruct (agents s !! name) as [a|]; [|done].
  destruct (find_conflict _ _ _ _); [done|]. intros _. exists a.
  by rewrite renewed_claims.
Qed.

Lemma store_agent_twice name a a' s :
  store_agent name a' (store_agent name a s) = store_agent name a' s.
Proof. unfold store_agent, set_agents. simpl. by rewrite insert_insert_eq. Qed.

Lemma existsb_true_iff {A} (f : A → bool) (l : list A) :
  existsb f l = true ↔ ∃ x, x ∈ l ∧ f x = true.
Proof. rewrite existsb_exists. by setoid_rewrite list_elem_of_In. Qed.

Lemma HasClaim_true a beadID :
  HasClaim a beadID = true
  ↔ ∃ c, c ∈ elems (ClaimedWork a) ∧ WorkClaim.BeadID c = beadID.
Proof.
  unfold HasClaim. rewrite existsb_true_iff.
  by setoid_rewrite bool_decide_eq_true.
Qed.

Lemma HasClaim_false a beadID :
  HasClaim a beadID = false
  ↔ ∀ c, c ∈ elems (ClaimedWork a) → WorkClaim.BeadID c ≠ beadID.
Proof.
  rewrite <- not_true_iff_false, HasClaim_true. split.
  - intros Hno c Hc Hb. apply Hno. by exists c.
  - intros Hall (c & Hc & Hb). by apply (Hall c).
Qed.

(** The list the loop of [Release] keeps. *)
Lemma released_claims beadID (l : list WorkClaim.t) :
  elems (collect (λ c, negb (bool_decide (WorkClaim.BeadID c = beadID))) l)
  = filter (λ c, WorkClaim.BeadID c ≠ beadID) l.
Proof.
  rewrite elems_collect. apply list_filter_iff. intros c.
  by rewrite negb_true_iff, bool_decide_eq_false.
Qed.

End Compose.

(** After a successful [Claim] the claimant is the holder of the work
    item, at the time of the call and for as long as the new claim has not
    expired, whatever else the registry contains. *)
Theorem Claim_makes_holder `{RangeOrder} (now now' : Time) (s : Store)
    (name : string) (claim : WorkClaim.t) :
  store_wf s →
  (Claim now s name claim).2 = None →
  now ≤ now' → WorkClaim.IsExpired claim now' = false →
  ∃ a, GetClaimHolder now' (Claim now s name claim).1 (WorkClaim.BeadID claim) = Some a
       ∧ AgentRegistration.Name a = name
       ∧ claim ∈ elems (AgentRegistration.ClaimedWork a).
Proof.
  intros Hwf Hok Hle Hlive.
  destruct (Claim_success_inv now s name claim Hok) as (a0 & _ & Ha0 & Hfree & ->).
  rewrite find_conflict_None in Hfree.
  remember (AgentRegistration.set_LastSeen now
              (AgentRegistration.set_ClaimedWork _ a0)) as a' eqn:Ea'.
  assert (claim ∈ elems (AgentRegistration.ClaimedWork a')) as Hin.
  { subst a'. simpl. apply elem_of_app. right. left. }
  assert (AgentRegistration.Name a' = AgentRegistration.Name a0) as Hname
    by (by subst a').
  clear Ea'.
  unfold GetClaimHolder.
  destruct (find _ _) as [[k b]|] eqn:Hf; simpl.
  - apply find_range_Some in Hf as [Hk Hb]. simpl in Hk, Hb.
    rewrite lookup_insert in Hk. case_decide as Hkn.
    + simplify_eq. exists b. split; [done|]. split; [|done].
      rewrite Hname. by apply Hwf.
    + exfalso. apply holds_live_true in Hb as (c & Hc & Hbead & Hexp).
      apply (Hfree k b Hk).
      * by rewrite (Hwf k b Hk).
      * exists c. eauto using claim_unexpired_earlier.
  - exfalso. rewrite find_range_None in Hf.
    specialize (Hf name a'). simpl in Hf. rewrite lookup_insert_eq in Hf.
    specialize (Hf eq_refl). apply holds_live_false in Hf. apply Hf.
    by exists claim.
Qed.

Section Holder_after_claim_witness.
#[local] Existing Instance reverse_order.

Lemma Claim_makes_holder_witness :
  ∃ a, GetClaimHolder (Sample.t0 + time.Minute)
         (Claim Sample.t0 Sample.both "bob" (Sample.claim_of "bob" "bv-7")).1 "bv-7"
       = Some a
       ∧ AgentRegistration.Name a = "bob"
       ∧ Sample.claim_of "bob" "bv-7" ∈ elems (AgentRegistration.ClaimedWork a).
Proof.
  apply (Claim_makes_holder Sample.t0 (Sample.t0 + time.Minute) Sample.both "bob"
           (Sample.claim_of "bob" "bv-7")).
  - assert (Sample.both
            = (run Sample.t0 (run Sample.t0 (NewStore ".beads") (CallRegister Sample.alice)).1
                   (CallRegister Sample.bob)).1) as -> by by_vm.
    repeat first [ apply run_store_wf | apply store_wf_NewStore ].
  - by_vm.
  - by vm_compute.
  - by_vm.
Defined.

End Holder_after_claim_witness.

(** [Release] fails with the not-found error for an unknown agent and for
    an agent that has no claim on the work item ([HasClaim] is false); for
    an agent that has one it succeeds and leaves the agent with its claims
    on other work items, in order, and no claim on this one (all of them
    go, expired or not), its last-seen time equal to [now], its other
    fields and all other agents as before. *)
Theorem Release_outcomes (now : Time) (s : Store) (name beadID : string) :
  (agents s !! name = None →
     Release now s name beadID = (s, Some (ErrAgentNotFound name)))
  ∧ (∀ a, agents s !! name = Some a →
       (AgentRegistration.HasClaim a beadID = false →
          Release now s name beadID = (s, Some (ErrClaimNotFound beadID)))
       ∧ (AgentRegistration.HasClaim a beadID = true →
          ∃ a',
            Release now s name beadID = (store_agent name a' s, None)
            ∧ AgentRegistration.LastSeen a' = now
            ∧ elems (AgentRegistration.ClaimedWork a')
              = filter (λ c, WorkClaim.BeadID c ≠ beadID)
                       (elems (AgentRegistration.ClaimedWork a))
            ∧ AgentRegistration.HasClaim a' beadID = false
            ∧ AgentRegistration.Name a' = AgentRegistration.Name a
            ∧ AgentRegistration.Model a' = AgentRegistration.Model a
            ∧ AgentRegistration.Program a' = AgentRegistration.Program a
            ∧ AgentRegistration.StartedAt a' = AgentRegistration.StartedAt a
            ∧ AgentRegistration.FileHints a' = AgentRegistration.FileHints a
            ∧ AgentRegistration.Status a' = AgentRegistration.Status a
            ∧ AgentRegistration.Metadata a' = AgentRegistration.Metadata a)).
Proof.
  unfold Release. split; [by intros ->|]. intros a ->.
  change (existsb _ _) with (AgentRegistration.HasClaim a beadID).
  split; intros ->; [done|]. eexists. split; [reflexivity|].
  split_and!; try reflexivity; [apply released_claims|].
  apply HasClaim_false. simpl. intros c. rewrite released_claims.
  by intros [? _]%list_elem_of_filter.
Qed.

Section Release_witness.
#[local] Existing Instance canonical_order.

Lemma Release_outcomes_witness :
  Release Sample.t0 Sample.alice_holds "carol" "bv-42"
    = (Sample.alice_holds, Some (ErrAgentNotFound "carol"))
  ∧ Release Sample.t0 Sample.alice_holds "bob" "bv-42"
    = (Sample.alice_holds, Some (ErrClaimNotFound "bv-42"))
  ∧ (Release (Sample.t0 + 7) Sample.alice_holds "alice" "bv-42").2 = None
  ∧ AgentRegistration.LastSeen
      <$> agents (Release (Sample.t0 + 7) Sample.alice_holds "alice" "bv-42").1 !! "alice"
    = Some (Sample.t0 + 7)
  ∧ (elems ∘ AgentRegistration.ClaimedWork)
      <$> agents (Release (Sample.t0 + 7) Sample.alice_holds "alice" "bv-42").1 !! "alice"
    = Some []
  ∧ agents (Release (Sample.t0 + 7) Sample.alice_holds "alice" "bv-42").1 !! "bob"
    = Some Sample.bob.
Proof.
  destruct (Release_outcomes Sample.t0 Sample.alice_holds "carol" "bv-42") as [H1 _].
  destruct (Release_outcomes Sample.t0 Sample.alice_holds "bob" "bv-42") as [_ H2].
  destruct (Release_outcomes (Sample.t0 + 7) Sample.alice_holds "alice" "bv-42")
    as [_ H3].
  split; [|split].
  - apply H1. by_vm.
  - apply (H2 Sample.bob); by_vm.
  - destruct (H3 (Sample.alice_with [Sample.claim_of "alice" "bv-42"])) as [_ Hok];
      [by_vm|].
    destruct Hok as (a' & -> & Hseen & Hkept & _); [by_vm|].
    unfold store_agent. cbn [fst snd agents set_agents].
    rewrite lookup_insert_eq, lookup_insert_ne by discriminate.
    split_and!; [reflexivity| | |by_vm].
    + cbn [fmap option_fmap option_map]. by rewrite Hseen.
    + cbn [fmap option_fmap option_map compose]. rewrite Hkept. by_vm.
Defined.

End Release_witness.

(** A successful [Claim] followed by a [Release] of the same work item by
    the same agent succeeds, and leaves the agent with the claims it had
    before on other work items: an agent that had none ends with an empty
    claim list.  Nothing else in the registry has changed. *)
Theorem Claim_then_Release `{RangeOrder} (now now' : Time) (s : Store)
    (name : string) (claim : WorkClaim.t) (a : AgentRegistration.t) :
  agents s !! name = Some a →
  (Claim now s name claim).2 = None →
  ∃ kept,
    Release now' (Claim now s name claim).1 name (WorkClaim.BeadID claim)
    = (store_agent name
         (AgentRegistration.set_LastSeen now'
            (AgentRegistration.set_ClaimedWork kept a)) s, None)
    ∧ elems kept = filter (λ c, WorkClaim.BeadID c ≠ WorkClaim.BeadID claim)
                          (elems (AgentRegistration.ClaimedWork a)).
Proof.
  intros Ha Hok.
  destruct (Claim_success_inv now s name claim Hok) as (a0 & _ & Ha0 & _ & ->).
  assert (a0 = a) as -> by congruence.
  exists (collect (λ c, negb (bool_decide (WorkClaim.BeadID c = WorkClaim.BeadID claim)))
            (filter (λ c, WorkClaim.BeadID c ≠ WorkClaim.BeadID claim)
                    (elems (AgentRegistration.ClaimedWork a)) ++ [claim])).
  split.
  { unfold Release. simpl. rewrite lookup_insert_eq. simpl.
    rewrite existsb_app. simpl. rewrite bool_decide_eq_true_2 by done.
    rewrite orb_true_r. simpl. by rewrite store_agent_twice. }
  rewrite released_claims, filter_app, filter_cons, filter_nil.
  rewrite decide_False by naive_solver. rewrite app_nil_r.
  rewrite list_filter_filter. apply list_filter_iff. intros c. tauto.
Qed.

Section Claim_release_witness.
#[local] Existing Instance canonical_order.

Lemma Claim_then_Release_witness :
  ∃ kept,
    Release (Sample.t0 + 5) (Claim Sample.t0 Sample.both "alice"
                               (Sample.claim_of "alice" "bv-42")).1 "alice" "bv-42"
    = (store_agent "alice"
         (AgentRegistration.set_LastSeen (Sample.t0 + 5)
            (AgentRegistration.set_ClaimedWork kept Sample.alice)) Sample.both, None)
    ∧ elems kept = [].
Proof.
  apply (Claim_then_Release Sample.t0 (Sample.t0 + 5) Sample.both "alice"
           (Sample.claim_of "alice" "bv-42") Sample.alice); by_vm.
Defined.

End Claim_release_witness.

(** [Unregister] fails with the not-found error for an unknown name and
    changes nothing then; for a registered name it removes that agent, with
    all its claims and hints, and leaves every other registration as it
    was. *)
Theorem Unregister_outcomes (s : Store) (name : string) :
  (agents s !! name = None → Unregister s name = (s, Some (ErrAgentNotFound name)))
  ∧ (is_Some (agents s !! name) →
       (Unregister s name).2 = None
       ∧ Get (Unregister s name).1 name = None
       ∧ (∀ k, k ≠ name → Get (Unregister s name).1 k = Get s k)
       ∧ (∀ k c, holds (Unregister s name).1 k c ↔ k ≠ name ∧ holds s k c)).
Proof.
  unfold Unregister. split; [by intros ->|]. intros [a ->]. simpl.
  unfold Get, holds. simpl. split_and!; [done|apply lookup_delete_eq| |].
  - intros k Hk. by apply lookup_delete_ne.
  - intros k c. split.
    + intros (b & [Hne Hk]%lookup_delete_Some & Hc). eauto.
    + intros (Hne & b & Hk & Hc). exists b. by rewrite lookup_delete_ne.
Qed.

Section Unregister_witness.
#[local] Existing Instance canonical_order.

Lemma Unregister_outcomes_witness :
  Unregister Sample.alice_holds "carol"
    = (Sample.alice_holds, Some (ErrAgentNotFound "carol"))
  ∧ Get (Unregister Sample.alice_holds "alice").1 "alice" = None
  ∧ ¬ holds (Unregister Sample.alice_holds "alice").1 "alice"
        (Sample.claim_of "alice" "bv-42").
Proof.
  destruct (Unregister_outcomes Sample.alice_holds "carol") as [H1 _].
  destruct (Unregister_outcomes Sample.alice_holds "alice") as [_ H2].
  destruct H2 as (_ & Hget & _ & Hholds).
  { exists (Sample.alice_with [Sample.claim_of "alice" "bv-42"]). by_vm. }
  split_and!.
  - apply H1. by_vm.
  - exact Hget.
  - intros [Hne _]%Hholds. by apply Hne.
Defined.

End Unregister_witness.

(** Registering a valid record under a name that is free stores the record
    as it is, except that its last-seen time is [now]: [Get] returns it,
    and every other registration is as before. *)
Theorem Register_then_Get (now : Time) (s : Store)
    (agent : AgentRegistration.t) :
  AgentRegistration.Validate agent = None →
  agents s !! AgentRegistration.Name agent = None →
  (Register now s agent).2 = None
  ∧ Get (Register now s agent).1 (AgentRegistration.Name agent)
    = Some (AgentRegistration.Make
              (AgentRegistration.Name agent) (AgentRegistration.Model agent)
              (AgentRegistration.Program agent) (AgentRegistration.StartedAt agent)
              now
              (AgentRegistration.ClaimedWork agent) (AgentRegistration.FileHints agent)
              (AgentRegistration.Status agent) (AgentRegistration.Metadata agent))
  ∧ (∀ k, k ≠ AgentRegistration.Name agent →
          Get (Register now s agent).1 k = Get s k).
Proof.
  intros Hv Hfree. unfold Register, Get. rewrite Hv, Hfree. simpl.
  split_and!; [done|apply lookup_insert_eq|].
  intros k Hk. by apply lookup_insert_ne.
Qed.

Section Register_fresh_witness.
#[local] Existing Instance canonical_order.

Lemma Register_then_Get_witness :
  Get (Register (Sample.t0 + 9) Sample.empty Sample.alice).1 "alice"
  = Some (AgentRegistration.Make "alice" "opus" "cli" Sample.t0 (Sample.t0 + 9)
            (Some []) (Some []) AgentStatus.Active AgentMeta.zero).
Proof.
  apply (Register_then_Get (Sample.t0 + 9) Sample.empty Sample.alice); by_vm.
Defined.

End Register_fresh_witness.

(** A record that does not validate is refused with the error of
    [Validate], whatever the registry holds; a record with an empty name,
    an empty program or an unknown status does not validate. *)
Theorem Register_invalid (now : Time) (s : Store)
    (agent : AgentRegistration.t) :
  AgentRegistration.Name agent = "" ∨ AgentRegistration.Program agent = ""
  ∨ AgentStatus.IsValid (AgentRegistration.Status agent) = false →
  ∃ msg, Register now s agent = (s, Some (ErrInvalid msg)).
Proof.
  intros Hbad. unfold Register, AgentRegistration.Validate.
  repeat case_bool_decide; try by eexists.
  destruct (AgentStatus.IsValid _) eqn:Hs; simpl; [|by eexists].
  destruct Hbad as [?|[?|?]]; congruence.
Qed.

Section Register_invalid_witness.
#[local] Existing Instance canonical_order.

Lemma Register_invalid_witness :
  ∃ msg, Register Sample.t0 Sample.both
           (AgentRegistration.set_Status "busy" Sample.alice)
         = (Sample.both, Some (ErrInvalid msg)).
Proof.
  apply (Register_invalid Sample.t0 Sample.both). right. right. by_vm.
Defined.

End Register_invalid_witness.

(** A heartbeat keeps an agent alive: when an agent has sent a heartbeat,
    a sweep less than thirty minutes later leaves it active, whatever its
    status and last-seen time were before the heartbeat, and [ActiveAgents]
    with the default threshold lists it. *)
Theorem Heartbeat_keeps_active `{RangeOrder} (now now' : Time) (s : Store)
    (name : string) (a : AgentRegistration.t) :
  agents s !! name = Some a →
  now ≤ now' → now' - now < 30 * time.Minute →
  (Heartbeat now s name).2 = None
  ∧ ∃ a', agents (CleanupExpired now' (Heartbeat now s name).1) !! name = Some a'
          ∧ AgentRegistration.Status a' = AgentStatus.Active
          ∧ AgentRegistration.LastSeen a' = now
          ∧ a' ∈ elems (ActiveAgents now' (CleanupExpired now' (Heartbeat now s name).1)
                          DefaultInactivityThreshold).
Proof.
  intros Ha Hle Hlt. unfold Heartbeat. rewrite Ha. simpl. split; [done|].
  set (a1 := AgentRegistration.set_Status _ _).
  exists (cleanup_agent now' a1).
  assert (AgentRegistration.LastSeen (cleanup_agent now' a1) = now) as Hls.
  { unfold cleanup_agent. by repeat case_match. }
  assert (AgentRegistration.IsActive now' (cleanup_agent now' a1)
            DefaultInactivityThreshold = true) as Hact.
  { apply IsActive_default. rewrite Hls. lia. }
  assert (agents (CleanupExpired now' (store_agent name a1 s)) !! name
          = Some (cleanup_agent now' a1)) as Hk.
  { simpl. by rewrite lookup_fmap, lookup_insert_eq. }
  split_and!; [done| |done|].
  - unfold cleanup_agent.
    set (a2 := AgentRegistration.set_FileHints _ _).
    assert (AgentRegistration.LastSeen a2 = now) as Hls2 by done.
    destruct (AgentRegistration.IsStale now' a2 DefaultStaleThreshold) eqn:Hst.
    { apply IsStale_default in Hst. rewrite Hls2 in Hst.
      unfold time.Hour in Hst. lia. }
    destruct (AgentRegistration.IsActive now' a2 DefaultInactivityThreshold) eqn:Hac;
      [done|].
    assert (¬ now' - AgentRegistration.LastSeen a2 < 30 * time.Minute) as Hn.
    { rewrite <- IsActive_default, Hac. done. }
    rewrite Hls2 in Hn. lia.
  - unfold ActiveAgents. apply elem_of_collect. split; [|done].
    apply elem_of_range_values. eauto.
Qed.

Section Heartbeat_witness.
#[local] Existing Instance canonical_order.

Lemma Heartbeat_keeps_active_witness :
  let gone := AgentRegistration.set_Status AgentStatus.Gone
                (AgentRegistration.set_LastSeen 1 Sample.alice) in
  let s := store_agent "alice" gone Sample.empty in
  ∃ a', agents (CleanupExpired (Sample.t0 + 29 * time.Minute)
                  (Heartbeat Sample.t0 s "alice").1) !! "alice" = Some a'
        ∧ AgentRegistration.Status a' = AgentStatus.Active.
Proof.
  intros gone s.
  destruct (Heartbeat_keeps_active Sample.t0 (Sample.t0 + 29 * time.Minute) s
              "alice" gone) as [_ (a' & Ha' & Hst & _)];
    [by_vm|by vm_compute|by vm_compute|].
  by exists a'.
Defined.

End Heartbeat_witness.

(** [List] returns every registration exactly once, in some order; it
    hides nothing, so a claim that has expired is still in the record [List]
    returns. *)
Theorem List_spec `{RangeOrder} (s : Store) :
  List s ≡ₚ (map_to_list (agents s)).*2
  ∧ length (List s) = size (agents s).
Proof.
  unfold List. split.
  - by rewrite (range_of_perm _ (agents s)).
  - rewrite length_fmap, (range_of_perm _ (agents s)). apply length_map_to_list.
Qed.

(** [ActiveAgents(timeout)] returns the registrations last seen less than
    [timeout] ago, and only those: an agent last seen exactly [timeout] ago
    is left out. *)
Theorem ActiveAgents_spec `{RangeOrder} (now : Time) (s : Store) (timeout : Duration)
    (a : AgentRegistration.t) :
  time.minDuration < timeout ≤ time.maxDuration →
  a ∈ elems (ActiveAgents now s timeout)
  ↔ (∃ k, agents s !! k = Some a) ∧ now - AgentRegistration.LastSeen a < timeout.
Proof.
  intros Ht. unfold ActiveAgents. rewrite elem_of_collect, elem_of_range_values.
  unfold AgentRegistration.IsActive. by rewrite bool_decide_eq_true, Since_lt.
Qed.

Section Active_witness.
#[local] Existing Instance canonical_order.

Lemma ActiveAgents_spec_witness :
  Sample.bob ∈ elems (ActiveAgents (Sample.t0 + time.Minute) Sample.both
                        (5 * time.Minute))
  ∧ Sample.bob ∉ elems (ActiveAgents (Sample.t0 + 5 * time.Minute) Sample.both
                          (5 * time.Minute)).
Proof.
  split.
  - apply ActiveAgents_spec; [by vm_compute|].
    split; [exists "bob"; by_vm|by vm_compute].
  - intros [_ Hlt]%ActiveAgents_spec; [|by vm_compute]. by vm_compute in Hlt.
Defined.

End Active_witness.

(** ** File hints *)

(** Hints never reject: [AddFileHint] on a registered agent always
    succeeds and puts the hint at the end of the agent's list, also when
    the agent or another one already has a hint on the pattern; and
    [RemoveFileHint] on a registered agent always succeeds, also when the
    agent has no hint on the pattern, and leaves the hints on other
    patterns in order. *)
Theorem hints_never_reject (now : Time) (s : Store) (name : string)
    (a : AgentRegistration.t) (hint : FileHint.t) (pattern : string) :
  agents s !! name = Some a →
  (∃ a', AddFileHint now s name hint = (store_agent name a' s, None)
         ∧ elems (AgentRegistration.FileHints a')
           = elems (AgentRegistration.FileHints a) ++ [hint]
         ∧ AgentRegistration.ClaimedWork a' = AgentRegistration.ClaimedWork a
         ∧ AgentRegistration.LastSeen a' = now)
  ∧ (∃ a', RemoveFileHint now s name pattern = (store_agent name a' s, None)
           ∧ elems (AgentRegistration.FileHints a')
             = filter (λ h, FileHint.Pattern h ≠ pattern)
                      (elems (AgentRegistration.FileHints a))
           ∧ AgentRegistration.ClaimedWork a' = AgentRegistration.ClaimedWork a
           ∧ AgentRegistration.LastSeen a' = now).
Proof.
  intros Ha. unfold AddFileHint, RemoveFileHint. rewrite Ha. split.
  - eexists. split; [reflexivity|]. done.
  - eexists. split; [reflexivity|]. simpl. split; [|done].
    rewrite elems_collect. apply list_filter_iff. intros h.
    by rewrite negb_true_iff, bool_decide_eq_false.
Qed.

Section Hints_witness.
#[local] Existing Instance canonical_order.

Lemma hints_never_reject_witness :
  (AddFileHint Sample.t0 Sample.both "alice" (Sample.hint_of "alice" "main.go" "")).2
  = None
  ∧ (RemoveFileHint Sample.t0 Sample.both "alice" "main.go").2 = None.
Proof.
  destruct (hints_never_reject Sample.t0 Sample.both "alice" Sample.alice
              (Sample.hint_of "alice" "main.go" "") "main.go") as [Hadd Hrem];
    [by_vm|].
  destruct Hadd as (a1 & -> & _). destruct Hrem as (a2 & -> & _). done.
Defined.

End Hints_witness.

(** Adding a hint and then removing its pattern is the same as removing
    the pattern right away: the removal takes every hint on the pattern,
    the new one and the old ones. *)
Theorem AddFileHint_then_Remove (now now' : Time) (s : Store)
    (name : string) (hint : FileHint.t) :
  is_Some (agents s !! name) →
  RemoveFileHint now' (AddFileHint now s name hint).1 name (FileHint.Pattern hint)
  = RemoveFileHint now' s name (FileHint.Pattern hint).
Proof.
  intros [a Ha].
  assert (collect (λ h, negb (bool_decide (FileHint.Pattern h = FileHint.Pattern hint)))
            (elems (AgentRegistration.FileHints a) ++ [hint])
          = collect (λ h, negb (bool_decide (FileHint.Pattern h = FileHint.Pattern hint)))
              (elems (AgentRegistration.FileHints a))) as Hsame.
  { rewrite !collect_char, filter_app, filter_cons, filter_nil.
    rewrite decide_False; [by rewrite app_nil_r|].
    by rewrite bool_decide_eq_true_2. }
  unfold AddFileHint, RemoveFileHint. rewrite Ha. simpl.
  rewrite lookup_insert_eq. rewrite store_agent_twice. simpl.
  by rewrite Hsame.
Qed.

Section Hint_remove_witness.
#[local] Existing Instance canonical_order.

Lemma AddFileHint_then_Remove_witness :
  let h := Sample.hint_of "alice" "main.go" "bv-42" in
  RemoveFileHint (Sample.t0 + 1) (AddFileHint Sample.t0 Sample.both "alice" h).1
    "alice" "main.go"
  = RemoveFileHint (Sample.t0 + 1) Sample.both "alice" "main.go".
Proof.
  intros h. apply (AddFileHint_then_Remove Sample.t0 (Sample.t0 + 1) Sample.both "alice" h).
  exists Sample.alice. by_vm.
Defined.

End Hint_remove_witness.

(** ** The sweep *)

Lemma collect_idem {A} (keep : A → bool) (l : list A) :
  collect keep (elems (collect keep l)) = collect keep l.
Proof.
  rewrite (collect_char keep (elems _)), elems_collect, collect_char.
  rewrite list_filter_filter.
  assert (filter (λ x, keep x = true ∧ keep x = true) l
          = filter (λ x, keep x = true) l) as ->; [|done].
  apply list_filter_iff. intros x. tauto.
Qed.

Lemma cleanup_agent_idem now a :
  cleanup_agent now (cleanup_agent now a) = cleanup_agent now a.
Proof.
  destruct a as [n m p st ls cw fh status meta].
  unfold cleanup_agent, AgentRegistration.IsStale, AgentRegistration.IsActive.
  simpl. repeat case_bool_decide; simpl;
    repeat case_bool_decide; simpl; try done; try lia;
    by rewrite !collect_idem.
Qed.

(** Sweeping twice at the same instant is sweeping once. *)
Theorem CleanupExpired_idempotent (now : Time) (s : Store) :
  CleanupExpired now (CleanupExpired now s) = CleanupExpired now s.
Proof.
  unfold CleanupExpired, set_agents. simpl. f_equal.
  rewrite <- map_fmap_compose. apply map_fmap_ext.
  intros k a _. apply cleanup_agent_idem.
Qed.

(** After the sweep an agent holds exactly its claims that have not
    expired, so [List] and [Get] show no expired claim any more; what
    [GetAllClaims] returns is not affected by the sweep. *)
Theorem CleanupExpired_visible `{RangeOrder} (now : Time) (s : Store) :
  (∀ k c, holds (CleanupExpired now s) k c
          ↔ holds s k c ∧ now ≤ WorkClaim.ExpiresAt c)
  ∧ (∀ c, c ∈ elems (GetAllClaims now (CleanupExpired now s))
          ↔ c ∈ elems (GetAllClaims now s)).
Proof.
  assert (∀ k c, holds (CleanupExpired now s) k c
                 ↔ holds s k c ∧ now ≤ WorkClaim.ExpiresAt c) as Hholds.
  { intros k c. unfold holds. simpl. setoid_rewrite lookup_fmap. split.
    - intros (a' & Hk & Hc). destruct (agents s !! k) as [a|]; simplify_eq/=.
      rewrite cleanup_agent_claims, elem_of_collect in Hc.
      rewrite negb_true_iff, claim_unexpired in Hc. destruct Hc. eauto.
    - intros [(a & Hk & Hc) Hlive]. exists (cleanup_agent now a).
      rewrite Hk. split; [done|].
      rewrite cleanup_agent_claims, elem_of_collect.
      by rewrite negb_true_iff, claim_unexpired. }
  split; [done|]. intros c. unfold GetAllClaims.
  rewrite !elem_of_collect, !elem_of_all_claims.
  rewrite negb_true_iff, claim_unexpired. split.
  - intros [[k Hk] Hlive]. apply Hholds in Hk as [Hk _]. eauto.
  - intros [[k Hk] Hlive]. split; [|done]. exists k. by apply Hholds.
Qed.

(** ** [GetFileConflicts] *)

Section ConflictFacts.
Context `{RangeOrder}.

Lemma map_append_lookup m k x p :
  map_append m k x !! p
  = if decide (k = p) then Some (elems (m !! k) ++ [x]) else m !! p.
Proof. unfold map_append. by rewrite lookup_insert. Qed.

Lemma elems_Some {A} (l : list A) : elems (Some l) = l.
Proof. reflexivity. Qed.

Lemma names_on_cons p x l :
  names_on p (x :: l)
  = if decide (FileHint.Pattern x.2 = p) then x.1 :: names_on p l else names_on p l.
Proof. unfold names_on. rewrite filter_cons. by case_decide. Qed.

Lemma beads_on_cons p x l :
  beads_on p (x :: l)
  = if decide (FileHint.Pattern x.2 = p ∧ FileHint.BeadID x.2 ≠ "")
    then FileHint.BeadID x.2 :: beads_on p l else beads_on p l.
Proof. unfold beads_on. rewrite filter_cons. by case_decide. Qed.

(** What the first loop has filed under a pattern. *)
Lemma note_hints_agents (l : list (string * FileHint.t)) acc p :
  (fold_left note_hint l acc).1 !! p
  = match names_on p l with
    | [] => acc.1 !! p
    | names => Some (elems (acc.1 !! p) ++ names)
    end.
Proof.
  revert acc. induction l as [|x l IH]; intros acc; [done|].
  rewrite names_on_cons. cbn [fold_left]. rewrite IH.
  unfold note_hint. cbn [fst snd]. rewrite map_append_lookup.
  case_decide as Hp.
  - subst p. destruct (names_on _ l) as [|n ns]; [done|].
    rewrite elems_Some. by rewrite <- app_assoc.
  - done.
Qed.

Lemma note_hints_beads (l : list (string * FileHint.t)) acc p :
  (fold_left note_hint l acc).2 !! p
  = match beads_on p l with
    | [] => acc.2 !! p
    | beads => Some (elems (acc.2 !! p) ++ beads)
    end.
Proof.
  revert acc. induction l as [|x l IH]; intros acc; [done|].
  rewrite beads_on_cons. cbn [fold_left]. rewrite IH.
  unfold note_hint. cbn [fst snd].
  case_bool_decide as Hb.
  - rewrite map_append_lookup. case_decide as Hp.
    + subst p. rewrite decide_True by done.
      destruct (beads_on _ l) as [|n ns]; [done|].
      rewrite elems_Some. by rewrite <- app_assoc.
    + by rewrite decide_False by tauto.
  - by rewrite decide_False by tauto.
Qed.

Lemma noted_agents l p :
  (fold_left note_hint l (∅, ∅)).1 !! p = slice_of (names_on p l).
Proof. rewrite note_hints_agents. simpl. rewrite lookup_empty. by destruct (names_on p l). Qed.

Lemma noted_beads l p :
  (fold_left note_hint l (∅, ∅)).2 !! p = slice_of (beads_on p l).
Proof. rewrite note_hints_beads. simpl. rewrite lookup_empty. by destruct (beads_on p l). Qed.

(** A loop that appends [g x] for the [x] that pass [keep]. *)
Lemma elems_collect_map {A B} (keep : A → bool) (g : A → B) (l : list A) (s : slice B) :
  elems (fold_left (λ out x, if keep x then append out (g x) else out) l s)
  = elems s ++ (g <$> filter (λ x, keep x = true) l).
Proof.
  revert s; induction l as [|x l IH]; intros s; simpl.
  - by rewrite app_nil_r.
  - rewrite IH, filter_cons. destruct (keep x) eqn:Hx.
    + rewrite decide_True by done. by rewrite elems_append, <- app_assoc.
    + by rewrite decide_False by done.
Qed.

(** The hints the first loop gets to. *)
Lemma elem_of_live_hints now s n h :
  (n, h) ∈ live_hints now s
  ↔ ∃ k a, agents s !! k = Some a ∧ AgentRegistration.Name a = n
           ∧ has_live_hint now a h.
Proof.
  unfold live_hints, has_live_hint. rewrite list_elem_of_In, in_flat_map. split.
  - intros ([k a] & Hin%list_elem_of_In%elem_of_range & Hx). simpl in Hx.
    destruct (AgentRegistration.IsActive now a _) eqn:Hact; simpl in Hx; [|done].
    apply list_elem_of_In, list_elem_of_fmap in Hx as (h' & [= -> ->] & Hh).
    apply list_elem_of_filter in Hh as [Hexp Hh]. eauto 10.
  - intros (k & a & Hk & Hn & Hact & Hh & Hexp). subst n. exists (k, a).
    rewrite <- !list_elem_of_In, elem_of_range. split; [done|]. simpl.
    rewrite Hact. simpl. apply list_elem_of_fmap. exists h. split; [done|].
    by apply list_elem_of_filter.
Qed.

End ConflictFacts.

Section ConflictRecords.
Context `{RangeOrder}.

Lemma elem_of_GetFileConflicts now s c :
  c ∈ elems (GetFileConflicts now s)
  ↔ ∃ p, (2 ≤ length (names_on p (live_hints now s)))%nat
         ∧ c = FileConflict.Make p
                 (Some (names_on p (live_hints now s)))
                 (slice_of (beads_on p (live_hints now s))) "".
Proof.
  unfold GetFileConflicts.
  destruct (fold_left note_hint (live_hints now s) (∅, ∅)) as [fa fb] eqn:Hfold.
  assert (∀ p, fa !! p = slice_of (names_on p (live_hints now s))) as Hfa.
  { intros p. rewrite <- noted_agents. by rewrite Hfold. }
  assert (∀ p, fb !! p = slice_of (beads_on p (live_hints now s))) as Hfb.
  { intros p. rewrite <- noted_beads. by rewrite Hfold. }
  rewrite (elems_collect_map (λ x, bool_decide (1 < length x.2)%nat)
             (λ x, FileConflict.Make x.1 (Some x.2) (fb !! x.1) "")).
  simpl. rewrite list_elem_of_fmap. split.
  - intros ([p names] & -> & [Hlen Hin]%list_elem_of_filter). simpl in *.
    apply bool_decide_eq_true in Hlen. apply elem_of_range in Hin.
    rewrite Hfa in Hin. exists p.
    destruct (names_on p (live_hints now s)) eqn:Hn; simplify_eq/=.
    split; [lia|]. by rewrite Hfb.
  - intros (p & Hlen & ->). exists (p, names_on p (live_hints now s)).
    simpl. rewrite Hfb. split; [done|]. apply list_elem_of_filter. simpl.
    split; [apply bool_decide_eq_true; lia|].
    apply elem_of_range. rewrite Hfa.
    destruct (names_on p (live_hints now s)); simpl in *; [lia|done].
Qed.

Lemma filter_flat_map_one {A B} (P : B → Prop) `{!∀ y, Decision (P y)}
    (f : A → list B) (l : list A) (x : A) :
  x ∈ l → (length (filter P (f x)) ≤ length (filter P (flat_map f l)))%nat.
Proof.
  induction l as [|z l IH]; [by intros ?%elem_of_nil|].
  simpl. rewrite filter_app, length_app.
  intros [->|Hx]%elem_of_cons; [lia|]. specialize (IH Hx). lia.
Qed.

Lemma filter_flat_map_two {A B} (P : B → Prop) `{!∀ y, Decision (P y)}
    (f : A → list B) (l : list A) (x y : A) :
  x ≠ y → x ∈ l → y ∈ l →
  (length (filter P (f x)) + length (filter P (f y))
   ≤ length (filter P (flat_map f l)))%nat.
Proof.
  intros Hne. induction l as [|z l IH]; [by intros ?%elem_of_nil|].
  simpl. rewrite filter_app, length_app.
  intros [->|Hx]%elem_of_cons [->|Hy]%elem_of_cons; [done| | |].
  - pose proof (filter_flat_map_one P f l y Hy). lia.
  - pose proof (filter_flat_map_one P f l x Hx). lia.
  - specialize (IH Hx Hy). lia.
Qed.

Lemma live_hints_flat now s :
  live_hints now s = flat_map (hints_seen now) (range_of (agents s)).
Proof. reflexivity. Qed.

Lemma names_on_length p l :
  length (names_on p l) = length (filter (λ x, FileHint.Pattern x.2 = p) l).
Proof. unfold names_on. apply length_fmap. Qed.

Lemma hints_seen_count now k a p :
  AgentRegistration.IsActive now a DefaultInactivityThreshold = true →
  length (filter (λ x : string * FileHint.t, FileHint.Pattern x.2 = p)
                 (hints_seen now (k, a)))
  = length (filter (λ h, FileHint.Pattern h = p ∧ FileHint.IsExpired h now = false)
                   (elems (AgentRegistration.FileHints a))).
Proof.
  intros Hact. unfold hints_seen. simpl. rewrite Hact. simpl.
  induction (elems (AgentRegistration.FileHints a)) as [|h l IH]; [done|].
  rewrite !filter_cons. destruct (decide (FileHint.IsExpired h now = false)) as [He|He].
  - rewrite fmap_cons, filter_cons. simpl.
    destruct (decide (FileHint.Pattern h = p)) as [Hp|Hp].
    + rewrite decide_True by done. simpl. by rewrite IH.
    + rewrite decide_False by tauto. done.
  - rewrite decide_False by tauto. done.
Qed.

Lemma name_filed now s k a h :
  agents s !! k = Some a → has_live_hint now a h →
  AgentRegistration.Name a ∈ names_on (FileHint.Pattern h) (live_hints now s).
Proof.
  intros Hk Hh. unfold names_on. apply list_elem_of_fmap.
  exists (AgentRegistration.Name a, h). split; [done|].
  apply list_elem_of_filter. split; [done|].
  apply elem_of_live_hints. eauto.
Qed.

End ConflictRecords.

Section ConflictPlaces.
Context `{RangeOrder}.

Lemma filter_one_place {A} (P : A → Prop) `{!∀ x, Decision (P x)} (l : list A) :
  (1 ≤ length (filter P l))%nat → ∃ i x, l !! i = Some x ∧ P x.
Proof.
  intros Hlen. destruct (filter P l) as [|x l'] eqn:Hf; [simpl in Hlen; lia|].
  assert (x ∈ filter P l) as [HP Hin]%list_elem_of_filter by (rewrite Hf; apply list_elem_of_here).
  apply list_elem_of_lookup_1 in Hin as [i Hi]. eauto.
Qed.

Lemma filter_two_places {A} (P : A → Prop) `{!∀ x, Decision (P x)} (l : list A) :
  (2 ≤ length (filter P l))%nat →
  ∃ i j x y, i ≠ j ∧ l !! i = Some x ∧ l !! j = Some y ∧ P x ∧ P y.
Proof.
  induction l as [|z l IH]; [simpl; lia|].
  rewrite filter_cons. destruct (decide (P z)) as [Hz|Hz]; simpl.
  - intros Hlen. destruct (filter_one_place P l) as (j & y & Hj & Hy); [lia|].
    exists 0%nat, (S j), z, y. by split_and!.
  - intros (i & j & x & y & Hne & Hi & Hj & Hx & Hy)%IH.
    exists (S i), (S j), x, y. split_and!; try done. congruence.
Qed.

Lemma flat_map_one_place {A B} (P : B → Prop) `{!∀ y, Decision (P y)}
    (f : A → list B) (l : list A) :
  (1 ≤ length (filter P (flat_map f l)))%nat →
  ∃ i x, l !! i = Some x ∧ (1 ≤ length (filter P (f x)))%nat.
Proof.
  induction l as [|z l IH]; [simpl; lia|].
  simpl. rewrite filter_app, length_app. intros Hlen.
  destruct (decide (1 ≤ length (filter P (f z)))%nat) as [Hz|Hz].
  - by exists 0%nat, z.
  - destruct IH as (i & x & Hi & Hx); [lia|]. by exists (S i), x.
Qed.

Lemma flat_map_two_places {A B} (P : B → Prop) `{!∀ y, Decision (P y)}
    (f : A → list B) (l : list A) :
  (2 ≤ length (filter P (flat_map f l)))%nat →
  (∃ i x, l !! i = Some x ∧ (2 ≤ length (filter P (f x)))%nat)
  ∨ (∃ i j x y, i ≠ j ∧ l !! i = Some x ∧ l !! j = Some y
                ∧ (1 ≤ length (filter P (f x)))%nat
                ∧ (1 ≤ length (filter P (f y)))%nat).
Proof.
  induction l as [|z l IH]; [simpl; lia|].
  simpl. rewrite filter_app, length_app. intros Hlen.
  destruct (decide (2 ≤ length (filter P (f z)))%nat) as [Hz|Hz].
  { left. by exists 0%nat, z. }
  destruct (decide (1 ≤ length (filter P (f z)))%nat) as [Hz1|Hz1].
  - destruct (flat_map_one_place P f l) as (j & y & Hj & Hy); [lia|].
    right. exists 0%nat, (S j), z, y. by split_and!.
  - destruct IH as [(i & x & Hi & Hx)|(i & j & x & y & Hne & Hi & Hj & Hx & Hy)]; [lia| |].
    + left. by exists (S i), x.
    + right. exists (S i), (S j), x, y. split_and!; try done. congruence.
Qed.

(** The first loop gets to the hints of active agents only. *)
Lemma hints_seen_active now k a p :
  (1 ≤ length (filter (λ x : string * FileHint.t, FileHint.Pattern x.2 = p)
                      (hints_seen now (k, a))))%nat →
  AgentRegistration.IsActive now a DefaultInactivityThreshold = true.
Proof.
  unfold hints_seen. simpl.
  destruct (AgentRegistration.IsActive now a DefaultInactivityThreshold); [done|].
  simpl. lia.
Qed.

(** Two entries or more under a pattern come from two places of the
    registry. *)
Lemma filed_twice now s p :
  (2 ≤ length (names_on p (live_hints now s)))%nat
  ↔ ∃ k1 i1 k2 i2, (k1, i1) ≠ (k2, i2)
                   ∧ live_hint_at now s p k1 i1 ∧ live_hint_at now s p k2 i2.
Proof.
  rewrite names_on_length, live_hints_flat. split.
  - intros [(i & [k a] & Hi & Hlen)|(i & j & [k1 a1] & [k2 a2] & Hne & Hi & Hj & H1 & H2)]
      %flat_map_two_places.
    + assert (agents s !! k = Some a) as Hk
        by (apply elem_of_range; by eapply list_elem_of_lookup_2).
      assert (AgentRegistration.IsActive now a DefaultInactivityThreshold = true) as Hact
        by (apply (hints_seen_active now k a p); lia).
      rewrite hints_seen_count in Hlen by done.
      apply filter_two_places in Hlen
        as (i1 & i2 & h1 & h2 & Hne & Hi1 & Hi2 & [Hp1 He1] & [Hp2 He2]).
      exists k, i1, k, i2. split; [congruence|].
      split; [by exists a, h1|by exists a, h2].
    + assert (agents s !! k1 = Some a1) as Hk1
        by (apply elem_of_range; by eapply list_elem_of_lookup_2).
      assert (agents s !! k2 = Some a2) as Hk2
        by (apply elem_of_range; by eapply list_elem_of_lookup_2).
      assert (k1 ≠ k2) as Hkne.
      { intros ->. apply Hne.
        apply (NoDup_lookup _ i j k2 (NoDup_range_keys (agents s)));
          rewrite list_lookup_fmap; [by rewrite Hi|by rewrite Hj]. }
      pose proof (hints_seen_active now k1 a1 p H1) as Hact1.
      pose proof (hints_seen_active now k2 a2 p H2) as Hact2.
      rewrite hints_seen_count in H1, H2 by done.
      apply filter_one_place in H1 as (i1 & h1 & Hi1 & Hp1 & He1).
      apply filter_one_place in H2 as (i2 & h2 & Hi2 & Hp2 & He2).
      exists k1, i1, k2, i2. split; [congruence|].
      split; [by exists a1, h1|by exists a2, h2].
  - intros (k1 & i1 & k2 & i2 & Hne
            & (a1 & h1 & Hk1 & Hact1 & Hi1 & He1 & Hp1)
            & (a2 & h2 & Hk2 & Hact2 & Hi2 & He2 & Hp2)).
    destruct (decide (k1 = k2)) as [->|Hkne].
    + assert (a2 = a1) as -> by congruence.
      pose proof (filter_flat_map_one (λ x : string * FileHint.t, FileHint.Pattern x.2 = p)
                    (hints_seen now) (range_of (agents s)) (k2, a1)) as Hone.
      rewrite hints_seen_count in Hone by done.
      rewrite elem_of_range in Hone. specialize (Hone Hk1).
      destruct (decide (length (filter (λ h, FileHint.Pattern h = p
                                             ∧ FileHint.IsExpired h now = false)
                                       (elems (AgentRegistration.FileHints a1))) ≤ 1)%nat)
        as [Hle|Hgt]; [|lia].
      rewrite filter_at_most_one in Hle.
      destruct Hne. f_equal. by apply (Hle i1 i2 h1 h2).
    + pose proof (filter_flat_map_two (λ x : string * FileHint.t, FileHint.Pattern x.2 = p)
                    (hints_seen now) (range_of (agents s)) (k1, a1) (k2, a2)) as Hsum.
      rewrite !hints_seen_count in Hsum by done.
      assert (0 < length (filter (λ h, FileHint.Pattern h = p
                                       ∧ FileHint.IsExpired h now = false)
                                 (elems (AgentRegistration.FileHints a1))))%nat.
      { apply filter_inhabited_iff. exists h1. split; [by eapply list_elem_of_lookup_2|done]. }
      assert (0 < length (filter (λ h, FileHint.Pattern h = p
                                       ∧ FileHint.IsExpired h now = false)
                                 (elems (AgentRegistration.FileHints a2))))%nat.
      { apply filter_inhabited_iff. exists h2. split; [by eapply list_elem_of_lookup_2|done]. }
      specialize (Hsum ltac:(congruence)).
      rewrite !elem_of_range in Hsum. specialize (Hsum Hk1 Hk2). lia.
Qed.

End ConflictPlaces.

(** [GetFileConflicts] returns a record for a pattern exactly when the
    registry holds, at two different places (two agents, or two places of
    one agent's hint list), unexpired hints on the pattern held by agents
    that are active: the count is one of hints, not of agents.  A record
    names exactly the active agents that hold an unexpired hint on its
    pattern, in a list of two names or more, and lists exactly the work
    items, other than the empty one, of those hints; its resolution is
    empty; no two records are for the same pattern. *)
Theorem GetFileConflicts_spec `{RangeOrder} (now : Time) (s : Store) :
  (∀ p, (∃ c, c ∈ elems (GetFileConflicts now s) ∧ FileConflict.File c = p)
        ↔ ∃ k1 i1 k2 i2, (k1, i1) ≠ (k2, i2)
                         ∧ live_hint_at now s p k1 i1 ∧ live_hint_at now s p k2 i2)
  ∧ (∀ c, c ∈ elems (GetFileConflicts now s) →
       (∀ n, n ∈ elems (FileConflict.Agents c)
             ↔ ∃ k a h, agents s !! k = Some a ∧ AgentRegistration.Name a = n
                        ∧ has_live_hint now a h
                        ∧ FileHint.Pattern h = FileConflict.File c)
       ∧ (∀ b, b ∈ elems (FileConflict.BeadIDs c)
               ↔ b ≠ ""
                 ∧ ∃ k a h, agents s !! k = Some a ∧ has_live_hint now a h
                            ∧ FileHint.Pattern h = FileConflict.File c
                            ∧ FileHint.BeadID h = b)
       ∧ (2 ≤ length (elems (FileConflict.Agents c)))%nat
       ∧ FileConflict.Resolution c = "")
  ∧ NoDup (FileConflict.File <$> elems (GetFileConflicts now s)).
Proof.
  split_and!.
  - intros p. rewrite <- filed_twice. split.
    + by intros (c & (p' & Hlen & ->)%elem_of_GetFileConflicts & <-).
    + intros Hlen. eexists. split; [apply elem_of_GetFileConflicts; by exists p|done].
  - intros c (p & Hlen & ->)%elem_of_GetFileConflicts. cbn [FileConflict.File
      FileConflict.Agents FileConflict.BeadIDs FileConflict.Resolution].
    split_and!; [| |done|done].
    + intros n. rewrite elems_Some. unfold names_on. rewrite list_elem_of_fmap. split.
      * intros ([n' h] & -> & [Hp Hin]%list_elem_of_filter).
        apply elem_of_live_hints in Hin as (k & a & Hk & Hn & Hh). eauto 10.
      * intros (k & a & h & Hk & Hn & Hh & Hp). exists (n, h). split; [done|].
        apply list_elem_of_filter. split; [done|]. apply elem_of_live_hints. eauto.
    + intros b.
      assert (elems (slice_of (beads_on p (live_hints now s)))
              = beads_on p (live_hints now s)) as -> by by destruct (beads_on _ _).
      unfold beads_on. rewrite list_elem_of_fmap. split.
      * intros ([n h] & -> & [[Hp Hb] Hin]%list_elem_of_filter).
        apply elem_of_live_hints in Hin as (k & a & Hk & Hn & Hh). split; [done|]. eauto 10.
      * intros (Hb & k & a & h & Hk & Hh & Hp & <-).
        exists (AgentRegistration.Name a, h). split; [done|].
        apply list_elem_of_filter. split; [done|]. apply elem_of_live_hints. eauto.
  - unfold GetFileConflicts.
    destruct (fold_left note_hint (live_hints now s) (∅, ∅)) as [fa fb].
    rewrite (elems_collect_map (λ x, bool_decide (1 < length x.2)%nat)
               (λ x, FileConflict.Make x.1 (Some x.2) (fb !! x.1) "")).
    simpl. rewrite <- list_fmap_compose.
    eapply (NoDup_fmap_2_strong).
    2: { apply NoDup_filter, NoDup_fmap_1 with (f := fst), NoDup_range_keys. }
    intros [p1 n1] [p2 n2] [_ H1%elem_of_range]%list_elem_of_filter
           [_ H2%elem_of_range]%list_elem_of_filter. simpl. intros <-.
    congruence.
Qed.

(** Two different active agents that each hold an unexpired hint on a
    pattern are reported: [GetFileConflicts] returns a record for the
    pattern that names both. *)
Theorem conflict_between_two_agents `{RangeOrder} (now : Time) (s : Store)
    (k1 k2 : string) (a1 a2 : AgentRegistration.t) (h1 h2 : FileHint.t) :
  agents s !! k1 = Some a1 → agents s !! k2 = Some a2 → k1 ≠ k2 →
  has_live_hint now a1 h1 → has_live_hint now a2 h2 →
  FileHint.Pattern h1 = FileHint.Pattern h2 →
  ∃ c, c ∈ elems (GetFileConflicts now s)
       ∧ FileConflict.File c = FileHint.Pattern h1
       ∧ AgentRegistration.Name a1 ∈ elems (FileConflict.Agents c)
       ∧ AgentRegistration.Name a2 ∈ elems (FileConflict.Agents c).
Proof.
  intros Hk1 Hk2 Hne Hh1 Hh2 Hp.
  set (p := FileHint.Pattern h1).
  exists (FileConflict.Make p (Some (names_on p (live_hints now s)))
            (slice_of (beads_on p (live_hints now s))) "").
  split; [|split; [done|]].
  - apply elem_of_GetFileConflicts. exists p. split; [|done].
    rewrite names_on_length, live_hints_flat.
    pose proof (filter_flat_map_two (λ x : string * FileHint.t, FileHint.Pattern x.2 = p)
                  (hints_seen now) (range_of (agents s)) (k1, a1) (k2, a2)) as Hsum.
    destruct Hh1 as (Hact1 & Hin1 & Hexp1). destruct Hh2 as (Hact2 & Hin2 & Hexp2).
    rewrite !hints_seen_count in Hsum by done.
    assert (0 < length (filter (λ h, FileHint.Pattern h = p
                                     ∧ FileHint.IsExpired h now = false)
                               (elems (AgentRegistration.FileHints a1))))%nat.
    { apply filter_inhabited_iff. by exists h1. }
    assert (0 < length (filter (λ h, FileHint.Pattern h = p
                                     ∧ FileHint.IsExpired h now = false)
                               (elems (AgentRegistration.FileHints a2))))%nat.
    { apply filter_inhabited_iff. exists h2. by rewrite <- Hp. }
    specialize (Hsum ltac:(congruence)).
    rewrite !elem_of_range in Hsum. specialize (Hsum Hk1 Hk2). lia.
  - simpl. split.
    + by apply (name_filed now s k1 a1 h1).
    + unfold p. rewrite Hp. by apply (name_filed now s k2 a2 h2).
Qed.

(** One active agent is enough: an agent that holds two unexpired hints
    on the same pattern, at two places of its hint list, is reported as a
    conflict on that pattern, whether or not any other agent has a hint on
    it. *)
Theorem conflict_with_oneself `{RangeOrder} (now : Time) (s : Store) (k : string)
    (a : AgentRegistration.t) (i j : nat) (h1 h2 : FileHint.t) :
  agents s !! k = Some a →
  AgentRegistration.IsActive now a DefaultInactivityThreshold = true →
  elems (AgentRegistration.FileHints a) !! i = Some h1 →
  elems (AgentRegistration.FileHints a) !! j = Some h2 →
  i ≠ j →
  FileHint.IsExpired h1 now = false → FileHint.IsExpired h2 now = false →
  FileHint.Pattern h1 = FileHint.Pattern h2 →
  ∃ c, c ∈ elems (GetFileConflicts now s)
       ∧ FileConflict.File c = FileHint.Pattern h1
       ∧ AgentRegistration.Name a ∈ elems (FileConflict.Agents c).
Proof.
  intros Hk Hact Hi Hj Hne He1 He2 Hp.
  set (p := FileHint.Pattern h1).
  exists (FileConflict.Make p (Some (names_on p (live_hints now s)))
            (slice_of (beads_on p (live_hints now s))) "").
  split; [|split; [done|]].
  - apply elem_of_GetFileConflicts. exists p. split; [|done].
    rewrite names_on_length, live_hints_flat.
    pose proof (filter_flat_map_one (λ x : string * FileHint.t, FileHint.Pattern x.2 = p)
                  (hints_seen now) (range_of (agents s)) (k, a)) as Hone.
    rewrite hints_seen_count in Hone by done.
    rewrite elem_of_range in Hone. specialize (Hone Hk).
    destruct (decide (length (filter (λ h, FileHint.Pattern h = p
                                           ∧ FileHint.IsExpired h now = false)
                                     (elems (AgentRegistration.FileHints a))) ≤ 1)%nat)
      as [Hle|Hgt]; [|lia].
    rewrite filter_at_most_one in Hle.
    destruct Hne. apply (Hle i j h1 h2); try done; by rewrite <- Hp.
  - simpl. apply (name_filed now s k a h1); [done|].
    split; [done|]. split; [by eapply list_elem_of_lookup_2|done].
Qed.

(** Hints that have expired and agents that are not active do not count:
    every name in a conflict record is the name of a registered agent that
    is active and holds an unexpired hint on the pattern of the record. *)
Theorem conflict_names_are_live `{RangeOrder} (now : Time) (s : Store)
    (c : FileConflict.t) (n : string) :
  c ∈ elems (GetFileConflicts now s) → n ∈ elems (FileConflict.Agents c) →
  ∃ k a h, agents s !! k = Some a ∧ AgentRegistration.Name a = n
           ∧ has_live_hint now a h ∧ FileHint.Pattern h = FileConflict.File c.
Proof.
  intros (p & _ & ->)%elem_of_GetFileConflicts. simpl. unfold names_on.
  intros ([n' h] & -> & [Hp Hin]%list_elem_of_filter)%list_elem_of_fmap.
  apply elem_of_live_hints in Hin as (k & a & Hk & Hn & Hh). eauto 10.
Qed.

Section Conflict_witness.
#[local] Existing Instance canonical_order.

Lemma conflict_between_two_agents_witness :
  ∃ c, c ∈ elems (GetFileConflicts (Sample.t0 + time.Minute) Sample.hinted)
       ∧ FileConflict.File c = "main.go"
       ∧ "alice" ∈ elems (FileConflict.Agents c)
       ∧ "bob" ∈ elems (FileConflict.Agents c).
Proof.
  apply (conflict_between_two_agents (Sample.t0 + time.Minute) Sample.hinted
           "alice" "bob" Sample.hinted_alice Sample.hinted_bob
           (Sample.hint_of "alice" "main.go" "bv-1")
           (Sample.hint_of "bob" "main.go" "bv-2")).
  - by_vm.
  - by_vm.
  - done.
  - split; [by_vm|]. split; [apply list_elem_of_here|by_vm].
  - split; [by_vm|]. split; [apply list_elem_of_here|by_vm].
  - done.
Defined.

Lemma conflict_with_oneself_witness :
  ∃ c, c ∈ elems (GetFileConflicts (Sample.t0 + time.Minute) Sample.hinted)
       ∧ FileConflict.File c = "go.mod"
       ∧ "bob" ∈ elems (FileConflict.Agents c).
Proof.
  apply (conflict_with_oneself (Sample.t0 + time.Minute) Sample.hinted "bob"
           Sample.hinted_bob 1%nat 2%nat
           (Sample.hint_of "bob" "go.mod" "") (Sample.hint_of "bob" "go.mod" "")).
  - by_vm.
  - by_vm.
  - done.
  - done.
  - done.
  - by_vm.
  - by_vm.
  - done.
Defined.

Lemma conflict_names_are_live_witness :
  ∃ k a h, agents Sample.hinted !! k = Some a ∧ AgentRegistration.Name a = "bob"
           ∧ has_live_hint (Sample.t0 + time.Minute) a h
           ∧ FileHint.Pattern h = "go.mod".
Proof.
  apply (conflict_names_are_live (Sample.t0 + time.Minute) Sample.hinted
           (FileConflict.Make "go.mod" (Some ["bob"; "bob"]) None "") "bob").
  - assert (GetFileConflicts (Sample.t0 + time.Minute) Sample.hinted
            = Some [FileConflict.Make "go.mod" (Some ["bob"; "bob"]) None "";
                    FileConflict.Make "main.go" (Some ["alice"; "bob"])
                      (Some ["bv-1"; "bv-2"]) ""]) as -> by by_vm.
    apply list_elem_of_here.
  - simpl. apply list_elem_of_here.
Defined.

End Conflict_witness.

(** ** The snapshot file *)

Section ScannerFacts.

Lemma is_newline_true b : is_newline b = true ↔ b = x0a.
Proof.
  unfold is_newline. split; [apply byte_dec_bl|]. intros ->. reflexivity.
Qed.

Lemma is_newline_false b : is_newline b = false ↔ b ≠ x0a.
Proof. rewrite <- is_newline_true. by destruct (is_newline b). Qed.

Lemma fits_buffer_true cur :
  fits_buffer cur = true ↔ Z.of_nat (length cur) < MaxScanTokenSize.
Proof. unfold fits_buffer. by rewrite bool_decide_eq_true. Qed.

(** The scanner on a line that holds no newline, followed by a newline. *)
Lemma scan_line (line rest cur : list byte) :
  x0a ∉ line →
  scan_from (line ++ x0a :: rest) cur
  = if fits_buffer (reverse line ++ cur)
    then (token_of (reverse line ++ cur) :: (scan_from rest []).1,
          (scan_from rest []).2)
    else ([], true).
Proof.
  revert cur. induction line as [|b line IH]; intros cur Hnl.
  - simpl. by destruct (fits_buffer cur).
  - apply not_elem_of_cons in Hnl as [Hb Hnl]. simpl.
    rewrite (proj2 (is_newline_false b)) by done.
    rewrite IH by done. by rewrite reverse_cons, <- app_assoc.
Qed.

(** Once the scanner is going to stop on a line too long, nothing in front
    of that line makes it succeed. *)
Lemma scan_error_later (data rest cur : list byte) :
  (scan_from rest []).2 = true → (scan_from (data ++ x0a :: rest) cur).2 = true.
Proof.
  intros Hrest. revert cur. induction data as [|b data IH]; intros cur; simpl.
  - by destruct (fits_buffer cur).
  - destruct (is_newline b); [|apply IH].
    destruct (fits_buffer cur); [apply IH|done].
Qed.

Lemma token_of_reverse (line : list byte) :
  last line ≠ Some x0d → dropCR line = line.
Proof.
  unfold dropCR. rewrite <- head_reverse. intros Hlast.
  rewrite <- (reverse_involutive line) at 2.
  destruct (reverse line) as [|b r]; [done|].
  destruct b; try reflexivity. by destruct Hlast.
Qed.

End ScannerFacts.

Section PersistenceFacts.
Context `{RangeOrder} `{Platform}.

(** What the loop of [Load] does with the lines [Save] has written for
    registrations that round-trip. *)
Lemma save_load_lines (l : list (string * AgentRegistration.t)) :
  (∀ kv, kv ∈ l → round_trips kv.2) →
  ∃ out tokens,
    encode_all l = inl out ∧ Scan out = (tokens, false)
    ∧ ∀ n m, load_lines tokens n m
             = (fold_left (λ m kv, <[AgentRegistration.Name kv.2 := kv.2]> m) l m, None).
Proof.
  induction l as [|kv l IH]; intros Hall.
  - exists [], []. by split_and!.
  - destruct IH as (out & tokens & Hout & Hscan & Hload).
    { intros kv' Hin. apply Hall. by right. }
    destruct (Hall kv) as (line & Hm & Hne & [Hnl Hfit] & Hcr & Hu); [left|].
    exists (line ++ x0a :: out), (line :: tokens). split_and!.
    + simpl. by rewrite Hm, Hout.
    + unfold Scan in *. rewrite scan_line by done. rewrite app_nil_r.
      rewrite (proj2 (fits_buffer_true _)) by by rewrite length_reverse.
      rewrite Hscan. simpl. f_equal. f_equal. by apply token_of_reverse.
    + intros n m. simpl. destruct line as [|b line]; [done|].
      rewrite Hu. apply Hload.
Qed.

(** Filing every entry of a registry under the name of its registration
    gives the registry back, when its keys are those names. *)
Lemma reload_map (m : gmap string AgentRegistration.t)
    (l : list (string * AgentRegistration.t)) :
  l ≡ₚ map_to_list m →
  (∀ k a, m !! k = Some a → AgentRegistration.Name a = k) →
  fold_left (λ m kv, <[AgentRegistration.Name kv.2 := kv.2]> m) l ∅ = m.
Proof.
  intros Hperm Hwf.
  assert (∀ m0, fold_left (λ m kv, <[AgentRegistration.Name kv.2 := kv.2]> m) l m0
                = fold_left (λ m (kv : string * AgentRegistration.t),
                               <[kv.1 := kv.2]> m) l m0) as ->.
  { assert (∀ kv, kv ∈ l → AgentRegistration.Name kv.2 = kv.1) as Hnames.
    { intros [k a]. rewrite Hperm, elem_of_map_to_list. apply Hwf. }
    clear Hperm. induction l as [|kv l IH]; intros m0; [done|]. simpl.
    rewrite (Hnames kv) by left. apply IH. intros kv' Hin. apply Hnames. by right. }
  rewrite <- (fold_left_rev_right (λ (kv : string * AgentRegistration.t) m,
                                     <[kv.1 := kv.2]> m)).
  symmetry. apply (list_to_map_flip m (rev l)).
  by rewrite <- Permutation_rev.
Qed.

(** The file [Save] writes holds a line too long for the scanner as soon
    as one registration is written as such a line. *)
Lemma encode_all_too_long (l : list (string * AgentRegistration.t)) out kv line :
  encode_all l = inl out → kv ∈ l →
  json_Marshal kv.2 = Some line → x0a ∉ line →
  MaxScanTokenSize ≤ Z.of_nat (length line) →
  (Scan out).2 = true.
Proof.
  intros Hout Hin Hm Hnl Hlong. revert out Hout.
  induction l as [|kv0 l IH]; intros out Hout; [by apply elem_of_nil in Hin|].
  simpl in Hout.
  destruct (json_Marshal kv0.2) as [line0|] eqn:Hm0; [|done].
  destruct (encode_all l) as [out'|] eqn:Hout'; [|done]. simplify_eq.
  apply elem_of_cons in Hin as [->|Hin].
  - assert (line0 = line) as -> by congruence.
    unfold Scan. rewrite scan_line by done. rewrite app_nil_r.
    destruct (fits_buffer (reverse line)) eqn:Hfit; [|done].
    apply fits_buffer_true in Hfit. rewrite length_reverse in Hfit. lia.
  - unfold Scan. apply scan_error_later. by apply IH.
Qed.

(** The loop of [Save] when every write succeeds. *)
Lemma encode_each_reliable (l : list (string * AgentRegistration.t)) (file : list byte) :
  encode_each reliable l file
  = match encode_all l with
    | inl out => (file ++ out, None)
    | inr name => ((encode_each reliable l file).1, Some name)
    end.
Proof.
  revert file. induction l as [|kv l IH]; intros file; simpl.
  - by rewrite app_nil_r.
  - destruct (json_Marshal kv.2) as [line|]; [|done].
    rewrite IH. destruct (encode_all l) as [out|name]; [|done].
    by rewrite <- !app_assoc.
Qed.

Lemma Save_reliable (s : Store) (fs : FS) :
  Save s fs
  = let path := AgentsFilePath s in
    let tmpPath := (path +:+ ".tmp")%string in
    match encode_all (range_of (agents s)) with
    | inl out => (<[path := out]> (delete tmpPath (<[tmpPath := out]> (<[tmpPath := []]> fs))),
                  None)
    | inr name =>
        (delete tmpPath
           (<[tmpPath := (encode_each reliable (range_of (agents s)) []).1]>
              (<[tmpPath := []]> fs)),
         Some (ErrEncode name))
    end.
Proof.
  unfold Save, SaveWith. simpl. rewrite encode_each_reliable.
  by destruct (encode_all (range_of (agents s))).
Qed.

Lemma tmp_path_differs (path : string) : (path +:+ ".tmp")%string ≠ path.
Proof.
  induction path as [|c path IH]; [done|]. simpl. intros [= Heq]. by apply IH.
Qed.

End PersistenceFacts.

(** Saving a registry and loading the file into a fresh store of the same
    directory gives the registry back, the empty one included, provided the
    keys of the registry are the names of its registrations and every
    registration round-trips through one line of the file. *)
Theorem Save_then_Load `{RangeOrder} `{Platform} (s : Store) (fs : FS) :
  store_wf s →
  (∀ k a, agents s !! k = Some a → round_trips a) →
  (Save s fs).2 = None
  ∧ Load (NewStore (beadsDir s)) (Save s fs).1 = (s, None).
Proof.
  intros Hwf Hrt.
  destruct (save_load_lines (range_of (agents s))) as (out & tokens & Hout & Hscan & Hload).
  { intros [k a] Hin%elem_of_range. by apply (Hrt k). }
  rewrite Save_reliable, Hout. simpl. split; [done|].
  unfold Load. simpl.
  change (AgentsFilePath (set_agents ∅ (NewStore (beadsDir s)))) with (AgentsFilePath s).
  rewrite lookup_insert_eq, Hscan. simpl. rewrite Hload.
  rewrite (reload_map (agents s)); [by destruct s|apply range_of_perm|done].
Qed.

Section Roundtrip_witness.
#[local] Existing Instance canonical_order.
#[local] Existing Instance Demo.platform.

Lemma Save_then_Load_witness :
  Load (NewStore ".beads") (Save Sample.alice_holds ∅).1 = (Sample.alice_holds, None)
  ∧ Load (NewStore ".beads") (Save Sample.empty ∅).1 = (Sample.empty, None).
Proof.
  split.
  - apply (Save_then_Load Sample.alice_holds ∅).
    + assert (Sample.alice_holds
              = (run Sample.t0
                   (run Sample.t0
                      (run Sample.t0 (NewStore ".beads") (CallRegister Sample.alice)).1
                      (CallRegister Sample.bob)).1
                   (CallClaim "alice" (Sample.claim_of "alice" "bv-42"))).1)
        as -> by by_vm.
      repeat first [ apply run_store_wf | apply store_wf_NewStore ].
    + assert (agents Sample.alice_holds
              = <["alice" := Sample.alice_with [Sample.claim_of "alice" "bv-42"]]>
                  (<["bob" := Sample.bob]> ∅)) as -> by by_vm.
      intros k a [[_ <-]|[_ [[_ <-]|[_ Hk]]%lookup_insert_Some]]%lookup_insert_Some.
      * eexists. split; [reflexivity|]. split; [done|]. split; [split|split].
        -- by_evaluation.
        -- by vm_compute.
        -- by vm_compute.
        -- by_vm.
      * eexists. split; [reflexivity|]. split; [done|]. split; [split|split].
        -- by_evaluation.
        -- by vm_compute.
        -- by vm_compute.
        -- by_vm.
      * by rewrite lookup_empty in Hk.
  - apply (Save_then_Load Sample.empty ∅); [apply store_wf_NewStore|].
    intros k a Hk. simpl in Hk. by rewrite lookup_empty in Hk.
Defined.

End Roundtrip_witness.

Section PersistenceOutcomes.
Context `{RangeOrder} `{Platform}.

Lemma encode_all_total (l : list (string * AgentRegistration.t)) :
  (∀ kv, kv ∈ l → is_Some (json_Marshal kv.2)) → ∃ out, encode_all l = inl out.
Proof.
  induction l as [|kv l IH]; intros Hall; [by eexists|]. simpl.
  destruct (Hall kv) as [line ->]; [left|].
  destruct IH as [out ->]; [|by eexists].
  intros kv' Hin. apply Hall. by right.
Qed.

Lemma encode_all_error (l : list (string * AgentRegistration.t)) name :
  encode_all l = inr name →
  ∃ kv, kv ∈ l ∧ json_Marshal kv.2 = None ∧ name = AgentRegistration.Name kv.2.
Proof.
  induction l as [|kv l IH]; [done|]. simpl.
  destruct (json_Marshal kv.2) eqn:Hm.
  - destruct (encode_all l); [done|]. intros [= <-].
    destruct IH as (kv' & Hin & ?); [done|]. exists kv'. split; [by right|done].
  - intros [= <-]. exists kv. split; [left|done].
Qed.

(** The loop of [Load] stops at the first line that is not empty and does
    not parse, and reports its number. *)
Lemma load_lines_stops (good : list (list byte)) (bad : list byte)
    (more : list (list byte)) n m :
  Forall (λ l, l = [] ∨ is_Some (json_Unmarshal l)) good →
  bad ≠ [] → json_Unmarshal bad = None →
  (load_lines (good ++ bad :: more) n m).2 = Some (ErrParse (S (n + length good))).
Proof.
  intros Hgood Hne Hbad. revert n m.
  induction Hgood as [|l good Hl _ IH]; intros n m; simpl.
  - destruct bad; [done|]. rewrite Hbad. simpl. do 2 f_equal. lia.
  - destruct Hl as [->|[a Ha]].
    + rewrite IH. do 2 f_equal. lia.
    + destruct l; [rewrite IH; do 2 f_equal; lia|].
      rewrite Ha, IH. do 2 f_equal. lia.
Qed.

Lemma load_lines_wf (tokens : list (list byte)) n m :
  (∀ k a, m !! k = Some a → AgentRegistration.Name a = k) →
  ∀ k a, (load_lines tokens n m).1 !! k = Some a → AgentRegistration.Name a = k.
Proof.
  revert n m. induction tokens as [|l tokens IH]; intros n m Hm; [done|]. simpl.
  destruct l as [|b l]; [by apply IH|].
  destruct (json_Unmarshal (b :: l)) as [a0|]; [|done].
  apply IH. intros k a. rewrite lookup_insert. case_decide; [|by apply Hm].
  by intros [= <-].
Qed.

(** The scanner on a file that starts with scannable lines. *)
Lemma Scan_unlines_app (lines : list (list byte)) (rest : list byte) :
  Forall scannable lines →
  Scan (unlines lines ++ rest) = ((dropCR <$> lines) ++ (Scan rest).1, (Scan rest).2).
Proof.
  unfold Scan, unlines. induction lines as [|line lines IH].
  - intros _. simpl. by destruct (scan_from rest []).
  - intros [[Hnl Hfit] Hrest]%Forall_cons.
    rewrite !fmap_cons. cbn [concat]. rewrite <- !app_assoc. cbn [app].
    rewrite scan_line by done.
    rewrite app_nil_r, (proj2 (fits_buffer_true _)) by by rewrite length_reverse.
    by rewrite (IH Hrest).
Qed.

End PersistenceOutcomes.

(** A registry with a registration that is written as a line of 64 KiB or
    more cannot be loaded again: [Save] succeeds, and [Load] of the file it
    wrote returns an error, because the scanner gives up on the line. *)
Theorem Load_long_line `{RangeOrder} `{Platform} (s : Store) (fs : FS) (k : string)
    (a : AgentRegistration.t) (line : list byte) :
  (∀ k' a', agents s !! k' = Some a' → is_Some (json_Marshal a')) →
  agents s !! k = Some a → json_Marshal a = Some line →
  x0a ∉ line → MaxScanTokenSize ≤ Z.of_nat (length line) →
  (Save s fs).2 = None
  ∧ ∃ e, (Load (NewStore (beadsDir s)) (Save s fs).1).2 = Some e.
Proof.
  intros Hall Hk Hm Hnl Hlong.
  destruct (encode_all_total (range_of (agents s))) as [out Hout].
  { intros [k' a'] Hin%elem_of_range. by apply (Hall k'). }
  rewrite Save_reliable, Hout. simpl. split; [done|].
  unfold Load. simpl.
  change (AgentsFilePath (set_agents ∅ (NewStore (beadsDir s)))) with (AgentsFilePath s).
  rewrite lookup_insert_eq.
  assert ((Scan out).2 = true) as Herr.
  { apply (encode_all_too_long (range_of (agents s)) out (k, a) line); try done.
    by apply elem_of_range. }
  destruct (load_lines (Scan out).1 0 ∅) as [m [e|]]; simpl; [by eexists|].
  rewrite Herr. by eexists.
Qed.

Section Long_line_witness.
#[local] Existing Instance canonical_order.
#[local] Existing Instance Demo.padded.

Lemma digits_no_newline p : x0a ∉ Demo.digits p.
Proof.
  induction p as [p IH|p IH|]; simpl; rewrite ?not_elem_of_cons;
    [split; [done|exact IH]|split; [done|exact IH]|apply not_elem_of_nil].
Qed.

Lemma Load_long_line_witness :
  let s := store_agent "alice" Sample.alice (NewStore ".beads") in
  (Save s ∅).2 = None
  ∧ ∃ e, (Load (NewStore ".beads") (Save s ∅).1).2 = Some e.
Proof.
  intros s.
  apply (Load_long_line s ∅ "alice" Sample.alice
           (Demo.line_of Sample.alice ++ Demo.padding)).
  - intros k' a' Hk'. by eexists.
  - apply lookup_insert_eq.
  - reflexivity.
  - unfold Demo.line_of. rewrite not_elem_of_app, not_elem_of_cons.
    split; [split; [done|apply digits_no_newline]|].
    unfold Demo.padding. intros [Hin _]%elem_of_replicate. done.
  - rewrite length_app. unfold Demo.padding. rewrite length_replicate. lia.
Defined.

End Long_line_witness.

Section SaveFacts.
Context `{RangeOrder} `{Platform}.

(** The loop of [Save] fails on an agent that cannot be marshalled or
    whose line cannot be written. *)
Lemma encode_each_error os (l : list (string * AgentRegistration.t)) file out name :
  encode_each os l file = (out, Some name) →
  ∃ kv, kv ∈ l ∧ name = AgentRegistration.Name kv.2
        ∧ (json_Marshal kv.2 = None
           ∨ ∃ line written n, json_Marshal kv.2 = Some line
                               ∧ Write_fails os written (line ++ [x0a]) = Some n).
Proof.
  revert file. induction l as [|kv l IH]; intros file; simpl; [done|].
  destruct (json_Marshal kv.2) as [line|] eqn:Hm.
  - destruct (Write_fails os file (line ++ [x0a])) as [n|] eqn:Hw.
    + intros [= <- <-]. exists kv. split; [apply list_elem_of_here|].
      split; [done|]. right. eauto.
    + intros (kv' & Hin & Hrest)%IH. exists kv'. split; [by apply list_elem_of_further|done].
  - intros [= <- <-]. exists kv. split; [apply list_elem_of_here|]. eauto.
Qed.

(** When it ends without error the file holds one line for each agent. *)
Lemma encode_each_done os (l : list (string * AgentRegistration.t)) file out :
  encode_each os l file = (out, None) →
  ∃ lines, Forall2 (λ kv line, json_Marshal kv.2 = Some line) l lines
           ∧ out = file ++ unlines lines.
Proof.
  revert file. induction l as [|kv l IH]; intros file; simpl.
  - intros [= <-]. exists []. split; [constructor|]. by rewrite app_nil_r.
  - destruct (json_Marshal kv.2) as [line|] eqn:Hm; [|done].
    destruct (Write_fails os file (line ++ [x0a])) as [n|]; [done|].
    intros (lines & Hall & ->)%IH. exists (line :: lines).
    split; [by constructor|]. unfold unlines. simpl. by rewrite <- !app_assoc.
Qed.

Lemma encode_each_total os (l : list (string * AgentRegistration.t)) file :
  (∀ kv, kv ∈ l → is_Some (json_Marshal kv.2)) →
  (∀ written data, Write_fails os written data = None) →
  (encode_each os l file).2 = None.
Proof.
  intros Hall Hw. revert file. induction l as [|kv l IH]; intros file; simpl; [done|].
  destruct (Hall kv) as [line ->]; [apply list_elem_of_here|]. rewrite Hw.
  apply IH. intros kv' Hin. apply Hall. by apply list_elem_of_further.
Qed.

End SaveFacts.

(** [Save] is all or nothing for the snapshot file, whatever the
    operating system does with its calls.  When [Save] returns an error the
    snapshot file and every file other than the temp file are as they were;
    nothing at all has changed when the directory or the temp file could not
    be created, and otherwise the temp file is gone unless its removal
    failed; the error is the one of the first call that failed: creating the
    directory, creating the temp file, encoding a registered agent (it could
    not be marshalled, or the write of its line failed), closing or renaming
    the temp file.  When [Save] succeeds the snapshot file holds one line
    for each registration, in the order of the iteration, no temp file is
    left, and no other file is touched.  [Save] succeeds when every call is
    served and every registration can be marshalled. *)
Theorem Save_outcomes `{RangeOrder} `{Platform} (os : OS) (s : Store) (fs : FS) :
  let path := AgentsFilePath s in
  let tmpPath := (path +:+ ".tmp")%string in
  (∀ e, (SaveWith os s fs).2 = Some e →
        (SaveWith os s fs).1 !! path = fs !! path
        ∧ (∀ p, p ≠ tmpPath → (SaveWith os s fs).1 !! p = fs !! p)
        ∧ (e = ErrMkdir ∨ e = ErrCreate → (SaveWith os s fs).1 = fs)
        ∧ (e ≠ ErrMkdir → e ≠ ErrCreate → Remove_ok os = true →
           (SaveWith os s fs).1 !! tmpPath = None)
        ∧ (e = ErrMkdir ∧ MkdirAll_ok os = false
           ∨ e = ErrCreate ∧ MkdirAll_ok os = true ∧ Create_ok os = false
           ∨ (∃ k a, agents s !! k = Some a ∧ e = ErrEncode (AgentRegistration.Name a)
                     ∧ (json_Marshal a = None
                        ∨ ∃ line written n,
                            json_Marshal a = Some line
                            ∧ Write_fails os written (line ++ [x0a]) = Some n))
           ∨ e = ErrClose ∧ Close_ok os = false
           ∨ e = ErrRename ∧ Close_ok os = true ∧ Rename_ok os = false))
  ∧ ((SaveWith os s fs).2 = None →
       (∃ lines, Forall2 (λ kv line, json_Marshal kv.2 = Some line)
                         (range_of (agents s)) lines
                 ∧ (SaveWith os s fs).1 !! path = Some (unlines lines))
       ∧ (SaveWith os s fs).1 !! tmpPath = None
       ∧ (∀ p, p ≠ path → p ≠ tmpPath → (SaveWith os s fs).1 !! p = fs !! p))
  ∧ (MkdirAll_ok os = true → Create_ok os = true → Close_ok os = true →
     Rename_ok os = true → (∀ written data, Write_fails os written data = None) →
     (∀ k a, agents s !! k = Some a → is_Some (json_Marshal a)) →
     (SaveWith os s fs).2 = None).
Proof.
  intros path tmpPath. unfold SaveWith. fold path. fold tmpPath.
  assert (tmpPath ≠ path) as Hne by apply tmp_path_differs.
  assert (∀ (m : FS) out, os_Remove os tmpPath (<[tmpPath := out]> (<[tmpPath := []]> m)) !! path
                          = m !! path) as Hpath.
  { intros m out. unfold os_Remove. destruct (Remove_ok os).
    - by rewrite lookup_delete_ne, !lookup_insert_ne.
    - by rewrite !lookup_insert_ne. }
  assert (∀ (m : FS) out p, p ≠ tmpPath →
            os_Remove os tmpPath (<[tmpPath := out]> (<[tmpPath := []]> m)) !! p = m !! p)
    as Hother.
  { intros m out p Hp. unfold os_Remove. destruct (Remove_ok os).
    - by rewrite lookup_delete_ne, !lookup_insert_ne.
    - by rewrite !lookup_insert_ne. }
  assert (∀ (m : FS), Remove_ok os = true → os_Remove os tmpPath m !! tmpPath = None)
    as Hgone.
  { intros m Hrm. unfold os_Remove. rewrite Hrm. apply lookup_delete_eq. }
  destruct (MkdirAll_ok os) eqn:Hmk; simpl.
  2: { split_and!; [|done|done]. intros e [= <-]. split_and!; try done. by left. }
  destruct (Create_ok os) eqn:Hcr; simpl.
  2: { split_and!; [|done|done]. intros e [= <-]. split_and!; try done. right. by left. }
  destruct (encode_each os (range_of (agents s)) []) as [out [name|]] eqn:Henc; simpl.
  - split_and!.
    + intros e [= <-]. split_and!.
      * apply Hpath.
      * intros p Hp. by apply Hother.
      * by intros [?|?].
      * intros _ _ Hrm. by apply Hgone.
      * do 2 right. left.
        apply encode_each_error in Henc as ([k a] & Hin%elem_of_range & -> & Hwhy).
        eauto 10.
    + done.
    + intros _ _ _ _ Hw Hall.
      pose proof (encode_each_total os (range_of (agents s)) []) as Htot.
      rewrite Henc in Htot. discriminate Htot; [|done].
      intros [k a] Hin%elem_of_range. by apply (Hall k).
  - apply encode_each_done in Henc as (lines & Hlines & ->). simpl.
    destruct (Close_ok os) eqn:Hcl; simpl.
    2: { split_and!; [|done|done]. intros e [= <-]. split_and!.
         - apply Hpath.
         - intros p Hp. by apply Hother.
         - by intros [?|?].
         - intros _ _ Hrm. by apply Hgone.
         - do 3 right. by left. }
    destruct (Rename_ok os) eqn:Hrn; simpl.
    2: { split_and!; [|done|done]. intros e [= <-]. split_and!.
         - apply Hpath.
         - intros p Hp. by apply Hother.
         - by intros [?|?].
         - intros _ _ Hrm. by apply Hgone.
         - do 4 right. done. }
    split_and!; [done| |done].
    intros _. split_and!.
    + exists lines. split; [done|]. by rewrite lookup_insert_eq.
    + rewrite lookup_insert_ne by done. apply lookup_delete_eq.
    + intros p Hp Ht. by rewrite lookup_insert_ne, lookup_delete_ne, !lookup_insert_ne.
Qed.

(** [Load] replaces the registry: what the store held before does not show
    in the result.  When there is no snapshot file the store is left empty
    and no error is returned; and whatever the file holds, the registry
    [Load] leaves is keyed by the names of its registrations. *)
Theorem Load_replaces_registry `{RangeOrder} `{Platform} (s : Store) (fs : FS) :
  (∀ m, Load (set_agents m s) fs = Load s fs)
  ∧ (fs !! AgentsFilePath s = None → Load s fs = (set_agents ∅ s, None))
  ∧ store_wf (Load s fs).1.
Proof.
  split_and!.
  - done.
  - unfold Load.
    change (AgentsFilePath (set_agents ∅ s)) with (AgentsFilePath s). by intros ->.
  - unfold Load.
    change (AgentsFilePath (set_agents ∅ s)) with (AgentsFilePath s).
    destruct (fs !! AgentsFilePath s) as [data|]; simpl.
    + pose proof (load_lines_wf (Scan data).1 0 ∅) as Hwf.
      destruct (load_lines (Scan data).1 0 ∅) as [m [e|]]; simpl in *;
        intros k a Hk; apply Hwf; try done;
        intros k' a'; by rewrite lookup_empty.
    + intros k a. simpl. by rewrite lookup_empty.
Qed.

Section Load_replaces_witness.
#[local] Existing Instance canonical_order.
#[local] Existing Instance Demo.platform.

Lemma Load_replaces_registry_witness :
  Load Sample.alice_holds ∅ = (Sample.empty, None).
Proof.
  destruct (Load_replaces_registry Sample.alice_holds ∅) as (_ & Hmissing & _).
  rewrite Hmissing; [by_vm|apply lookup_empty].
Defined.

End Load_replaces_witness.

(** A line of the snapshot file that is not empty and does not parse makes
    [Load] fail with the parse error that carries the number of that line,
    counted from one with the empty lines included, whatever follows the
    line in the file; the line is not skipped. *)
Theorem Load_malformed_line `{RangeOrder} `{Platform} (s : Store) (fs : FS)
    (good : list (list byte)) (bad rest : list byte) :
  fs !! AgentsFilePath s = Some (unlines (good ++ [bad]) ++ rest) →
  Forall scannable (good ++ [bad]) →
  Forall (λ l, dropCR l = [] ∨ is_Some (json_Unmarshal (dropCR l))) good →
  dropCR bad ≠ [] → json_Unmarshal (dropCR bad) = None →
  (Load s fs).2 = Some (ErrParse (S (length good))).
Proof.
  intros Hfile Hscan Hgood Hne Hbad. unfold Load.
  change (AgentsFilePath (set_agents ∅ s)) with (AgentsFilePath s).
  rewrite Hfile, Scan_unlines_app by done. cbn [fst snd agents set_agents].
  rewrite fmap_app, <- app_assoc. simpl.
  pose proof (load_lines_stops (dropCR <$> good) (dropCR bad) (Scan rest).1 0 ∅) as Hstop.
  rewrite length_fmap in Hstop.
  destruct (load_lines _ 0 ∅) as [m [e|]]; simpl in *.
  - apply Hstop; [|done|done]. by apply Forall_fmap.
  - discriminate Hstop; [|done|done]. by apply Forall_fmap.
Qed.

Section Malformed_witness.
#[local] Existing Instance canonical_order.
#[local] Existing Instance Demo.platform.

Lemma Load_malformed_line_witness :
  let file := unlines ([Demo.line_of Sample.alice; []] ++ [[x6e; x6f; x0d]])
              ++ Demo.line_of Sample.bob in
  (Load Sample.empty {[ ".beads/agents.jsonl" := file ]}).2 = Some (ErrParse 3).
Proof.
  intros file.
  apply (Load_malformed_line Sample.empty {[ ".beads/agents.jsonl" := file ]}
           [Demo.line_of Sample.alice; []] [x6e; x6f; x0d] (Demo.line_of Sample.bob)).
  - apply lookup_singleton_eq.
  - repeat apply Forall_cons_2; try apply Forall_nil_2;
      (split; [by_evaluation|by vm_compute]).
  - repeat apply Forall_cons_2; try apply Forall_nil_2.
    + right. eexists. by_vm.
    + by left.
  - by vm_compute.
  - by_vm.
Defined.

End Malformed_witness.

(** * Pointers and copies *)

Section HeapFacts.

Lemma load_frame (σ σ' : Ref.Heap) (q : Ref.ptr) :
  Ref.claimArrays σ' = Ref.claimArrays σ → Ref.hintArrays σ' = Ref.hintArrays σ →
  Ref.regs σ' !! q = Ref.regs σ !! q →
  Ref.load σ' q = Ref.load σ q.
Proof.
  intros Hc Hh Hr. unfold Ref.load. rewrite Hr.
  destruct (Ref.regs σ !! q) as [r|]; [|done]. simpl. f_equal.
  unfold Ref.to_value, Ref.read_claims, Ref.read_hints. by rewrite Hc, Hh.
Qed.

Lemma snapshot_frame (σ σ' : Ref.Heap) (s : Ref.Store) :
  (∀ k q, Ref.agents s !! k = Some q → Ref.load σ' q = Ref.load σ q) →
  Ref.snapshot σ' s = Ref.snapshot σ s.
Proof.
  intros Hsame. apply map_eq. intros k. unfold Ref.snapshot.
  rewrite !lookup_omap. destruct (Ref.agents s !! k) as [q|] eqn:Hk; [|done].
  simpl. by apply (Hsame k).
Qed.

Lemma fresh_reg_not_stored (σ : Ref.Heap) (s : Ref.Store) k q :
  heap_valid σ s → Ref.agents s !! k = Some q → q ≠ fresh (dom (Ref.regs σ)).
Proof.
  intros Hv Hk ->. apply Hv in Hk. apply elem_of_dom in Hk.
  by apply is_fresh in Hk.
Qed.

(** What [Get] does on a registered name. *)
Lemma Get_registered (σ : Ref.Heap) (s : Ref.Store) name q r :
  Ref.agents s !! name = Some q → Ref.regs σ !! q = Some r →
  Ref.Get σ s name
  = (Ref.set_regs (<[fresh (dom (Ref.regs σ)) := r]> (Ref.regs σ)) σ,
     Some (fresh (dom (Ref.regs σ)))).
Proof. intros Hk Hq. unfold Ref.Get, Ref.copy_of. rewrite Hk. simpl. by rewrite Hq. Qed.

End HeapFacts.

(** The registration [Get] returns is a copy of the struct: an assignment
    to any field of it, the two slice fields included, changes nothing in
    what the store holds.  Nor does the call itself. *)
Theorem Get_copy_is_private (σ σ' σ'' : Ref.Heap) (s : Ref.Store) (name : string)
    (p : Ref.ptr) (f : Ref.Registration → Ref.Registration) :
  heap_valid σ s →
  Ref.Get σ s name = (σ', Some p) →
  Ref.assign σ' p f = Some σ'' →
  Ref.snapshot σ' s = Ref.snapshot σ s ∧ Ref.snapshot σ'' s = Ref.snapshot σ s.
Proof.
  intros Hv Hget Hassign. unfold Ref.Get, Ref.copy_of in Hget.
  destruct (Ref.agents s !! name) as [q|] eqn:Hk; [|done]. simpl in Hget.
  destruct (Ref.regs σ !! q) as [r|] eqn:Hq; [|done]. simpl in Hget.
  injection Hget as <- <-.
  unfold Ref.assign in Hassign. simpl in Hassign.
  rewrite lookup_insert_eq in Hassign. simpl in Hassign. injection Hassign as <-.
  split; apply snapshot_frame; intros k q' Hk'; apply load_frame; try done; simpl.
  - rewrite lookup_insert_ne; [done|]. intros Heq.
    by apply (fresh_reg_not_stored σ s k q' Hv Hk').
  - rewrite !lookup_insert_ne; [done| |]; intros Heq;
      by apply (fresh_reg_not_stored σ s k q' Hv Hk').
Qed.

(** The copy shares its backing arrays with the stored registration: an
    assignment to an element of the claim list of the registration [Get]
    returned is an assignment to the claim the store holds. *)
Theorem Get_copy_shares_claims (σ : Ref.Heap) (s : Ref.Store) (name : string)
    (q : Ref.ptr) (r : Ref.Registration) (h : Ref.header)
    (cells : list WorkClaim.t) (i : nat) (c : WorkClaim.t) :
  Ref.agents s !! name = Some q → Ref.regs σ !! q = Some r →
  Ref.ClaimedWork r = Some h → Ref.claimArrays σ !! Ref.array h = Some cells →
  (i < Ref.len h)%nat →
  ∃ σ' p σ'',
    Ref.Get σ s name = (σ', Some p)
    ∧ Ref.assign_claim σ' p i c = Some σ''
    ∧ Ref.snapshot σ'' s !! name
      = Some (AgentRegistration.set_ClaimedWork
                (Some (<[i := c]> (take (Ref.len h) cells)))
                (Ref.to_value σ r)).
Proof.
  intros Hk Hq Hcw Hcells Hi.
  exists (Ref.set_regs (<[fresh (dom (Ref.regs σ)) := r]> (Ref.regs σ)) σ),
         (fresh (dom (Ref.regs σ))).
  eexists. split; [by apply (Get_registered σ s name q r)|].
  unfold Ref.assign_claim. simpl. rewrite lookup_insert_eq. simpl.
  rewrite Hcw. simpl. rewrite Hcells. simpl.
  rewrite bool_decide_eq_true_2 by done. split; [done|].
  unfold Ref.snapshot. rewrite lookup_omap, Hk. simpl.
  unfold Ref.load. simpl.
  assert (q ≠ fresh (dom (Ref.regs σ))) as Hne.
  { intros ->. assert (fresh (dom (Ref.regs σ)) ∈ dom (Ref.regs σ)) as Hin.
    { apply elem_of_dom. eauto. }
    by apply is_fresh in Hin. }
  rewrite lookup_insert_ne, Hq by done. simpl. f_equal.
  unfold Ref.to_value, AgentRegistration.set_ClaimedWork. simpl. f_equal.
  rewrite Hcw. simpl. rewrite lookup_insert_eq. simpl.
  by rewrite take_insert_lt.
Qed.

Section Copy_witness.

Lemma sample_heap_valid : heap_valid Sample.heap Sample.pointers.
Proof.
  intros k q Hk. simpl in Hk. apply lookup_singleton_Some in Hk as [_ <-].
  exists Sample.alice_struct. apply lookup_singleton_eq.
Qed.

Lemma Get_copy_is_private_witness :
  ∃ σ' p σ'',
    Ref.Get Sample.heap Sample.pointers "alice" = (σ', Some p)
    ∧ Ref.assign σ' p (Ref.with_Status AgentStatus.Gone) = Some σ''
    ∧ Ref.snapshot σ'' Sample.pointers = Ref.snapshot Sample.heap Sample.pointers.
Proof.
  pose proof (Get_registered Sample.heap Sample.pointers "alice" 1%positive
                Sample.alice_struct (lookup_singleton_eq _ _) (lookup_singleton_eq _ _))
    as Hget.
  eexists _, _, _. split; [exact Hget|]. split.
  - unfold Ref.assign. simpl. rewrite lookup_insert_eq. reflexivity.
  - eapply (Get_copy_is_private Sample.heap _ _ Sample.pointers "alice").
    + apply sample_heap_valid.
    + exact Hget.
    + unfold Ref.assign. simpl. rewrite lookup_insert_eq. reflexivity.
Defined.

Lemma Get_copy_shares_claims_witness :
  ∃ σ' p σ'',
    Ref.Get Sample.heap Sample.pointers "alice" = (σ', Some p)
    ∧ Ref.assign_claim σ' p 0 (Sample.claim_of "mallory" "bv-666") = Some σ''
    ∧ Ref.snapshot σ'' Sample.pointers !! "alice"
      = Some (AgentRegistration.set_ClaimedWork
                (Some [Sample.claim_of "mallory" "bv-666"])
                (Ref.to_value Sample.heap Sample.alice_struct)).
Proof.
  apply (Get_copy_shares_claims Sample.heap Sample.pointers "alice" 1%positive
           Sample.alice_struct (Ref.Header 1 1 1)
           [Sample.claim_of "alice" "bv-42"] 0
           (Sample.claim_of "mallory" "bv-666")).
  - apply lookup_singleton_eq.
  - apply lookup_singleton_eq.
  - reflexivity.
  - apply lookup_singleton_eq.
  - simpl. lia.
Defined.

End Copy_witness.

Section RegisterFacts.
Context `{RangeOrder}.

(** The struct [Register] leaves behind the caller's pointer, and the
    registry that goes with it, when the record validates. *)
Lemma Register_success_inv now σ s p σ' s' :
  Ref.Register now σ s p = Some (σ', s', None) →
  ∃ r r', Ref.regs σ !! p = Some r
          ∧ AgentRegistration.Validate (Ref.to_value σ r) = None
          ∧ Ref.Name r' = Ref.Name r ∧ Ref.LastSeen r' = now
          ∧ σ' = Ref.set_regs (<[p := r']> (Ref.regs σ)) σ
          ∧ s' = Ref.MkStore (Ref.beadsDir s) (<[Ref.Name r := p]> (Ref.agents s)).
Proof.
  unfold Ref.Register. destruct (Ref.regs σ !! p) as [r|]; [|done]. simpl.
  destruct (AgentRegistration.Validate _) eqn:Hv; [done|].
  destruct (Ref.agents s !! Ref.Name r) as [q|].
  - destruct (Ref.regs σ !! q) as [e|]; [|done]. simpl.
    intros [= <- <-]. eexists r, _. split_and!; [done|done| | |reflexivity|].
    + by destruct r as [n m pr st ls [cw|] [fh|] status meta].
    + by destruct r as [n m pr st ls [cw|] [fh|] status meta].
    + by destruct r as [n m pr st ls [cw|] [fh|] status meta].
  - simpl. intros [= <- <-]. by exists r, (Ref.with_LastSeen now r).
Qed.

End RegisterFacts.

(** [Register] keeps the pointer it is given: the store's entry for the
    name is the caller's own struct, not a copy.  The call writes the
    last-seen time into that struct, and every assignment the caller makes
    to a field of it afterwards is an assignment to the registration the
    store holds. *)
Theorem Register_keeps_pointer (now : Time) (σ σ' : Ref.Heap)
    (s s' : Ref.Store) (p : Ref.ptr) :
  Ref.Register now σ s p = Some (σ', s', None) →
  ∃ r', Ref.regs σ' !! p = Some r'
        ∧ Ref.LastSeen r' = now
        ∧ Ref.agents s' !! Ref.Name r' = Some p
        ∧ ∀ f σ'', Ref.assign σ' p f = Some σ'' →
            Ref.snapshot σ'' s' !! Ref.Name r' = Some (Ref.to_value σ' (f r')).
Proof.
  intros (r & r' & Hp & _ & Hname & Hls & -> & ->)%Register_success_inv.
  exists r'. simpl. rewrite lookup_insert_eq. split_and!; try done.
  - rewrite Hname. apply lookup_insert_eq.
  - intros f σ'' Hassign. unfold Ref.assign in Hassign. simpl in Hassign.
    rewrite lookup_insert_eq in Hassign. simpl in Hassign. injection Hassign as <-.
    unfold Ref.snapshot. rewrite lookup_omap. simpl.
    rewrite Hname, lookup_insert_eq. simpl.
    unfold Ref.load. simpl. rewrite lookup_insert_eq. simpl. f_equal.
Qed.

Section Register_pointer_witness.
#[local] Existing Instance canonical_order.

Lemma Register_keeps_pointer_witness :
  ∃ σ' s' σ'',
    Ref.Register (Sample.t0 + 1) Sample.heap (Ref.NewStore ".beads") 1%positive
    = Some (σ', s', None)
    ∧ Ref.assign σ' 1%positive (Ref.with_Status AgentStatus.Gone) = Some σ''
    ∧ AgentRegistration.Status <$> Ref.snapshot σ'' s' !! "alice"
      = Some AgentStatus.Gone.
Proof.
  destruct (Ref.Register (Sample.t0 + 1) Sample.heap (Ref.NewStore ".beads") 1%positive)
    as [[[σ' s'] [e|]]|] eqn:Hreg; try (by vm_compute in Hreg).
  destruct (Register_keeps_pointer _ _ _ _ _ _ Hreg) as (r' & Hr' & _ & _ & Hseen).
  assert (Ref.Name r' = "alice") as Hname.
  { apply Register_success_inv in Hreg as (r0 & r1 & Hp & _ & Hn & _ & -> & _).
    simpl in Hr', Hp. rewrite lookup_insert_eq in Hr'. injection Hr' as <-.
    rewrite Hn. rewrite lookup_singleton_eq in Hp. by injection Hp as <-. }
  exists σ', s'. eexists. split; [done|]. split.
  - unfold Ref.assign. rewrite Hr'. reflexivity.
  - rewrite <- Hname.
    rewrite (Hseen (Ref.with_Status AgentStatus.Gone) _); [done|].
    unfold Ref.assign. rewrite Hr'. reflexivity.
Defined.

End Register_pointer_witness.

(** ** The two models agree *)

(** The registry of values [Register] leaves is the one the pointer-level
    [Register] leaves in the heap, with the same error, provided the struct
    passed in is not already in the store under another name. *)
Theorem Register_refines (now : Time) (σ : Ref.Heap) (s : Ref.Store)
    (p : Ref.ptr) (r : Ref.Registration) :
  heap_valid σ s →
  Ref.regs σ !! p = Some r →
  (∀ k, Ref.agents s !! k = Some p → k = Ref.Name r) →
  ∃ σ' s' e,
    Ref.Register now σ s p = Some (σ', s', e)
    ∧ heap_valid σ' s'
    ∧ Register now (MkStore (Ref.beadsDir s) (Ref.snapshot σ s)) (Ref.to_value σ r)
      = (MkStore (Ref.beadsDir s') (Ref.snapshot σ' s'), e).
Proof.
  intros Hv Hp Hown. unfold Ref.Register, Register. rewrite Hp. simpl.
  change (AgentRegistration.Name (Ref.to_value σ r)) with (Ref.Name r).
  destruct (AgentRegistration.Validate (Ref.to_value σ r)) as [err|] eqn:Hval.
  { by exists σ, s, (Some err). }
  assert (∀ r',
            Ref.Name r' = Ref.Name r →
            heap_valid (Ref.set_regs (<[p := r']> (Ref.regs σ)) σ)
              (Ref.MkStore (Ref.beadsDir s) (<[Ref.Name r' := p]> (Ref.agents s)))
            ∧ (store_agent (Ref.Name r') (Ref.to_value σ r')
                 (MkStore (Ref.beadsDir s) (Ref.snapshot σ s)), @None error)
              = (MkStore (Ref.beadsDir s)
                   (Ref.snapshot (Ref.set_regs (<[p := r']> (Ref.regs σ)) σ)
                      (Ref.MkStore (Ref.beadsDir s)
                         (<[Ref.Name r' := p]> (Ref.agents s)))), None)) as Hstep.
  { intros r' Hn. split.
    - intros k q. simpl. rewrite lookup_insert. case_decide.
      + intros [= <-]. rewrite lookup_insert_eq. by eexists.
      + intros Hk. destruct (decide (q = p)) as [->|Hq].
        * rewrite lookup_insert_eq. by eexists.
        * rewrite lookup_insert_ne by done. by apply (Hv k).
    - unfold store_agent, set_agents. simpl. do 2 f_equal.
      apply map_eq. intros k. unfold Ref.snapshot. rewrite lookup_omap. simpl.
      rewrite !lookup_insert. case_decide as Hk.
      + simpl. unfold Ref.load. simpl. by rewrite lookup_insert_eq.
      + rewrite lookup_omap.
        destruct (Ref.agents s !! k) as [q|] eqn:Hq; [|done]. simpl.
        symmetry. apply load_frame; try done. simpl.
        rewrite lookup_insert_ne; [done|]. intros <-.
        apply Hk. rewrite Hn. symmetry. by apply Hown. }
  destruct (Ref.agents s !! Ref.Name r) as [q|] eqn:Hq.
  - destruct (Hv _ _ Hq) as [e He]. rewrite He. simpl.
    assert (Ref.snapshot σ s !! Ref.Name r = Some (Ref.to_value σ e)) as ->.
    { unfold Ref.snapshot. rewrite lookup_omap, Hq. simpl.
      unfold Ref.load. by rewrite He. }
    clear Hp Hown Hval Hq.
    destruct r as [n m pr st ls [cw|] [fh|] status meta]; simpl in *;
      eexists _, _, None; (split; [reflexivity|]);
      match goal with
      | |- heap_valid (Ref.set_regs (<[_ := ?r']> _) _) _ ∧ _ =>
          exact (Hstep r' eq_refl)
      end.
  - assert (Ref.snapshot σ s !! Ref.Name r = None) as ->.
    { unfold Ref.snapshot. by rewrite lookup_omap, Hq. }
    simpl. eexists _, _, None. split; [reflexivity|].
    exact (Hstep (Ref.with_LastSeen now r) eq_refl).
Qed.

Section Refines_witness.
#[local] Existing Instance canonical_order.

Lemma Register_refines_witness :
  ∃ σ' s' e,
    Ref.Register (Sample.t0 + 1) Sample.heap Sample.pointers 1%positive
    = Some (σ', s', e)
    ∧ heap_valid σ' s'
    ∧ Register (Sample.t0 + 1)
        (MkStore ".beads" (Ref.snapshot Sample.heap Sample.pointers))
        (Ref.to_value Sample.heap Sample.alice_struct)
      = (MkStore (Ref.beadsDir s') (Ref.snapshot σ' s'), e).
Proof.
  apply (Register_refines (Sample.t0 + 1) Sample.heap Sample.pointers 1%positive
           Sample.alice_struct).
  - intros k q Hk. simpl in Hk. apply lookup_singleton_Some in Hk as [_ <-].
    exists Sample.alice_struct. apply lookup_singleton_eq.
  - apply lookup_singleton_eq.
  - intros k Hk. simpl in Hk. by apply lookup_singleton_Some in Hk as [<- _].
Defined.

End Refines_witness.

(** [Get] at the level of pointers returns a struct whose value is what
    [Get] at the level of values returns, [nil] for an unknown name, and
    leaves the registry as it was. *)
Theorem Get_refines (σ : Ref.Heap) (s : Ref.Store) (name : string) :
  heap_valid σ s →
  Ref.snapshot (Ref.Get σ s name).1 s = Ref.snapshot σ s
  ∧ (Ref.Get σ s name).2 ≫= Ref.load (Ref.Get σ s name).1
    = Get (MkStore (Ref.beadsDir s) (Ref.snapshot σ s)) name.
Proof.
  intros Hv. unfold Get. simpl. unfold Ref.snapshot at 3. rewrite lookup_omap.
  destruct (Ref.agents s !! name) as [q|] eqn:Hk.
  - destruct (Hv _ _ Hk) as [r Hq].
    rewrite (Get_registered σ s name q r Hk Hq). simpl. split.
    + apply snapshot_frame. intros k q' Hk'. apply load_frame; try done. simpl.
      rewrite lookup_insert_ne; [done|]. intros Heq.
      by apply (fresh_reg_not_stored σ s k q' Hv Hk').
    + unfold Ref.load. simpl. rewrite lookup_insert_eq, Hq. done.
  - unfold Ref.Get. rewrite Hk. done.
Qed.

Lemma Get_refines_witness :
  (Ref.Get Sample.heap Sample.pointers "alice").2
    ≫= Ref.load (Ref.Get Sample.heap Sample.pointers "alice").1
  = Some (Ref.to_value Sample.heap Sample.alice_struct).
Proof.
  destruct (Get_refines Sample.heap Sample.pointers "alice")
    as [_ ->].
  - intros k q Hk. simpl in Hk. apply lookup_singleton_Some in Hk as [_ <-].
    exists Sample.alice_struct. apply lookup_singleton_eq.
  - by_vm.
Defined.

(** * Where the store departs from its specification *)

(** ** Claims that come in through [Register] *)

(** C1, as the code has it.  Every state reached from the empty store by
    [Register] calls whose record carries no claims and by [Unregister],
    [Claim], [Release], [AddFileHint], [RemoveFileHint], [Heartbeat] and
    [CleanupExpired] calls, the clock never running backwards, holds at
    most one unexpired claim on each work item, and each further such call
    keeps it so. *)
Theorem exclusion_invariant `{RangeOrder} (dir : string) (trace : list (Time * call))
    (start now : Time) :
  Forall (λ tc, brings_no_claims tc.2) trace →
  clock_ok start trace now →
  exclusive now (exec (NewStore dir) trace)
  ∧ ∀ t c, now ≤ t → brings_no_claims c →
           exclusive t (run t (exec (NewStore dir) trace) c).1.
Proof.
  intros Hno Hclk.
  assert (∀ s st, store_wf s → exclusive st s → clock_ok st trace now →
                  store_wf (exec s trace) ∧ exclusive now (exec s trace)) as Hinv.
  { clear Hclk. induction Hno as [|[t c] rest Hc _ IH]; intros s st Hwf Hex Hclk.
    - simpl in *. eauto using exclusive_later.
    - simpl in *. destruct Hclk as [Hle Hclk].
      apply (IH _ t); [by apply run_store_wf| |done].
      apply run_exclusive; [done|done|]. by apply (exclusive_later st). }
  destruct (Hinv (NewStore dir) start) as [Hwf Hex];
    [apply store_wf_NewStore|apply exclusive_NewStore|done|].
  split; [done|]. intros t c Hle Hc.
  apply run_exclusive; [done|done|]. by apply (exclusive_later now).
Qed.

Section Exclusion_invariant_witness.
#[local] Existing Instance canonical_order.

Lemma exclusion_invariant_witness :
  let t := Sample.t0 in
  let trace :=
    [(t, CallRegister Sample.alice); (t, CallRegister Sample.bob);
     (t + 1, CallClaim "alice" (Sample.claim_of "alice" "bv-42"));
     (t + 2, CallClaim "bob" (Sample.claim_of "bob" "bv-42"));
     (t + 3, CallRelease "alice" "bv-42")] in
  exclusive (t + 4) (exec (NewStore ".beads") trace)
  ∧ exclusive (t + 5)
      (run (t + 5) (exec (NewStore ".beads") trace)
           (CallClaim "bob" (Sample.claim_of "bob" "bv-42"))).1.
Proof.
  intros t trace.
  destruct (exclusion_invariant ".beads" trace t (t + 4)) as [Hex Hstep].
  - repeat constructor.
  - repeat split; by vm_compute.
  - split; [exact Hex|]. apply Hstep; [by vm_compute|exact I].
Defined.

(** C1 as stated fails: [Register] stores the claims of the record it is
    given without looking at the claims of the other agents.  With [alice]
    holding ["bv-42"], registering [bob] with a record that carries an
    unexpired claim on ["bv-42"] succeeds and leaves two unexpired claims
    on the work item. *)
Lemma Register_brings_second_claim :
  let t := Sample.t0 in
  let s := exec (NewStore ".beads")
             [(t, CallRegister Sample.alice);
              (t, CallClaim "alice" (Sample.claim_of "alice" "bv-42"))] in
  let s' := (Register t s (Sample.bob_with [Sample.claim_of "bob" "bv-42"])).1 in
  (Register t s (Sample.bob_with [Sample.claim_of "bob" "bv-42"])).2 = None
  ∧ (elems ∘ AgentRegistration.ClaimedWork) <$> agents s' !! "alice"
    = Some [Sample.claim_of "alice" "bv-42"]
  ∧ (elems ∘ AgentRegistration.ClaimedWork) <$> agents s' !! "bob"
    = Some [Sample.claim_of "bob" "bv-42"]
  ∧ WorkClaim.IsExpired (Sample.claim_of "alice" "bv-42") t = false
  ∧ WorkClaim.IsExpired (Sample.claim_of "bob" "bv-42") t = false
  ∧ exclusive t s
  ∧ ¬ exclusive t s'.
Proof.
  intros t s s'.
  assert (agents s' !! "alice" = Some (Sample.alice_with [Sample.claim_of "alice" "bv-42"]))
    as Halice by by_vm.
  assert (agents s' !! "bob" = Some (Sample.bob_with [Sample.claim_of "bob" "bv-42"]))
    as Hbob by by_vm.
  split; [by_vm|]. split; [by_vm|]. split; [by_vm|]. split; [by_vm|].
  split; [by_vm|]. split.
  - assert (store_wf (exec (NewStore ".beads") [(t, CallRegister Sample.alice)])) as Hwf.
    { apply (run_store_wf t (NewStore ".beads") (CallRegister Sample.alice)),
        store_wf_NewStore. }
    apply (run_exclusive t _ (CallClaim "alice" (Sample.claim_of "alice" "bv-42")));
      [exact Hwf|exact I|].
    apply (run_exclusive t (NewStore ".beads") (CallRegister Sample.alice));
      [apply store_wf_NewStore|reflexivity|apply exclusive_NewStore].
  - intros Hex.
    destruct (Hex "alice" "bob" _ _ 0%nat 0%nat
                (Sample.claim_of "alice" "bv-42") (Sample.claim_of "bob" "bv-42")
                Halice Hbob eq_refl eq_refl eq_refl) as [Hk _]; [by_vm|by_vm|].
    discriminate Hk.
Qed.

End Exclusion_invariant_witness.

(** ** Hints of one agent counted as a conflict *)

Section Lone_agent.
#[local] Existing Instance canonical_order.

(** C4.  Where the claim says that a pattern is reported only when two
    distinct active agents hold unexpired hints on it, the code reports a
    pattern as soon as two unexpired hints of active agents are on it: with
    [bob] the only agent registered, active, and holding two unexpired
    hints on ["go.mod"], [GetFileConflicts] returns a record for ["go.mod"]
    that names [bob] twice. *)
Theorem lone_agent_conflict :
  let t := Sample.t0 in
  let s := exec (NewStore ".beads")
             [(t, CallRegister Sample.bob);
              (t, CallAddFileHint "bob" (Sample.hint_of "bob" "go.mod" ""));
              (t + 5, CallAddFileHint "bob" (Sample.hint_of "bob" "go.mod" ""))] in
  List s
  = [AgentRegistration.Make "bob" "sonnet" "cli" t (t + 5) (Some [])
       (Some [Sample.hint_of "bob" "go.mod" ""; Sample.hint_of "bob" "go.mod" ""])
       AgentStatus.Active AgentMeta.zero]
  ∧ GetFileConflicts (t + time.Minute) s
    = Some [FileConflict.Make "go.mod" (Some ["bob"; "bob"]) None ""].
Proof. split; by_vm. Qed.

End Lone_agent.

(** ** What removes an expired claim *)

Section ExpiredClaims.
Context `{RangeOrder}.

(** A call that is none of those in [may_remove] leaves the claim with
    its agent. *)
Lemma claim_stays (t : Time) (s : Store) (k : string) (c : WorkClaim.t) (cl : call) :
  holds s k c → ¬ may_remove k c cl → holds (run t s cl).1 k c.
Proof.
  intros (a & Hk & Hc) Hkeep. unfold holds.
  destruct cl as [agent|name|name claim|name bead|name hint|name pat|name|]; simpl in *.
  - unfold Register. destruct (AgentRegistration.Validate agent); [by eauto|].
    destruct agent as [n m p st ls cw fh status meta]. simpl in *.
    destruct (decide (n = k)) as [->|Hn].
    + rewrite Hk. destruct cw as [cw|]; [destruct Hkeep; by split|].
      eexists. split; [destruct fh; apply lookup_insert_eq|]. by destruct fh.
    + exists a. split; [|done].
      destruct (agents s !! n) as [e|]; [destruct cw, fh|]; simpl;
        by rewrite lookup_insert_ne.
  - unfold Unregister. destruct (agents s !! name); [|by eauto].
    exists a. split; [|done]. simpl. rewrite lookup_delete_ne; [done|]. congruence.
  - unfold Claim. destruct (WorkClaim.Validate claim); [by eauto|].
    destruct (agents s !! name) as [agent|] eqn:Hname; [|by eauto].
    destruct (find_conflict t s name (WorkClaim.BeadID claim)); [by eauto|].
    rewrite renewed_claims. cbn [fst agents store_agent set_agents].
    destruct (decide (name = k)) as [->|Hn].
    + eexists. split; [apply lookup_insert_eq|]. simpl.
      assert (agent = a) as -> by congruence.
      apply elem_of_app. left. apply list_elem_of_filter. split; [|done].
      intros Hb. apply Hkeep. by split.
    + exists a. split; [|done]. by rewrite lookup_insert_ne.
  - unfold Release. destruct (agents s !! name) as [agent|] eqn:Hname; [|by eauto].
    destruct (existsb _ _); simpl; [|by eauto].
    destruct (decide (name = k)) as [->|Hn].
    + eexists. split; [apply lookup_insert_eq|].
      assert (agent = a) as -> by congruence.
      cbn [AgentRegistration.ClaimedWork AgentRegistration.set_LastSeen
           AgentRegistration.set_ClaimedWork].
      rewrite released_claims. apply list_elem_of_filter. split; [|done].
      intros Hb. apply Hkeep. by split.
    + exists a. split; [|done]. by rewrite lookup_insert_ne.
  - unfold AddFileHint. destruct (agents s !! name) as [agent|] eqn:Hname; [|by eauto].
    simpl. destruct (decide (name = k)) as [->|Hn].
    + eexists. split; [apply lookup_insert_eq|].
      assert (agent = a) as -> by congruence. done.
    + exists a. split; [|done]. by rewrite lookup_insert_ne.
  - unfold RemoveFileHint. destruct (agents s !! name) as [agent|] eqn:Hname; [|by eauto].
    simpl. destruct (decide (name = k)) as [->|Hn].
    + eexists. split; [apply lookup_insert_eq|].
      assert (agent = a) as -> by congruence. done.
    + exists a. split; [|done]. by rewrite lookup_insert_ne.
  - unfold Heartbeat. destruct (agents s !! name) as [agent|] eqn:Hname; [|by eauto].
    simpl. destruct (decide (name = k)) as [->|Hn].
    + eexists. split; [apply lookup_insert_eq|].
      assert (agent = a) as -> by congruence. done.
    + exists a. split; [|done]. by rewrite lookup_insert_ne.
  - by destruct Hkeep.
Qed.

Lemma claim_stays_along (s : Store) (k : string) (c : WorkClaim.t)
    (trace : list (Time * call)) :
  holds s k c → Forall (λ tc, ¬ may_remove k c tc.2) trace → holds (exec s trace) k c.
Proof.
  intros Hholds Hkeep. revert s Hholds.
  induction Hkeep as [|[t cl] trace Hcl _ IH]; intros s Hholds; [done|].
  simpl. by apply IH, claim_stays.
Qed.

End ExpiredClaims.

(** C6, as the code has it.  A claim that has expired is not among the
    claims [GetAllClaims] returns nor among the [ActiveClaims] of its
    agent, and an agent that [GetClaimHolder] returns for its work item
    holds a claim on it that has not expired; the claim is still on the
    list of the registration that [Get] returns and of one that [List]
    returns; and it stays with its agent through every sequence of calls
    none of which is a [Release] of its work item by its agent, a
    [CleanupExpired], an [Unregister] of its agent, a [Claim] of its agent
    on the same work item, or a [Register] under its agent's name of a
    record whose claim list is not [nil]. *)
Theorem expired_claim_lifecycle `{RangeOrder} (now : Time) (s : Store) (k : string)
    (c : WorkClaim.t) :
  holds s k c → WorkClaim.IsExpired c now = true →
  (c ∉ elems (GetAllClaims now s))
  ∧ (∀ a, agents s !! k = Some a → c ∉ elems (AgentRegistration.ActiveClaims a now))
  ∧ (∀ a, GetClaimHolder now s (WorkClaim.BeadID c) = Some a →
          ∃ c', c' ∈ elems (AgentRegistration.ClaimedWork a)
                ∧ WorkClaim.BeadID c' = WorkClaim.BeadID c
                ∧ WorkClaim.IsExpired c' now = false)
  ∧ (∃ a, Get s k = Some a ∧ c ∈ elems (AgentRegistration.ClaimedWork a))
  ∧ (∃ a, a ∈ List s ∧ c ∈ elems (AgentRegistration.ClaimedWork a))
  ∧ (∀ trace, Forall (λ tc, ¬ may_remove k c tc.2) trace →
              holds (exec s trace) k c).
Proof.
  intros Hholds Hexp. split_and!.
  - unfold GetAllClaims. rewrite elem_of_collect, negb_true_iff. intros [_ Hlive].
    congruence.
  - intros a _. unfold AgentRegistration.ActiveClaims.
    rewrite elem_of_collect, negb_true_iff. intros [_ Hlive]. congruence.
  - intros a. unfold GetClaimHolder.
    destruct (find _ _) as [[k' a']|] eqn:Hfind; [|done]. simpl. intros [= ->].
    apply find_range_Some in Hfind as [_ Hlive]. simpl in Hlive.
    by apply holds_live_true in Hlive.
  - destruct Hholds as (a & Hk & Hc). by exists a.
  - destruct Hholds as (a & Hk & Hc). exists a. split; [|done].
    unfold List. apply elem_of_range_values. by exists k.
  - intros trace. by apply claim_stays_along.
Qed.

Section Expired_claim_witness.
#[local] Existing Instance canonical_order.

Lemma expired_claim_lifecycle_witness :
  let t := Sample.t0 in
  let c := Sample.old_claim "alice" "bv-42" in
  let s := exec (NewStore ".beads")
             [(t - 2 * time.Hour, CallRegister Sample.alice);
              (t - 2 * time.Hour, CallRegister Sample.bob);
              (t - 2 * time.Hour, CallClaim "alice" c)] in
  (c ∉ elems (GetAllClaims t s))
  ∧ (∃ a, Get s "alice" = Some a ∧ c ∈ elems (AgentRegistration.ClaimedWork a))
  ∧ holds (exec s [(t, CallHeartbeat "alice");
                   (t, CallClaim "alice" (Sample.claim_of "alice" "bv-7"));
                   (t + 1, CallRelease "alice" "bv-7");
                   (t + 2, CallRegister Sample.alice_bare);
                   (t + 3, CallUnregister "bob")]) "alice" c.
Proof.
  intros t c s.
  assert (holds s "alice" c) as Hholds.
  { exists (AgentRegistration.set_LastSeen (t - 2 * time.Hour) (Sample.alice_with [c])).
    split; [by_vm|apply list_elem_of_here]. }
  assert (WorkClaim.IsExpired c t = true) as Hexp by by_vm.
  destruct (expired_claim_lifecycle t s "alice" c Hholds Hexp)
    as (Hall & _ & _ & Hget & _ & Hstay).
  split; [exact Hall|]. split; [exact Hget|].
  apply Hstay. repeat apply Forall_cons_2; try apply Forall_nil_2; simpl.
  - intros [].
  - intros [_ Hb]. discriminate Hb.
  - intros [_ Hb]. discriminate Hb.
  - intros [_ Hnil]. by apply Hnil.
  - intros Hb. discriminate Hb.
Defined.

(** C6 as stated fails: [Release] and [CleanupExpired] are not the only
    calls that remove an expired claim.  Unregistering the agent removes
    it with the agent, and the agent's next claim on the same work item
    takes its place. *)
Lemma Unregister_removes_expired_claim :
  let t := Sample.t0 in
  let c := Sample.old_claim "alice" "bv-42" in
  let s := exec (NewStore ".beads")
             [(t - 2 * time.Hour, CallRegister Sample.alice);
              (t - 2 * time.Hour, CallClaim "alice" c)] in
  WorkClaim.IsExpired c t = true
  ∧ (elems ∘ AgentRegistration.ClaimedWork) <$> Get s "alice" = Some [c]
  ∧ (Unregister s "alice").2 = None
  ∧ Get (Unregister s "alice").1 "alice" = None
  ∧ List (Unregister s "alice").1 = []
  ∧ (Claim t s "alice" (Sample.claim_of "alice" "bv-42")).2 = None
  ∧ (elems ∘ AgentRegistration.ClaimedWork)
      <$> Get (Claim t s "alice" (Sample.claim_of "alice" "bv-42")).1 "alice"
    = Some [Sample.claim_of "alice" "bv-42"].
Proof.
  intros t c s.
  split; [by_vm|]. split; [by_vm|]. split; [by_vm|]. split; [by_vm|].
  split; [by_vm|]. split; by_vm.
Qed.

End Expired_claim_witness.

(** ** Records too long for the scanner *)

(** C5.  The round trip fails on a registry with a registration whose
    line in the snapshot file has 65536 bytes or more: with one such agent
    registered, [Save] succeeds and writes the line, and [Load] into a
    fresh store for the same directory returns the scanner's error and
    leaves the registry empty. *)
Theorem long_record_not_reloaded `{RangeOrder} `{Platform} (s : Store) (fs : FS)
    (k : string) (a : AgentRegistration.t) (line : list byte) :
  agents s = {[ k := a ]} →
  json_Marshal a = Some line → x0a ∉ line →
  MaxScanTokenSize ≤ Z.of_nat (length line) →
  (Save s fs).2 = None
  ∧ (Save s fs).1 !! AgentsFilePath s = Some (line ++ [x0a])
  ∧ Load (NewStore (beadsDir s)) (Save s fs).1 = (NewStore (beadsDir s), Some ErrRead).
Proof.
  intros Hs Hm Hnl Hlong.
  assert (range_of (agents s) = [(k, a)]) as Hrange.
  { apply Permutation_singleton_r. rewrite range_of_perm, Hs.
    by rewrite map_to_list_singleton. }
  rewrite Save_reliable, Hrange. simpl. rewrite Hm. simpl.
  split; [done|]. split; [apply lookup_insert_eq|].
  unfold Load. simpl.
  change (AgentsFilePath (set_agents ∅ (NewStore (beadsDir s)))) with (AgentsFilePath s).
  rewrite lookup_insert_eq. unfold Scan. rewrite scan_line by done.
  rewrite app_nil_r.
  destruct (fits_buffer (reverse line)) eqn:Hfit; [|done].
  apply fits_buffer_true in Hfit. rewrite length_reverse in Hfit. lia.
Qed.

Section Long_record_witness.
#[local] Existing Instance canonical_order.
#[local] Existing Instance Demo.padded.

Lemma long_record_not_reloaded_witness :
  let s := store_agent "alice" Sample.alice (NewStore ".beads") in
  AgentRegistration.Validate Sample.alice = None
  ∧ (Save s ∅).2 = None
  ∧ Load (NewStore ".beads") (Save s ∅).1 = (NewStore ".beads", Some ErrRead).
Proof.
  intros s. split; [by_vm|].
  destruct (long_record_not_reloaded s ∅ "alice" Sample.alice
              (Demo.line_of Sample.alice ++ Demo.padding)) as (Hsave & _ & Hload).
  - apply insert_empty.
  - reflexivity.
  - unfold Demo.line_of. rewrite not_elem_of_app, not_elem_of_cons.
    split; [split; [done|apply digits_no_newline]|].
    unfold Demo.padding. intros [Hin _]%elem_of_replicate. done.
  - rewrite length_app. unfold Demo.padding. rewrite length_replicate. lia.
  - split; [exact Hsave|exact Hload].
Defined.

End Long_record_witness.

(** C8.  A line of 65536 bytes or more is never handed to the decoder:
    when the lines before it are read without error, [Load] stops at it
    with the scanner's error, which names no line, whether the line is a
    malformed record or not; the registrations of the lines before it are
    in the registry. *)
Theorem Load_overlong_line `{RangeOrder} `{Platform} (s : Store) (fs : FS)
    (good : list (list byte)) (bad rest : list byte)
    (m : gmap string AgentRegistration.t) :
  fs !! AgentsFilePath s = Some (unlines good ++ bad ++ x0a :: rest) →
  Forall scannable good →
  load_lines (dropCR <$> good) 0 ∅ = (m, None) →
  x0a ∉ bad → MaxScanTokenSize ≤ Z.of_nat (length bad) →
  Load s fs = (set_agents m s, Some ErrRead).
Proof.
  intros Hfile Hscan Hgood Hnl Hlong. unfold Load.
  change (AgentsFilePath (set_agents ∅ s)) with (AgentsFilePath s).
  rewrite Hfile, Scan_unlines_app by done. cbn [fst snd agents set_agents].
  assert (Scan (bad ++ x0a :: rest) = ([], true)) as ->.
  { unfold Scan. rewrite scan_line by done. rewrite app_nil_r.
    destruct (fits_buffer (reverse bad)) eqn:Hfit; [|done].
    apply fits_buffer_true in Hfit. rewrite length_reverse in Hfit. lia. }
  cbn [fst snd]. rewrite app_nil_r, Hgood. reflexivity.
Qed.

Section Overlong_line_witness.
#[local] Existing Instance canonical_order.
#[local] Existing Instance Demo.platform.

(** A file whose second line is a malformed record of 65536 bytes. *)
Lemma Load_overlong_line_witness :
  let bad := replicate (Z.to_nat MaxScanTokenSize) x78 in
  let file := unlines [Demo.line_of Sample.alice] ++ bad ++ x0a :: Demo.line_of Sample.bob in
  json_Unmarshal bad = None
  ∧ Load Sample.empty {[ ".beads/agents.jsonl" := file ]}
    = (set_agents {[ "alice" := Sample.alice ]} Sample.empty, Some ErrRead).
Proof.
  intros bad file. split; [reflexivity|].
  apply (Load_overlong_line Sample.empty {[ ".beads/agents.jsonl" := file ]}
           [Demo.line_of Sample.alice] bad (Demo.line_of Sample.bob)).
  - apply lookup_singleton_eq.
  - repeat apply Forall_cons_2; try apply Forall_nil_2.
    split; [by_evaluation|by vm_compute].
  - by_vm.
  - unfold bad. intros [Hin _]%elem_of_replicate. done.
  - unfold bad. rewrite length_replicate. lia.
Defined.

End Overlong_line_witness.

(** ** What a caller shares with the store *)

Section CopyFacts.
Context `{RangeOrder}.





End CopyFacts.


Section Handoff_witness.
#[local] Existing Instance canonical_order.



End Handoff_witness.
